(** * A spiking MNIST classifier: the notebook [Class_MNIST_LC.ipynb]

    The notebook wires a dataset loader, a three-layer fully connected
    network with leaky integrate-and-fire (LIF) activations, a spike
    encoder, a training loop and a test loop.  The tensor kernels, the
    LIF update rule, the encoders, automatic differentiation and Adam
    are framework code: here they are the variables of a section, with
    the part of their contract that the notebook relies on stated as
    hypotheses.  What the notebook itself does with tensors (indexing
    the time axis, stacking, reshaping, summing over time, arg-max,
    counting) is modelled in full. *)

From Stdlib Require Import List Arith Bool Lia ZArith QArith Qround.
Import ListNotations.

Set Implicit Arguments.
Local Open Scope nat_scope.

(** ** Exceptions and fallible results *)

Inductive Exn : Type :=
| IndexError
| RuntimeError
| ZeroDivisionError
| NameError.

Inductive Result (A : Type) : Type :=
| Ok (a : A)
| Raise (e : Exn).

Arguments Ok {A} a.
Arguments Raise {A} e.

Definition rbind {A B} (c : Result A) (k : A -> Result B) : Result B :=
  match c with
  | Ok a => k a
  | Raise e => Raise e
  end.

Declare Scope result_scope.
Delimit Scope result_scope with res.
Notation "x <- c ;; k" := (rbind c (fun x => k))
  (at level 61, c at next level, right associativity) : result_scope.
Notation "' p <- c ;; k" := (rbind c (fun x => match x with p => k end))
  (at level 61, p pattern, c at next level, right associativity) : result_scope.

(** A loop over a list whose body may raise: the first exception ends it. *)
Fixpoint rfold {A B} (f : A -> B -> Result A) (l : list B) (a : A) : Result A :=
  match l with
  | [] => Ok a
  | b :: l' => rbind (f a b) (rfold f l')
  end.

(** ** Tensors

    A tensor is its shape and its elements in row-major order, as a
    contiguous framework tensor is. *)

Record Tensor (A : Type) : Type := mkTensor {
  shape : list nat;
  data : list A
}.

Arguments mkTensor {A} shape data.

Definition numel (s : list nat) : nat := fold_right Nat.mul 1 s.

Definition wf {A} (t : Tensor A) : Prop := length (data t) = numel (shape t).

Definition shape_eqb (s1 s2 : list nat) : bool :=
  if list_eq_dec Nat.eq_dec s1 s2 then true else false.

(** [chunk k i l] is the [i]-th run of [k] consecutive elements of [l]. *)
Definition chunk {A} (k i : nat) (l : list A) : list A :=
  firstn k (skipn (i * k) l).

(** [t.size(0)] *)
Definition size0 {A} (t : Tensor A) : Result nat :=
  match shape t with
  | [] => Raise IndexError
  | n :: _ => Ok n
  end.

(** [t[i]] for a non-negative [i]: the [i]-th slice along dimension 0. *)
Definition select0 {A} (t : Tensor A) (i : nat) : Result (Tensor A) :=
  match shape t with
  | [] => Raise IndexError
  | n :: s =>
      if i <? n then Ok (mkTensor s (chunk (numel s) i (data t)))
      else Raise IndexError
  end.

(** [torch.stack(ts, dim=0)]: the list must be non-empty and its tensors
    must all have the shape of the first. *)
Definition stack0 {A} (ts : list (Tensor A)) : Result (Tensor A) :=
  match ts with
  | [] => Raise RuntimeError
  | t :: rest =>
      if forallb (fun u => shape_eqb (shape u) (shape t)) rest
      then Ok (mkTensor (length ts :: shape t) (concat (map (@data A) ts)))
      else Raise RuntimeError
  end.

(** [t.view(a, b, -1)]: the last dimension is inferred from the number of
    elements, which [a * b] must divide; with [a * b = 0] it cannot be
    inferred. *)
Definition view3 {A} (t : Tensor A) (a b : nat) : Result (Tensor A) :=
  let n := numel (shape t) in
  if (a * b =? 0) then Raise RuntimeError
  else if (n mod (a * b) =? 0)
       then Ok (mkTensor [a; b; n / (a * b)] (data t))
       else Raise RuntimeError.

(** [t.item()]: the value of a one-element tensor. *)
Definition item {A} (t : Tensor A) : Result A :=
  match data t with
  | [v] => Ok v
  | _ => Raise RuntimeError
  end.


(** ** The notebook *)

Section Notebook.

(** *** Framework interface: scalars, parameters, layers

    [R] is the element type of float tensors ([dtype = torch.float]);
    class-index tensors hold naturals. *)

Variable R : Type.
Variable zero : R.
Variable add : R -> R -> R.
Variable ltb : R -> R -> bool.

Definition tensor : Type := Tensor R.
Definition labels : Type := Tensor nat.

(** The framework's random generator: it seeds the parameters, shuffles
    the loaders and draws the spikes of rate coding. *)
Variable Rng : Type.
Variable init_param : Rng -> list nat -> tensor * Rng.

(** [nn.Linear]: the layer object and its application. *)
Record Linear : Type := mkLinear {
  in_features : nat;
  out_features : nat;
  weight : tensor;
  bias : tensor
}.

Definition nn_Linear (i o : nat) (g : Rng) : Linear * Rng :=
  let '(w, g1) := init_param g [o; i] in
  let '(b, g2) := init_param g1 [o] in
  (mkLinear i o w b, g2).

Variable linear_forward : Linear -> tensor -> Result tensor.

(** [snn.Leaky]: the layer object holds the decay constant; the membrane
    potential is passed to each call and returned by it. *)
Record Leaky : Type := mkLeaky {
  lif_beta : Q
}.

Definition snn_Leaky (b : Q) : Leaky := mkLeaky b.

Variable init_leaky : Leaky -> tensor.
Variable leaky_forward : Leaky -> tensor -> tensor -> Result (tensor * tensor).

(** *** Cell 5: architecture and temporal dynamics *)

Definition num_inputs : nat := 28 * 28.
Definition num_hidden : nat := 64.
Definition num_outputs : nat := 10.

Definition num_steps : nat := 30.
Definition beta : Q := 0.95.

(** *** Cell 6: [class Net] *)

Record Net : Type := mkNet {
  fc1 : Linear;
  lif1 : Leaky;
  fc2 : Linear;
  lif2 : Leaky;
  fc3 : Linear;
  lif3 : Leaky;
  training : bool
}.

(** [Net.__init__]: the six layers in the order they are assigned; a new
    module is in training mode. *)
Definition Net_init (g : Rng) : Net * Rng :=
  let '(l1, g1) := nn_Linear num_inputs num_hidden g in
  let a1 := snn_Leaky beta in
  let '(l2, g2) := nn_Linear num_hidden 64 g1 in
  let a2 := snn_Leaky beta in
  let '(l3, g3) := nn_Linear 64 num_outputs g2 in
  let a3 := snn_Leaky beta in
  (mkNet l1 a1 l2 a2 l3 a3 true, g3).

(** The sub-modules of a [Net] in registration order ([net.children()]). *)
Inductive Module : Type :=
| MLinear (l : Linear)
| MLeaky (l : Leaky).

Definition children (self : Net) : list Module :=
  [MLinear (fc1 self); MLeaky (lif1 self);
   MLinear (fc2 self); MLeaky (lif2 self);
   MLinear (fc3 self); MLeaky (lif3 self)].

(** The state of the time loop of [forward]: the three membrane
    potentials and the two records of the last layer. *)
Record LoopState : Type := mkLoopState {
  mem1 : tensor;
  mem2 : tensor;
  mem3 : tensor;
  spk3_rec : list tensor;
  mem3_rec : list tensor
}.

Definition forward_init (self : Net) : LoopState :=
  mkLoopState (init_leaky (lif1 self)) (init_leaky (lif2 self))
              (init_leaky (lif3 self)) [] [].

(** The body of [for step in range(num_steps)]. *)
Definition forward_step (self : Net) (x : tensor) (st : LoopState) (step : nat)
  : Result LoopState :=
  (xs <- select0 x step ;;
   cur1 <- linear_forward (fc1 self) xs ;;
   '(spk1, m1) <- leaky_forward (lif1 self) cur1 (mem1 st) ;;
   cur2 <- linear_forward (fc2 self) spk1 ;;
   '(spk2, m2) <- leaky_forward (lif2 self) cur2 (mem2 st) ;;
   cur3 <- linear_forward (fc3 self) spk2 ;;
   '(spk3, m3) <- leaky_forward (lif3 self) cur3 (mem3 st) ;;
   Ok (mkLoopState m1 m2 m3 (spk3_rec st ++ [spk3]) (mem3_rec st ++ [m3])))%res.

(** [Net.forward], with the global [num_steps] it reads as [steps]. *)
Definition Net_forward (steps : nat) (self : Net) (x : tensor)
  : Result (tensor * tensor) :=
  (st <- rfold (forward_step self x) (seq 0 steps) (forward_init self) ;;
   s <- stack0 (spk3_rec st) ;;
   m <- stack0 (mem3_rec st) ;;
   Ok (s, m))%res.

Definition forward : Net -> tensor -> Result (tensor * tensor) :=
  Net_forward num_steps.

(** [net.parameters()], and the net with its parameter tensors replaced
    (what an in-place optimizer update amounts to). *)
Definition parameters (self : Net) : list tensor :=
  [weight (fc1 self); bias (fc1 self);
   weight (fc2 self); bias (fc2 self);
   weight (fc3 self); bias (fc3 self)].

Definition with_params (l : Linear) (w b : tensor) : Linear :=
  mkLinear (in_features l) (out_features l) w b.

Definition load_parameters (self : Net) (ps : list tensor) : Net :=
  match ps with
  | [w1; b1; w2; b2; w3; b3] =>
      mkNet (with_params (fc1 self) w1 b1) (lif1 self)
            (with_params (fc2 self) w2 b2) (lif2 self)
            (with_params (fc3 self) w3 b3) (lif3 self)
            (training self)
  | _ => self
  end.

Definition set_training (b : bool) (self : Net) : Net :=
  mkNet (fc1 self) (lif1 self) (fc2 self) (lif2 self) (fc3 self) (lif3 self) b.

(** *** Cell 7: loss and optimizer *)

Variable CE_loss : tensor -> labels -> Result R.

Record AdamCfg : Type := mkAdamCfg {
  lr : Q;
  betas : Q * Q
}.

Definition optimizer_cfg : AdamCfg := mkAdamCfg 5e-4 (0.9%Q, 0.999%Q).

Variable OptState : Type.
Variable adam_init : list tensor -> OptState.
Variable adam_step :
  AdamCfg -> OptState -> list tensor -> list (option tensor) -> list tensor * OptState.

(** Reverse-mode differentiation: the gradient, at the current parameter
    values, of the loss as a function of the parameters. *)
Variable autograd : (list tensor -> Result tensor) -> list tensor -> list tensor.

(** *** Spike encoders and data loaders *)

Variable spikegen_latency : tensor -> nat -> Result tensor.
Variable spikegen_rate : Rng -> tensor -> nat -> Result tensor * Rng.

Definition Batch : Type := (tensor * labels)%type.

Variable Loader : Type.
Variable loader_iter : Loader -> Rng -> list Batch * Rng.
Variable dataset_len : Loader -> nat.

(** *** The interpreter state and the calls made to the framework *)

Inductive Call : Type :=
| EvTrainMode
| EvEvalMode
| EvIter (l : Loader)
| EvLatency (dat : tensor) (n : nat)
| EvRate (dat : tensor) (n : nat)
| EvZeroGrad
| EvForward (x : tensor)
| EvBackward (loss : tensor)
| EvStep (cfg : AdamCfg)
| EvPrintEpoch (epoch n : nat) (loss : R)
| EvPrintAccuracy (acc : Q).

(** Of the notebook's namespace the state holds the list [loss_hist],
    which the training cell fills, and the tensor [loss_val], the one
    name that a cell reads without having bound it first: it is unbound
    ([None]) until a loss loop has started.  Every other name is bound
    in a cell before that cell reads it. *)
Record World : Type := mkWorld {
  w_net : Net;
  w_grads : list (option tensor);
  w_opt : OptState;
  w_rng : Rng;
  w_grad_enabled : bool;
  w_loss_hist : list R;
  w_loss_val : option tensor;
  w_trace : list Call
}.

Definition set_net (f : Net -> Net) (w : World) : World :=
  mkWorld (f (w_net w)) (w_grads w) (w_opt w) (w_rng w) (w_grad_enabled w)
          (w_loss_hist w) (w_loss_val w) (w_trace w).

Definition set_grads (gs : list (option tensor)) (w : World) : World :=
  mkWorld (w_net w) gs (w_opt w) (w_rng w) (w_grad_enabled w)
          (w_loss_hist w) (w_loss_val w) (w_trace w).

Definition set_opt (o : OptState) (w : World) : World :=
  mkWorld (w_net w) (w_grads w) o (w_rng w) (w_grad_enabled w)
          (w_loss_hist w) (w_loss_val w) (w_trace w).

Definition set_rng (g : Rng) (w : World) : World :=
  mkWorld (w_net w) (w_grads w) (w_opt w) g (w_grad_enabled w)
          (w_loss_hist w) (w_loss_val w) (w_trace w).

Definition set_grad_enabled (b : bool) (w : World) : World :=
  mkWorld (w_net w) (w_grads w) (w_opt w) (w_rng w) b
          (w_loss_hist w) (w_loss_val w) (w_trace w).

Definition push_loss (v : R) (w : World) : World :=
  mkWorld (w_net w) (w_grads w) (w_opt w) (w_rng w) (w_grad_enabled w)
          (w_loss_hist w ++ [v]) (w_loss_val w) (w_trace w).

Definition set_loss_hist (h : list R) (w : World) : World :=
  mkWorld (w_net w) (w_grads w) (w_opt w) (w_rng w) (w_grad_enabled w)
          h (w_loss_val w) (w_trace w).

Definition set_loss_val (l : option tensor) (w : World) : World :=
  mkWorld (w_net w) (w_grads w) (w_opt w) (w_rng w) (w_grad_enabled w)
          (w_loss_hist w) l (w_trace w).

Definition log (c : Call) (w : World) : World :=
  mkWorld (w_net w) (w_grads w) (w_opt w) (w_rng w) (w_grad_enabled w)
          (w_loss_hist w) (w_loss_val w) (w_trace w ++ [c]).

(** A cell's code: it reads and writes the state, and may raise; the
    state stays as the exception left it. *)
Definition M (A : Type) : Type := World -> Result A * World.

Definition ret {A} (a : A) : M A := fun w => (Ok a, w).

Definition bind {A B} (c : M A) (k : A -> M B) : M B :=
  fun w =>
    match c w with
    | (Ok a, w') => k a w'
    | (Raise e, w') => (Raise e, w')
    end.

Definition lift {A} (r : Result A) : M A := fun w => (r, w).

Definition modify (f : World -> World) : M unit := fun w => (Ok tt, f w).

Definition gets {A} (f : World -> A) : M A := fun w => (Ok (f w), w).

Declare Scope cell_scope.
Delimit Scope cell_scope with cell.
Notation "x <- c ;; k" := (bind c (fun x => k))
  (at level 61, c at next level, right associativity) : cell_scope.
Notation "' p <- c ;; k" := (bind c (fun x => match x with p => k end))
  (at level 61, p pattern, c at next level, right associativity) : cell_scope.
Notation "c ;;; k" := (bind c (fun _ => k))
  (at level 61, right associativity) : cell_scope.

(** A [for] loop over a list, threading an accumulator. *)
Fixpoint mfold {A B} (f : A -> B -> M A) (l : list B) (a : A) : M A :=
  match l with
  | [] => ret a
  | b :: l' => bind (f a b) (mfold f l')
  end.

(** [net(x)] *)
Definition call_net (x : tensor) : M (tensor * tensor) :=
  (modify (log (EvForward x)) ;;;
   self <- gets w_net ;;
   lift (forward self x))%cell.

(** [optimizer.zero_grad()] *)
Definition zero_grad : M unit :=
  (modify (log EvZeroGrad) ;;;
   modify (fun w => set_grads (map (fun _ => None) (w_grads w)) w))%cell.

(** Element-wise sum of two tensors of one shape. *)
Definition vadd (a b : list R) : list R :=
  map (fun p => add (fst p) (snd p)) (combine a b).

Definition accumulate (old : option tensor) (g : tensor) : option tensor :=
  match old with
  | None => Some g
  | Some o => Some (mkTensor (shape o) (vadd (data o) (data g)))
  end.

Fixpoint accumulate_all (olds : list (option tensor)) (gs : list tensor)
  : list (option tensor) :=
  match olds, gs with
  | o :: olds', g :: gs' => accumulate o g :: accumulate_all olds' gs'
  | _, _ => olds
  end.

(** [loss_val.backward()], where [loss_fn] is the computation that
    produced [loss_val] from the parameters. *)
Definition backward (loss_val : tensor) (loss_fn : list tensor -> Result tensor)
  : M unit :=
  (modify (log (EvBackward loss_val)) ;;;
   modify (fun w =>
     set_grads (accumulate_all (w_grads w)
                  (autograd loss_fn (parameters (w_net w)))) w))%cell.

(** [optimizer.step()] *)
Definition optimizer_step : M unit :=
  (modify (log (EvStep optimizer_cfg)) ;;;
   modify (fun w =>
     let '(ps, o) := adam_step optimizer_cfg (w_opt w)
                       (parameters (w_net w)) (w_grads w) in
     set_opt o (set_net (fun self => load_parameters self ps) w)))%cell.

Definition latency (dat : tensor) (n : nat) : M tensor :=
  (modify (log (EvLatency dat n)) ;;;
   lift (spikegen_latency dat n))%cell.

Definition rate (dat : tensor) (n : nat) : M tensor :=
  (modify (log (EvRate dat n)) ;;;
   fun w => let '(r, g) := spikegen_rate (w_rng w) dat n in (r, set_rng g w))%cell.

Definition iterate (l : Loader) : M (list Batch) :=
  (modify (log (EvIter l)) ;;;
   fun w => let '(bs, g) := loader_iter l (w_rng w) in (Ok bs, set_rng g w))%cell.

(** *** Cell 8: training *)

Definition num_epochs : nat := 1.
Definition num_classes : nat := 10.

(** [torch.zeros((1))] and [loss_val += c] for a zero-dimensional [c]. *)
Definition zeros1 : tensor := mkTensor [1] [zero].

Definition iadd_scalar (t : tensor) (c : R) : tensor :=
  mkTensor (shape t) (map (fun v => add v c) (data t)).

(** The body of the loss loop: [loss_val += CE_loss(mem_rec[step], targets)]. *)
Definition loss_step (mem_rec : tensor) (targets : labels) (loss_val : tensor)
  (step : nat) : Result tensor :=
  (m <- select0 mem_rec step ;;
   c <- CE_loss m targets ;;
   Ok (iadd_scalar loss_val c))%res.

Definition accumulate_loss (steps : nat) (mem_rec : tensor) (targets : labels)
  : Result tensor :=
  rfold (loss_step mem_rec targets) (seq 0 steps) zeros1.

(** The loss of a batch as a function of the parameters: the forward pass
    followed by the loss loop. *)
Definition loss_fn (self : Net) (spike_data : tensor) (targets : labels)
  (ps : list tensor) : Result tensor :=
  ('(_, mem_rec) <- forward (load_parameters self ps) spike_data ;;
   accumulate_loss num_steps mem_rec targets)%res.

(** The loss loop of a batch as the cell runs it: the name [loss_val] is
    bound to a new tensor holding one zero, and every step adds to that
    tensor in place; if a step raises, [loss_val] stays bound to the sum
    so far. *)
Definition loss_loop (steps : nat) (mem_rec : tensor) (targets : labels)
  : M tensor :=
  (modify (set_loss_val (Some zeros1)) ;;;
   mfold (fun loss_val step =>
            l <- lift (loss_step mem_rec targets loss_val step) ;;
            modify (set_loss_val (Some l)) ;;;
            ret l)
         (seq 0 steps) zeros1)%cell.

(** The body of [for data, targets in train_loader]; it returns the loss
    tensor it leaves bound to [loss_val]. *)
Definition train_batch (_ : option tensor) (b : Batch) : M (option tensor) :=
  (let '(dat, targets) := b in
   spike_data <- latency dat num_steps ;;
   n <- lift (size0 dat) ;;
   spike_data <- lift (view3 spike_data num_steps n) ;;
   zero_grad ;;;
   '(outputs, mem_rec) <- call_net spike_data ;;
   loss_val <- loss_loop num_steps mem_rec targets ;;
   v <- lift (item loss_val) ;;
   modify (push_loss v) ;;;
   self <- gets w_net ;;
   backward loss_val (loss_fn self spike_data targets) ;;;
   optimizer_step ;;;
   ret (Some loss_val))%cell.

(** The body of [for epoch in range(num_epochs)].  The print reads the
    name [loss_val]: it is bound by the batches of the epoch, or else
    holds what an earlier run of the cell left, or is unbound. *)
Definition train_epoch (train_loader : Loader) (last : option tensor)
  (epoch : nat) : M (option tensor) :=
  (modify (log EvTrainMode) ;;;
   modify (set_net (set_training true)) ;;;
   batches <- iterate train_loader ;;
   last <- mfold train_batch batches last ;;
   loss_val <- gets w_loss_val ;;
   l <- lift (match loss_val with
              | None => Raise NameError
              | Some l => Ok l
              end) ;;
   v <- lift (item l) ;;
   modify (log (EvPrintEpoch (epoch + 1) num_epochs v)) ;;;
   ret last)%cell.

(** The cell: [loss_hist = []] (the names [test_loss_hist] and [counter]
    bound beside it are never read), then the epochs. *)
Definition training_cell (train_loader : Loader) : M unit :=
  (modify (set_loss_hist []) ;;;
   _ <- mfold (train_epoch train_loader) (seq 0 num_epochs) None ;;
   ret tt)%cell.

(** *** Cell 9: test *)

(** [t.sum(dim=0)] *)
Definition sum0 (t : tensor) : Result tensor :=
  match shape t with
  | [] => Ok t
  | n :: s =>
      Ok (mkTensor s
            (fold_left vadd
               (map (fun i => chunk (numel s) i (data t)) (seq 0 n))
               (repeat zero (numel s))))
  end.

(** The index of the first maximal element. *)
Fixpoint argmax_from (best_i : nat) (best : R) (i : nat) (l : list R) : nat :=
  match l with
  | [] => best_i
  | v :: l' =>
      if ltb best v then argmax_from i v (S i) l'
      else argmax_from best_i best (S i) l'
  end.

Definition argmax (l : list R) : nat :=
  match l with
  | [] => 0
  | v :: l' => argmax_from 0 v 1 l'
  end.

(** The indices returned by [t.max(1)]: dimension 1 is reduced. *)
Definition max1_indices (t : tensor) : Result labels :=
  match shape t with
  | b :: c :: rest =>
      let r := numel rest in
      if c =? 0 then Raise IndexError
      else Ok (mkTensor (b :: rest)
                 (flat_map (fun i =>
                    map (fun k =>
                      argmax (map (fun j => nth ((i * c + j) * r + k) (data t) zero)
                                  (seq 0 c)))
                        (seq 0 r))
                    (seq 0 b)))
  | _ => Raise IndexError
  end.

(** Broadcasting.  Two shapes are aligned at their last dimensions; two
    aligned dimensions must be equal unless one of them is 1, and a
    dimension missing on one side counts as 1.  The shapes are given
    last dimension first. *)
Fixpoint broadcast_rev (s1 s2 : list nat) : option (list nat) :=
  match s1, s2 with
  | [], s => Some s
  | s, [] => Some s
  | a :: s1', b :: s2' =>
      match broadcast_rev s1' s2' with
      | None => None
      | Some s =>
          if a =? b then Some (a :: s)
          else if a =? 1 then Some (b :: s)
          else if b =? 1 then Some (a :: s)
          else None
      end
  end.

Definition broadcast_shapes (s1 s2 : list nat) : option (list nat) :=
  option_map (@rev nat) (broadcast_rev (rev s1) (rev s2)).

(** The elements of a tensor of shape [from] expanded to the shape [to]
    of as many dimensions: a dimension of size 1 is repeated. *)
Fixpoint expand {A} (from to : list nat) (l : list A) : list A :=
  match from, to with
  | d :: from', e :: to' =>
      if d =? e
      then concat (map (fun i => expand from' to' (chunk (numel from') i l))
                       (seq 0 d))
      else concat (repeat (expand from' to' l) e)
  | _, _ => l
  end.

Definition broadcast_to {A} (t : Tensor A) (s : list nat) : list A :=
  expand (repeat 1 (length s - length (shape t)) ++ shape t) s (data t).

Definition count_eq (l1 l2 : list nat) : nat :=
  length (filter (fun p => fst p =? snd p) (combine l1 l2)).

(** [(a == b).sum().item()]: the two tensors are broadcast to a common
    shape and the positions that hold equal values are counted. *)
Definition eq_sum (a b : labels) : Result nat :=
  match broadcast_shapes (shape a) (shape b) with
  | None => Raise RuntimeError
  | Some s => Ok (count_eq (broadcast_to a s) (broadcast_to b s))
  end.

(** Python's [a / b] on integers. *)
Definition truediv (a b : nat) : Result Q :=
  if b =? 0 then Raise ZeroDivisionError
  else Ok (Z.of_nat a # Pos.of_nat b)%Q.

(** [with torch.no_grad(): body] *)
Definition with_no_grad {A} (body : M A) : M A :=
  fun w =>
    let prev := w_grad_enabled w in
    let '(r, w') := body (set_grad_enabled false w) in
    (r, set_grad_enabled prev w').

(** The body of [for data, targets in test_loader]; the accumulator is
    [(correct, total)]. *)
Definition test_batch (acc : nat * nat) (b : Batch) : M (nat * nat) :=
  (let '(correct, total) := acc in
   let '(dat, targets) := b in
   spike_data <- rate dat num_steps ;;
   n <- lift (size0 dat) ;;
   spike_data <- lift (view3 spike_data num_steps n) ;;
   '(outputs, _) <- call_net spike_data ;;
   s <- lift (sum0 outputs) ;;
   pred <- lift (max1_indices s) ;;
   c <- lift (eq_sum pred targets) ;;
   m <- lift (size0 targets) ;;
   ret (correct + c, total + m))%cell.

Definition test_loop (test_loader : Loader) : M (nat * nat) :=
  (modify (log EvEvalMode) ;;;
   modify (set_net (set_training false)) ;;;
   with_no_grad
     (batches <- iterate test_loader ;;
      mfold test_batch batches (0, 0)))%cell.

(** The cell: the loop, the printed accuracy, and the variable [accuracy]. *)
Definition test_cell (test_loader : Loader) : M (nat * nat * Q * Q) :=
  ('(correct, total) <- test_loop test_loader ;;
   printed <- lift (truediv (100 * correct) total) ;;
   modify (log (EvPrintAccuracy printed)) ;;;
   accuracy <- lift (truediv (100 * correct) (dataset_len test_loader)) ;;
   ret (correct, total, printed, accuracy))%cell.

(** *** The notebook, cells 6 to 9 in order *)

Definition initial_world (g : Rng) : World :=
  let '(net, g1) := Net_init g in
  mkWorld net (map (fun _ => None) (parameters net))
          (adam_init (parameters net)) g1 true [] None [].

Definition notebook (train_loader test_loader : Loader) : M (nat * nat * Q * Q) :=
  (training_cell train_loader ;;;
   test_cell test_loader)%cell.


(** ** The vocabulary of the statements

    Well-formed layers, nets and loop states; the batches the loaders
    yield; what the calls of a batch are. *)

Definition Linear_ok (l : Linear) : Prop :=
  wf (weight l) /\ shape (weight l) = [out_features l; in_features l] /\
  wf (bias l) /\ shape (bias l) = [out_features l].

Definition Net_ok (self : Net) : Prop :=
  Linear_ok (fc1 self) /\ Linear_ok (fc2 self) /\ Linear_ok (fc3 self) /\
  out_features (fc1 self) = in_features (fc2 self) /\
  out_features (fc2 self) = in_features (fc3 self).

Definition mem_ok (l : Leaky) (s : list nat) (m : tensor) : Prop :=
  m = init_leaky l \/ (wf m /\ shape m = s).

Definition rec_ok (s : list nat) (ts : list tensor) : Prop :=
  Forall (fun u => wf u /\ shape u = s) ts.

Definition state_ok (self : Net) (pre : list nat) (st : LoopState) : Prop :=
  mem_ok (lif1 self) (pre ++ [out_features (fc1 self)]) (mem1 st) /\
  mem_ok (lif2 self) (pre ++ [out_features (fc2 self)]) (mem2 st) /\
  mem_ok (lif3 self) (pre ++ [out_features (fc3 self)]) (mem3 st) /\
  rec_ok (pre ++ [out_features (fc3 self)]) (spk3_rec st) /\
  rec_ok (pre ++ [out_features (fc3 self)]) (mem3_rec st).

(** *** The membrane potentials as a recurrence over time

    [membranes_at self x t] are the potentials the three LIF layers hold
    before time step [t] of a forward pass on [x]: the initial ones at
    [t = 0], and after that what each layer returned at step [t - 1]. *)

Definition lif_update (self : Net) (xs : tensor) (m : tensor * tensor * tensor)
  : Result (tensor * tensor * tensor * tensor * tensor) :=
  (let '(m1, m2, m3) := m in
   cur1 <- linear_forward (fc1 self) xs ;;
   '(spk1, m1') <- leaky_forward (lif1 self) cur1 m1 ;;
   cur2 <- linear_forward (fc2 self) spk1 ;;
   '(spk2, m2') <- leaky_forward (lif2 self) cur2 m2 ;;
   cur3 <- linear_forward (fc3 self) spk2 ;;
   '(spk3, m3') <- leaky_forward (lif3 self) cur3 m3 ;;
   Ok (m1', m2', m3', spk3, m3'))%res.

Fixpoint membranes_at (self : Net) (x : tensor) (t : nat)
  : Result (tensor * tensor * tensor) :=
  match t with
  | 0 => Ok (init_leaky (lif1 self), init_leaky (lif2 self), init_leaky (lif3 self))
  | S t' =>
      (m <- membranes_at self x t' ;;
       xs <- select0 x t' ;;
       '(m1, m2, m3, _, _) <- lif_update self xs m ;;
       Ok (m1, m2, m3))%res
  end.

(** What the loss loop leaves bound to [loss_val], whether it ends or
    raises: the sum of the steps that succeeded. *)
Fixpoint loss_left (mem_rec : tensor) (targets : labels) (steps : list nat)
  (acc : tensor) : tensor :=
  match steps with
  | [] => acc
  | step :: rest =>
      match loss_step mem_rec targets acc step with
      | Ok l => loss_left mem_rec targets rest l
      | Raise _ => acc
      end
  end.

(** A batch as the loaders yield them for a net with [i] inputs and [o]
    classes: [B > 0] examples of [i] elements each, and one class index
    below [o] per example. *)
Definition batch_ok (i o : nat) (b : Batch) : Prop :=
  wf (fst b) /\ wf (snd b) /\
  exists B rest,
    0 < B /\ shape (fst b) = B :: rest
    /\ numel rest = i
    /\ shape (snd b) = [B]
    /\ Forall (fun c => c < o) (data (snd b)).

Definition batch_fits (self : Net) (b : Batch) : Prop :=
  batch_ok (in_features (fc1 self)) (out_features (fc3 self)) b.

(** [targets.size(0)] of a batch. *)
Definition batch_size (b : Batch) : nat :=
  match shape (snd b) with
  | n :: _ => n
  | [] => 0
  end.

(** The world after the optimizer step of a training batch. *)
Definition after_step (w : World) (spike_data : tensor) (targets : labels) (v : R)
  (loss_val : tensor) : World :=
  let w1 := log (EvForward spike_data)
              (set_grads (map (fun _ => None) (w_grads w))
                 (log EvZeroGrad w)) in
  let w2 := set_grads
              (accumulate_all (w_grads w1)
                 (autograd (loss_fn (w_net w) spike_data targets)
                    (parameters (w_net w))))
              (log (EvBackward loss_val)
                 (push_loss v (set_loss_val (Some loss_val) w1))) in
  let w3 := log (EvStep optimizer_cfg) w2 in
  let '(ps, o) := adam_step optimizer_cfg (w_opt w3)
                    (parameters (w_net w3)) (w_grads w3) in
  set_opt o (set_net (fun self => load_parameters self ps) w3).

(** *** Summing over time and taking the arg-max

    The claim's words for the prediction: for example [b], the spikes of
    output unit [c] summed over the time steps, and the class with the
    largest sum. *)

Definition spike_count (outputs : tensor) (steps B C b c : nat) : R :=
  fold_left add
    (map (fun t => nth ((t * B + b) * C + c) (data outputs) zero) (seq 0 steps))
    zero.

Definition predicted_class (outputs : tensor) (steps B C b : nat) : nat :=
  argmax (map (spike_count outputs steps B C b) (seq 0 C)).

(** Gradient descent with Adam in the claim's words: a step takes the
    net and the optimizer state, differentiates the summed loss of the
    latency-encoded batch at the net's parameters, and lets Adam update
    the parameters from that gradient alone. *)
Definition descent_step (st : Net * OptState) (b : Batch)
  : Result (Net * OptState) :=
  (let '(self, o) := st in
   raw <- spikegen_latency (fst b) num_steps ;;
   n <- size0 (fst b) ;;
   spike_data <- view3 raw num_steps n ;;
   let ps := parameters self in
   let grads := accumulate_all (map (fun _ => None) ps)
                  (autograd (loss_fn self spike_data (snd b)) ps) in
   let '(ps', o') := adam_step optimizer_cfg o ps grads in
   Ok (load_parameters self ps', o'))%res.

(** A test pass in the claim's words.  [test_outputs self g batches]
    are the outputs of the net on the batches in order, each batch
    rate-encoded over [num_steps] steps with the generator state the
    batch before it left; [hits self b outputs] is the number of
    examples of [b] whose predicted class is their label. *)
Fixpoint test_outputs (self : Net) (g : Rng) (batches : list Batch)
  : Result (list tensor) :=
  match batches with
  | [] => Ok []
  | b :: rest =>
      let '(r, g') := spikegen_rate g (fst b) num_steps in
      (raw <- r ;;
       n <- size0 (fst b) ;;
       spike_data <- view3 raw num_steps n ;;
       '(outputs, _) <- forward self spike_data ;;
       outs <- test_outputs self g' rest ;;
       Ok (outputs :: outs))%res
  end.

Definition hits (self : Net) (b : Batch) (outputs : tensor) : nat :=
  length (filter
            (fun e => predicted_class outputs num_steps (batch_size b)
                        (out_features (fc3 self)) e
                      =? nth e (data (snd b)) 0)
            (seq 0 (batch_size b))).

Definition all_hits (self : Net) (batches : list Batch) (outs : list tensor)
  : nat :=
  list_sum (map (fun p => hits self (fst p) (snd p)) (combine batches outs)).

(** The calls of one test batch and of one training batch. *)
Definition test_events (p : Batch * tensor) : list Call :=
  [EvRate (fst (fst p)) num_steps; EvForward (snd p)].

Definition train_events (p : Batch * (tensor * tensor)) : list Call :=
  [EvLatency (fst (fst p)) num_steps; EvZeroGrad; EvForward (fst (snd p));
   EvBackward (snd (snd p)); EvStep optimizer_cfg].

(** Two nets that differ in their parameter values only. *)
Definition same_layout (self self' : Net) : Prop :=
  in_features (fc1 self') = in_features (fc1 self)
  /\ out_features (fc1 self') = out_features (fc1 self)
  /\ in_features (fc2 self') = in_features (fc2 self)
  /\ out_features (fc2 self') = out_features (fc2 self)
  /\ in_features (fc3 self') = in_features (fc3 self)
  /\ out_features (fc3 self') = out_features (fc3 self)
  /\ lif1 self' = lif1 self /\ lif2 self' = lif2 self /\ lif3 self' = lif3 self
  /\ training self' = training self.

(** *** What a piece of code leaves as it was

    [keeps P c]: whatever [c] returns or raises, the state it leaves is
    [P]-related to the one it started from. *)

Definition keeps (P : World -> World -> Prop) {A} (c : M A) : Prop :=
  forall w, P w (snd (c w)).

(** The calls that change neither a parameter nor a gradient. *)
Definition passive (c : Call) : bool :=
  match c with
  | EvZeroGrad | EvBackward _ | EvStep _ => false
  | _ => true
  end.

(** The frame of the test loop body: the net, the gradients and the
    optimizer state are untouched, gradient recording stays as it is,
    and only passive calls are made. *)
Definition frame (w w' : World) : Prop :=
  w_net w' = w_net w
  /\ w_grads w' = w_grads w
  /\ w_opt w' = w_opt w
  /\ w_grad_enabled w' = w_grad_enabled w
  /\ w_loss_hist w' = w_loss_hist w
  /\ exists evs, w_trace w' = w_trace w ++ evs /\ forallb passive evs = true.

(** Counting the calls of one kind in a trace. *)
Definition count (p : Call -> bool) (evs : list Call) : nat := length (filter p evs).

Definition is_step (c : Call) : bool :=
  match c with EvStep _ => true | _ => false end.
Definition is_backward (c : Call) : bool :=
  match c with EvBackward _ => true | _ => false end.
Definition is_zero_grad (c : Call) : bool :=
  match c with EvZeroGrad => true | _ => false end.
Definition is_forward (c : Call) : bool :=
  match c with EvForward _ => true | _ => false end.
Definition is_latency (c : Call) : bool :=
  match c with EvLatency _ _ => true | _ => false end.
Definition is_rate (c : Call) : bool :=
  match c with EvRate _ _ => true | _ => false end.
Definition is_iter (c : Call) : bool :=
  match c with EvIter _ => true | _ => false end.
Definition is_train_mode (c : Call) : bool :=
  match c with EvTrainMode => true | _ => false end.

(** ** The network as a chain of stages *)

Inductive Stage : Type :=
| SLinear (i o : nat)
| SLeaky (b : Q).

Definition stage_of (m : Module) : Stage :=
  match m with
  | MLinear l => SLinear (in_features l) (out_features l)
  | MLeaky l => SLeaky (lif_beta l)
  end.

Definition topology (self : Net) : list Stage := map stage_of (children self).

(** The chain in the vocabulary of the specification: a layer of units,
    and a LIF stage.  The input units come first; a linear layer yields
    a layer of [out_features] units. *)
Inductive ChainItem : Type :=
| Units (n : nat)
| Lif.

Definition item_of (s : Stage) : ChainItem :=
  match s with
  | SLinear _ o => Units o
  | SLeaky _ => Lif
  end.

Definition chain (self : Net) : list ChainItem :=
  Units (in_features (fc1 self)) :: map item_of (topology self).

(** The chain as the specification writes it. *)
Definition spec_chain : list ChainItem :=
  [Units 784; Lif; Units 64; Lif; Units 64; Lif; Units 10; Lif].

Definition is_lif (c : ChainItem) : bool :=
  match c with Lif => true | Units _ => false end.

(** Sequential application of a list of modules to one time slice; the
    LIF modules take their membrane potentials from [mems], in order,
    and the new potentials are returned in that order. *)
Fixpoint run_chain (mods : list Module) (x : tensor) (mems : list tensor)
  : Result (tensor * list tensor) :=
  match mods with
  | [] => Ok (x, [])
  | MLinear l :: rest =>
      (y <- linear_forward l x ;; run_chain rest y mems)%res
  | MLeaky l :: rest =>
      match mems with
      | [] => Raise RuntimeError
      | m :: ms =>
          ('(spk, m') <- leaky_forward l x m ;;
           '(y, ms') <- run_chain rest spk ms ;;
           Ok (y, m' :: ms'))%res
      end
  end.

(** [respects P c]: from two states related by [P], the code [c] returns
    the same result or raises the same exception, and leaves two states
    related by [P]. *)
Definition respects (P : World -> World -> Prop) {A} (c : M A) : Prop :=
  forall w w2, P w w2 ->
    fst (c w) = fst (c w2) /\ P (snd (c w)) (snd (c w2)).

(** Two states with the same net and the same generator state. *)
Definition same_seed (w w2 : World) : Prop :=
  w_net w = w_net w2 /\ w_rng w = w_rng w2.

(** Two states with the same net, optimizer state and generator state,
    and as many gradient slots. *)
Definition same_start (w w2 : World) : Prop :=
  w_net w = w_net w2 /\ w_opt w = w_opt w2 /\ w_rng w = w_rng w2
  /\ length (w_grads w) = length (w_grads w2).

(** Two such states in which, moreover, the name [loss_val] is bound to
    the same tensor or unbound in both. *)
Definition same_bound (w w2 : World) : Prop :=
  same_start w w2 /\ w_loss_val w = w_loss_val w2.

(** ** Facts about slices and stacks *)

Lemma rfold_app {A B} (f : A -> B -> Result A) l1 l2 a :
  rfold f (l1 ++ l2) a = rbind (rfold f l1 a) (rfold f l2).
Proof.
  revert a; induction l1 as [|b l1 IH]; intros a; simpl; [reflexivity|].
  destruct (f a b); simpl; auto.
Qed.

Lemma map_const_length {A B C} (c : C) (l1 : list A) (l2 : list B) :
  length l1 = length l2 -> map (fun _ => c) l1 = map (fun _ => c) l2.
Proof.
  revert l2; induction l1 as [|a l1 IH]; intros [|b l2] H; simpl in *;
    try discriminate; [reflexivity|]. f_equal. apply IH. lia.
Qed.

Lemma shape_eqb_eq s1 s2 : shape_eqb s1 s2 = true <-> s1 = s2.
Proof.
  unfold shape_eqb; destruct (list_eq_dec Nat.eq_dec s1 s2); split; congruence.
Qed.

Lemma shape_eqb_refl s : shape_eqb s s = true.
Proof. apply shape_eqb_eq; reflexivity. Qed.

Lemma chunk_length {A} k i (l : list A) :
  (i + 1) * k <= length l -> length (chunk k i l) = k.
Proof.
  intros H; unfold chunk.
  rewrite length_firstn, length_skipn. nia.
Qed.

Lemma chunk_concat {A} (k : nat) (ls : list (list A)) (i : nat) (l : list A) :
  Forall (fun l' => length l' = k) ls ->
  nth_error ls i = Some l ->
  chunk k i (concat ls) = l.
Proof.
  intros Hall; revert i; induction Hall as [|l0 ls Hl0 Hall IH]; intros i Hi.
  - destruct i; discriminate.
  - destruct i as [|i]; simpl in Hi.
    + injection Hi as <-. unfold chunk; simpl.
      rewrite firstn_app, <- Hl0, firstn_all, Nat.sub_diag; simpl.
      apply app_nil_r.
    + unfold chunk; simpl.
      assert (Hs : skipn (k + i * k) (l0 ++ concat ls) = skipn (i * k) (concat ls)).
      { rewrite skipn_app, Hl0.
        replace (k + i * k - k) with (i * k) by lia.
        rewrite skipn_all2 by lia. reflexivity. }
      rewrite Hs. apply IH; assumption.
Qed.

Lemma stack0_ok {A} (t : Tensor A) (rest : list (Tensor A)) :
  Forall (fun u => shape u = shape t) rest ->
  stack0 (t :: rest)
  = Ok (mkTensor (S (length rest) :: shape t) (concat (map (@data A) (t :: rest)))).
Proof.
  intros H; unfold stack0.
  replace (forallb (fun u => shape_eqb (shape u) (shape t)) rest) with true; [reflexivity|].
  symmetry; apply forallb_forall; intros u Hu.
  apply shape_eqb_eq. rewrite Forall_forall in H; auto.
Qed.

Lemma stack0_inv {A} (ts : list (Tensor A)) (T : Tensor A) :
  stack0 ts = Ok T ->
  exists t rest, ts = t :: rest
    /\ Forall (fun u => shape u = shape t) ts
    /\ T = mkTensor (length ts :: shape t) (concat (map (@data A) ts)).
Proof.
  destruct ts as [|t rest]; simpl; [discriminate|].
  destruct (forallb _ rest) eqn:Hf; [|discriminate].
  intros [= <-]. exists t, rest; repeat split.
  constructor; [reflexivity|].
  apply Forall_forall; intros u Hu.
  rewrite forallb_forall in Hf. apply shape_eqb_eq; auto.
Qed.

(** Indexing a stack gives back the stacked tensors. *)
Lemma select0_stack0 {A} (ts : list (Tensor A)) (T : Tensor A) (i : nat) (u : Tensor A) :
  Forall wf ts ->
  stack0 ts = Ok T ->
  nth_error ts i = Some u ->
  select0 T i = Ok u.
Proof.
  intros Hwf Hst Hi.
  destruct (stack0_inv _ Hst) as (t & rest & Hts & Hsh & ->).
  unfold select0; simpl.
  assert (Hlt : i < length ts) by (apply nth_error_Some; congruence).
  apply Nat.ltb_lt in Hlt; rewrite Hlt.
  assert (Hu : shape u = shape t).
  { rewrite Forall_forall in Hsh. apply Hsh. eapply nth_error_In; eauto. }
  f_equal. destruct u as [su du]; simpl in *; subst su. f_equal.
  apply chunk_concat.
  - apply Forall_forall; intros l Hl.
    apply in_map_iff in Hl as (v & <- & Hv).
    rewrite Forall_forall in Hwf, Hsh.
    rewrite (Hwf v Hv). f_equal. auto.
  - rewrite nth_error_map, Hi. reflexivity.
Qed.

Lemma select0_stack0_out {A} (ts : list (Tensor A)) (T : Tensor A) (i : nat) :
  stack0 ts = Ok T -> length ts <= i -> select0 T i = Raise IndexError.
Proof.
  intros Hst Hi.
  destruct (stack0_inv _ Hst) as (t & rest & Hts & Hsh & ->).
  unfold select0; simpl.
  apply Nat.ltb_ge in Hi. rewrite Hi. reflexivity.
Qed.

Lemma select0_wf {A} (t u : Tensor A) i :
  wf t -> select0 t i = Ok u ->
  wf u /\ exists n, shape t = n :: shape u /\ i < n.
Proof.
  unfold select0, wf. intros Hwf.
  destruct (shape t) as [|n s] eqn:Hs; [discriminate|].
  destruct (i <? n) eqn:Hlt; [|discriminate].
  intros [= <-]; simpl. apply Nat.ltb_lt in Hlt. split.
  - apply chunk_length. rewrite Hwf. simpl. nia.
  - exists n; auto.
Qed.

Lemma select0_in_range {A} (t : Tensor A) n s i :
  shape t = n :: s -> i < n ->
  select0 t i = Ok (mkTensor s (chunk (numel s) i (data t))).
Proof.
  intros Hs Hi; unfold select0; rewrite Hs.
  apply Nat.ltb_lt in Hi; rewrite Hi; reflexivity.
Qed.

(** ** What the notebook relies on from the framework

    A linear layer whose parameter tensors have the shapes its
    constructor gave them maps a tensor whose last dimension is
    [in_features] to one whose last dimension is [out_features].  A LIF
    layer accepts a membrane potential that is either fresh from
    [init_leaky] or has the shape of the input current, and returns
    spikes and a membrane potential of that shape. *)

Hypothesis linear_contract : forall l x pre,
  Linear_ok l -> wf x -> shape x = pre ++ [in_features l] ->
  exists y, linear_forward l x = Ok y /\ wf y /\ shape y = pre ++ [out_features l].

Hypothesis leaky_contract : forall l cur mem,
  wf cur ->
  mem = init_leaky l \/ (wf mem /\ shape mem = shape cur) ->
  exists spk mem',
    leaky_forward l cur mem = Ok (spk, mem') /\
    wf spk /\ shape spk = shape cur /\ wf mem' /\ shape mem' = shape cur.

(** *** The time loop of [forward] *)

Lemma forward_init_ok self pre : state_ok self pre (forward_init self).
Proof.
  unfold state_ok, forward_init, mem_ok, rec_ok; simpl.
  repeat split; auto.
Qed.

Lemma rec_ok_snoc s ts u : rec_ok s ts -> wf u -> shape u = s -> rec_ok s (ts ++ [u]).
Proof.
  intros H Hw Hs; unfold rec_ok; apply Forall_app; split; auto.
Qed.

Lemma forward_step_ok self x T pre st step :
  Net_ok self -> wf x -> shape x = T :: pre ++ [in_features (fc1 self)] ->
  step < T -> state_ok self pre st ->
  exists st', forward_step self x st step = Ok st'
    /\ state_ok self pre st'
    /\ length (spk3_rec st') = S (length (spk3_rec st))
    /\ length (mem3_rec st') = S (length (mem3_rec st)).
Proof.
  intros (L1 & L2 & L3 & E12 & E23) Hwf Hsh Hlt (M1 & M2 & M3 & R1 & R2).
  unfold forward_step.
  rewrite (select0_in_range x Hsh Hlt); simpl.
  set (xs := mkTensor _ _).
  assert (Hxs : wf xs).
  { eapply select0_wf; [exact Hwf|]. apply (select0_in_range x Hsh Hlt). }
  destruct (linear_contract pre L1 Hxs eq_refl) as (cur1 & -> & W1 & S1); simpl.
  destruct (@leaky_contract (lif1 self) cur1 (mem1 st) W1) as (spk1 & m1 & -> & Ws1 & Ss1 & Wm1 & Sm1).
  { destruct M1 as [->|[? ?]]; [left; reflexivity | right; split; congruence]. }
  simpl.
  assert (Hs1 : shape spk1 = pre ++ [in_features (fc2 self)]) by congruence.
  destruct (linear_contract _ L2 Ws1 Hs1) as (cur2 & -> & W2 & S2); simpl.
  destruct (@leaky_contract (lif2 self) cur2 (mem2 st) W2) as (spk2 & m2 & -> & Ws2 & Ss2 & Wm2 & Sm2).
  { destruct M2 as [->|[? ?]]; [left; reflexivity | right; split; congruence]. }
  simpl.
  assert (Hs2 : shape spk2 = pre ++ [in_features (fc3 self)]) by congruence.
  destruct (linear_contract _ L3 Ws2 Hs2) as (cur3 & -> & W3 & S3); simpl.
  destruct (@leaky_contract (lif3 self) cur3 (mem3 st) W3) as (spk3 & m3 & -> & Ws3 & Ss3 & Wm3 & Sm3).
  { destruct M3 as [->|[? ?]]; [left; reflexivity | right; split; congruence]. }
  simpl. eexists; split; [reflexivity|]; simpl.
  split; [|rewrite !length_app; simpl; lia].
  unfold state_ok, mem_ok; simpl.
  repeat split; try (right; split; congruence);
    apply rec_ok_snoc; auto; congruence.
Qed.

Lemma forward_loop_ok self x T pre :
  Net_ok self -> wf x -> shape x = T :: pre ++ [in_features (fc1 self)] ->
  forall steps st, Forall (fun i => i < T) steps -> state_ok self pre st ->
  exists st', rfold (forward_step self x) steps st = Ok st'
    /\ state_ok self pre st'
    /\ length (spk3_rec st') = length (spk3_rec st) + length steps
    /\ length (mem3_rec st') = length (mem3_rec st) + length steps.
Proof.
  intros Hnet Hwf Hsh steps; induction steps as [|i steps IH]; intros st Hall Hst.
  - exists st; simpl; split; [reflexivity | split; [assumption | lia]].
  - inversion Hall as [|? ? Hi Hall']; subst.
    destruct (forward_step_ok Hnet Hwf Hsh Hi Hst) as (st1 & E1 & Hst1 & Ls & Lm).
    destruct (IH st1 Hall' Hst1) as (st' & E' & Hst' & Ls' & Lm').
    exists st'; simpl; rewrite E1; simpl.
    split; [assumption | split; [assumption | lia]].
Qed.

Lemma seq_below a n : Forall (fun i => i < a + n) (seq a n).
Proof.
  apply Forall_forall; intros i Hi; apply in_seq in Hi; lia.
Qed.

Lemma rec_ok_numel s ts :
  rec_ok s ts -> length (concat (map (@data R) ts)) = length ts * numel s.
Proof.
  induction 1 as [|u us [Wu Su] _ IH]; simpl; [reflexivity|].
  rewrite length_app, IH, Wu, Su. reflexivity.
Qed.

Lemma rec_ok_stack s ts :
  rec_ok s ts -> 0 < length ts ->
  exists T, stack0 ts = Ok T /\ wf T /\ shape T = length ts :: s.
Proof.
  intros H Hlen. destruct ts as [|t rest]; [simpl in Hlen; lia|].
  pose proof (rec_ok_numel H) as Hn.
  inversion H as [|? ? [Wt St] Hrest]; subst.
  eexists; split; [apply stack0_ok | split].
  - apply Forall_forall; intros u Hu. rewrite Forall_forall in Hrest.
    destruct (Hrest u Hu); congruence.
  - unfold wf; simpl in *. rewrite Hn. reflexivity.
  - reflexivity.
Qed.

Lemma Net_forward_ok steps self x T pre :
  0 < steps -> steps <= T ->
  Net_ok self -> wf x -> shape x = T :: pre ++ [in_features (fc1 self)] ->
  exists st spk mem,
    rfold (forward_step self x) (seq 0 steps) (forward_init self) = Ok st
    /\ length (spk3_rec st) = steps /\ length (mem3_rec st) = steps
    /\ rec_ok (pre ++ [out_features (fc3 self)]) (mem3_rec st)
    /\ stack0 (spk3_rec st) = Ok spk /\ stack0 (mem3_rec st) = Ok mem
    /\ Net_forward steps self x = Ok (spk, mem)
    /\ wf spk /\ shape spk = steps :: pre ++ [out_features (fc3 self)]
    /\ wf mem /\ shape mem = steps :: pre ++ [out_features (fc3 self)].
Proof.
  intros Hpos Hle Hnet Hwf Hsh.
  assert (Hall : Forall (fun i => i < T) (seq 0 steps)).
  { eapply Forall_impl; [|apply seq_below]. simpl; intros; lia. }
  destruct (forward_loop_ok Hnet Hwf Hsh Hall (forward_init_ok self pre))
    as (st & Est & (_ & _ & _ & Rs & Rm) & Ls & Lm).
  rewrite length_seq in Ls, Lm; simpl in Ls, Lm.
  destruct (rec_ok_stack Rs) as (spk & Es & Ws & Ss); [lia|].
  destruct (rec_ok_stack Rm) as (mem & Em & Wm & Sm); [lia|].
  exists st, spk, mem. unfold Net_forward. rewrite Est; simpl.
  rewrite Es, Em; simpl. rewrite Ls in Ss. rewrite Lm in Sm.
  repeat split; auto.
Qed.

(** The loop reads [x] through [x[step]] only. *)
Lemma forward_loop_ext self x x' steps :
  (forall i, In i steps -> select0 x i = select0 x' i) ->
  forall st, rfold (forward_step self x) steps st = rfold (forward_step self x') steps st.
Proof.
  induction steps as [|i steps IH]; intros H st; simpl; [reflexivity|].
  assert (E : forward_step self x st i = forward_step self x' st i).
  { unfold forward_step. rewrite (H i); [reflexivity | left; reflexivity]. }
  rewrite E. destruct (forward_step self x' st i); simpl; [|reflexivity].
  apply IH. intros j Hj; apply H; right; exact Hj.
Qed.

(** *** The recurrence and the time loop *)

Lemma forward_step_update self x st step st' :
  forward_step self x st step = Ok st' ->
  exists xs spk3,
    select0 x step = Ok xs
    /\ lif_update self xs (mem1 st, mem2 st, mem3 st)
       = Ok (mem1 st', mem2 st', mem3 st', spk3, mem3 st')
    /\ spk3_rec st' = spk3_rec st ++ [spk3]
    /\ mem3_rec st' = mem3_rec st ++ [mem3 st'].
Proof.
  unfold forward_step.
  destruct (select0 x step) as [xs|]; simpl; [|discriminate].
  destruct (linear_forward (fc1 self) xs) as [cur1|] eqn:E1; simpl; [|discriminate].
  destruct (leaky_forward (lif1 self) cur1 (mem1 st)) as [[spk1 m1]|] eqn:F1; simpl; [|discriminate].
  destruct (linear_forward (fc2 self) spk1) as [cur2|] eqn:E2; simpl; [|discriminate].
  destruct (leaky_forward (lif2 self) cur2 (mem2 st)) as [[spk2 m2]|] eqn:F2; simpl; [|discriminate].
  destruct (linear_forward (fc3 self) spk2) as [cur3|] eqn:E3; simpl; [|discriminate].
  destruct (leaky_forward (lif3 self) cur3 (mem3 st)) as [[spk3 m3]|] eqn:F3; simpl; [|discriminate].
  intros [= <-]; simpl. exists xs, spk3.
  unfold lif_update. rewrite E1; simpl. rewrite F1; simpl. rewrite E2; simpl.
  rewrite F2; simpl. rewrite E3; simpl. rewrite F3; simpl.
  repeat split; reflexivity.
Qed.

Lemma rfold_snoc_inv {A B} (f : A -> B -> Result A) l b a a' :
  rfold f (l ++ [b]) a = Ok a' ->
  exists a0, rfold f l a = Ok a0 /\ f a0 b = Ok a'.
Proof.
  rewrite rfold_app. destruct (rfold f l a) as [a0|]; simpl; [|discriminate].
  destruct (f a0 b) as [a1|] eqn:E; simpl; [|discriminate].
  intros [= <-]. exists a0; auto.
Qed.

Lemma forward_loop_membranes self x steps st :
  rfold (forward_step self x) (seq 0 steps) (forward_init self) = Ok st ->
  membranes_at self x steps = Ok (mem1 st, mem2 st, mem3 st)
  /\ length (mem3_rec st) = steps
  /\ length (spk3_rec st) = steps
  /\ forall t, t < steps ->
       exists m1 m2 m3,
         membranes_at self x (S t) = Ok (m1, m2, m3)
         /\ nth_error (mem3_rec st) t = Some m3.
Proof.
  revert st; induction steps as [|n IH]; intros st.
  - simpl. intros [= <-]; simpl. repeat split; auto. intros t Ht; lia.
  - rewrite seq_S; simpl. intros H.
    destruct (rfold_snoc_inv _ _ _ _ H) as (st0 & H0 & Hstep).
    destruct (IH st0 H0) as (Hm & Lm & Ls & Hrec).
    destruct (forward_step_update _ _ _ _ Hstep) as (xs & spk3 & Exs & Eup & Es & Em).
    assert (Hnext : membranes_at self x (S n) = Ok (mem1 st, mem2 st, mem3 st)).
    { cbn [membranes_at]. rewrite Hm; cbn [rbind]. rewrite Exs; cbn [rbind].
      rewrite Eup; reflexivity. }
    split; [exact Hnext|].
    split; [rewrite Em, length_app; simpl; lia|].
    split; [rewrite Es, length_app; simpl; lia|].
    intros t Ht. destruct (Nat.eq_dec t n) as [->|Hne].
    + exists (mem1 st), (mem2 st), (mem3 st). split; [exact Hnext|].
      rewrite Em, nth_error_app2 by lia. rewrite Lm, Nat.sub_diag. reflexivity.
    + destruct (Hrec t) as (m1 & m2 & m3 & E & Hn); [lia|].
      exists m1, m2, m3; split; [exact E|].
      rewrite Em, nth_error_app1 by lia. exact Hn.
Qed.

(** *** Encoders, loss and batches *)

Hypothesis latency_contract : forall dat n,
  wf dat ->
  exists y, spikegen_latency dat n = Ok y /\ wf y /\ shape y = n :: shape dat.

Hypothesis rate_contract : forall g dat n,
  wf dat ->
  exists y g', spikegen_rate g dat n = (Ok y, g') /\ wf y /\ shape y = n :: shape dat.

Hypothesis CE_contract : forall m (targets : labels) B C,
  wf m -> shape m = [B; C] ->
  wf targets -> shape targets = [B] ->
  Forall (fun c => c < C) (data targets) ->
  exists v, CE_loss m targets = Ok v.

Lemma view3_ok {A} (y : Tensor A) n B rest :
  0 < n -> 0 < B -> wf y -> shape y = n :: B :: rest ->
  view3 y n B = Ok (mkTensor [n; B; numel rest] (data y))
  /\ wf (mkTensor [n; B; numel rest] (data y)).
Proof.
  intros Hn HB Hwf Hsh. unfold view3, wf in *. rewrite Hsh in *. simpl in *.
  assert (E : n * (B * numel rest) = numel rest * (n * B)) by lia.
  assert (Hnz : n * B <> 0) by nia.
  apply Nat.eqb_neq in Hnz as Hz. rewrite Hz.
  rewrite E, Nat.Div0.mod_mul, Nat.div_mul by assumption. simpl.
  split; [reflexivity|]. rewrite Hwf. lia.
Qed.

Lemma iadd_scalar_fold cs (v : R) :
  fold_left iadd_scalar cs (mkTensor [1] [v]) = mkTensor [1] [fold_left add cs v].
Proof.
  revert v; induction cs as [|c cs IH]; intros v; simpl; [reflexivity|].
  unfold iadd_scalar at 2; simpl. apply IH.
Qed.

Lemma loss_loop_ok (mem_rec : tensor) (targets : labels) B C :
  wf targets -> shape targets = [B] ->
  Forall (fun c => c < C) (data targets) ->
  forall ms k acc,
    rec_ok [B; C] ms ->
    (forall j m, nth_error ms j = Some m -> select0 mem_rec (k + j) = Ok m) ->
    exists cs,
      Forall2 (fun m c => CE_loss m targets = Ok c) ms cs
      /\ rfold (loss_step mem_rec targets) (seq k (length ms)) acc
         = Ok (fold_left iadd_scalar cs acc).
Proof.
  intros Wt St Lt ms; induction ms as [|m ms IH]; intros k acc Hrec Hsel.
  - exists []; split; [constructor | reflexivity].
  - inversion Hrec as [|? ? [Wm Sm] Hrec']; subst.
    destruct (CE_contract Wm Sm Wt St Lt) as (c & Ec).
    destruct (IH (S k) (iadd_scalar acc c) Hrec') as (cs & Hcs & Hfold).
    { intros j m' Hj. replace (S k + j) with (k + S j) by lia. apply Hsel; exact Hj. }
    exists (c :: cs); split; [constructor; assumption|].
    simpl. unfold loss_step at 1.
    assert (E0 : select0 mem_rec k = Ok m).
    { replace k with (k + 0) by lia. apply Hsel; reflexivity. }
    rewrite E0; simpl. rewrite Ec; simpl. exact Hfold.
Qed.

Lemma accumulate_loss_ok steps (mems : list tensor) (mem_rec : tensor) (targets : labels) B C :
  wf targets -> shape targets = [B] ->
  Forall (fun c => c < C) (data targets) ->
  rec_ok [B; C] mems -> length mems = steps ->
  stack0 mems = Ok mem_rec ->
  exists cs,
    Forall2 (fun m c => CE_loss m targets = Ok c) mems cs
    /\ accumulate_loss steps mem_rec targets = Ok (mkTensor [1] [fold_left add cs zero]).
Proof.
  intros Wt St Lt Hrec Hlen Hst.
  destruct (@loss_loop_ok mem_rec targets B C Wt St Lt mems 0 zeros1 Hrec) as (cs & Hcs & Hfold).
  { intros j m Hj; simpl.
    apply (@select0_stack0 R mems mem_rec j m); [|exact Hst|exact Hj].
    eapply Forall_impl; [|exact Hrec]. simpl; intros u [Hu _]; exact Hu. }
  exists cs; split; [exact Hcs|].
  unfold accumulate_loss. rewrite <- Hlen, Hfold.
  unfold zeros1. rewrite iadd_scalar_fold. reflexivity.
Qed.

(** *** Running a cell *)

Lemma bind_ok {A B} (c : M A) (k : A -> M B) w a w' :
  c w = (Ok a, w') -> bind c k w = k a w'.
Proof. intros H; unfold bind; rewrite H; reflexivity. Qed.

Lemma bind_raise {A B} (c : M A) (k : A -> M B) w e w' :
  c w = (Raise e, w') -> bind c k w = (Raise e, w').
Proof. intros H; unfold bind; rewrite H; reflexivity. Qed.

Lemma lift_ok {A} (r : Result A) a w : r = Ok a -> lift r w = (Ok a, w).
Proof. intros ->; reflexivity. Qed.

Lemma loss_left_ok mem_rec targets l : forall acc v,
  rfold (loss_step mem_rec targets) l acc = Ok v ->
  loss_left mem_rec targets l acc = v.
Proof.
  induction l as [|step l IH]; intros acc v H; simpl in *.
  - congruence.
  - destruct (loss_step mem_rec targets acc step) as [a|e]; simpl in H;
      [apply IH; exact H | discriminate].
Qed.

Lemma loss_steps_run mem_rec targets l : forall acc w,
  mfold (fun loss_val step =>
           bind (lift (loss_step mem_rec targets loss_val step))
             (fun a => bind (modify (set_loss_val (Some a))) (fun _ => ret a)))
        l acc (set_loss_val (Some acc) w)
  = (rfold (loss_step mem_rec targets) l acc,
     set_loss_val (Some (loss_left mem_rec targets l acc)) w).
Proof.
  induction l as [|step l IH]; intros acc w; [reflexivity|].
  cbn [mfold rfold loss_left]. unfold bind at 1. unfold bind at 1. unfold lift at 1.
  destruct (loss_step mem_rec targets acc step) as [a|e]; [|reflexivity].
  cbn [rbind]. unfold bind at 1, modify at 1, ret at 1.
  exact (IH a w).
Qed.

(** The loss loop returns what [accumulate_loss] computes, and changes
    the binding of [loss_val] only. *)
Lemma loss_loop_run steps mem_rec targets w :
  loss_loop steps mem_rec targets w
  = (accumulate_loss steps mem_rec targets,
     set_loss_val (Some (loss_left mem_rec targets (seq 0 steps) zeros1)) w).
Proof.
  unfold loss_loop. unfold bind at 1, modify at 1.
  apply loss_steps_run.
Qed.

Lemma loss_loop_ok_run steps mem_rec targets w v :
  accumulate_loss steps mem_rec targets = Ok v ->
  loss_loop steps mem_rec targets w = (Ok v, set_loss_val (Some v) w).
Proof.
  intros H. rewrite loss_loop_run, H.
  rewrite (loss_left_ok _ _ _ _ H). reflexivity.
Qed.

Lemma latency_run dat n y w :
  spikegen_latency dat n = Ok y -> latency dat n w = (Ok y, log (EvLatency dat n) w).
Proof. intros H; unfold latency, bind, modify, lift; simpl. rewrite H; reflexivity. Qed.

Lemma rate_run dat n y g w :
  spikegen_rate (w_rng w) dat n = (Ok y, g) ->
  rate dat n w = (Ok y, set_rng g (log (EvRate dat n) w)).
Proof. intros H; unfold rate, bind, modify; simpl. rewrite H; reflexivity. Qed.

Lemma call_net_run x w :
  call_net x w = (forward (w_net w) x, log (EvForward x) w).
Proof. reflexivity. Qed.

Lemma load_parameters_same self : load_parameters self (parameters self) = self.
Proof.
  destruct self as [[] ? [] ? [] ? ?]; reflexivity.
Qed.

Lemma train_batch_run prev dat targets w raw n spike_data outputs mem_rec loss_val v :
  spikegen_latency dat num_steps = Ok raw ->
  size0 dat = Ok n ->
  view3 raw num_steps n = Ok spike_data ->
  forward (w_net w) spike_data = Ok (outputs, mem_rec) ->
  accumulate_loss num_steps mem_rec targets = Ok loss_val ->
  item loss_val = Ok v ->
  train_batch prev (dat, targets) w
  = (Ok (Some loss_val),
     after_step (log (EvLatency dat num_steps) w) spike_data targets v loss_val).
Proof.
  intros H1 H2 H3 H4 H5 H6. unfold train_batch.
  erewrite bind_ok by (apply latency_run; exact H1).
  erewrite bind_ok by (apply lift_ok; exact H2).
  erewrite bind_ok by (apply lift_ok; exact H3).
  erewrite bind_ok by reflexivity.
  erewrite bind_ok by (rewrite call_net_run; cbn [w_net log set_grads];
                       rewrite H4; reflexivity).
  cbv beta iota.
  erewrite bind_ok by (apply loss_loop_ok_run; exact H5).
  erewrite bind_ok by (apply lift_ok; exact H6).
  unfold backward, optimizer_step, after_step.
  unfold bind, modify, gets, lift, ret; simpl.
  destruct (adam_step _ _ _ _); reflexivity.
Qed.

Lemma after_step_trace w spike_data targets v loss_val :
  w_trace (after_step w spike_data targets v loss_val)
  = w_trace w ++ [EvZeroGrad; EvForward spike_data; EvBackward loss_val;
                  EvStep optimizer_cfg].
Proof.
  unfold after_step; simpl. destruct (adam_step _ _ _ _); simpl.
  rewrite <- !app_assoc. reflexivity.
Qed.

Lemma after_step_grads w spike_data targets v loss_val :
  w_grads (after_step w spike_data targets v loss_val)
  = accumulate_all (map (fun _ => None) (w_grads w))
      (autograd (loss_fn (w_net w) spike_data targets) (parameters (w_net w))).
Proof.
  unfold after_step; simpl. destruct (adam_step _ _ _ _); reflexivity.
Qed.

Lemma after_step_net w spike_data targets v loss_val :
  w_net (after_step w spike_data targets v loss_val)
  = load_parameters (w_net w)
      (fst (adam_step optimizer_cfg (w_opt w) (parameters (w_net w))
              (w_grads (after_step w spike_data targets v loss_val)))).
Proof.
  rewrite after_step_grads.
  unfold after_step; simpl. destruct (adam_step _ _ _ _); reflexivity.
Qed.

Lemma after_step_rest w spike_data targets v loss_val :
  w_rng (after_step w spike_data targets v loss_val) = w_rng w
  /\ w_grad_enabled (after_step w spike_data targets v loss_val) = w_grad_enabled w
  /\ w_loss_hist (after_step w spike_data targets v loss_val) = w_loss_hist w ++ [v].
Proof.
  unfold after_step; simpl. destruct (adam_step _ _ _ _); simpl. auto.
Qed.

Lemma after_step_loss_val w spike_data targets v loss_val :
  w_loss_val (after_step w spike_data targets v loss_val) = Some loss_val
  /\ w_opt (after_step w spike_data targets v loss_val)
     = snd (adam_step optimizer_cfg (w_opt w) (parameters (w_net w))
              (w_grads (after_step w spike_data targets v loss_val))).
Proof.
  rewrite after_step_grads.
  unfold after_step; simpl. destruct (adam_step _ _ _ _); simpl. auto.
Qed.

Lemma num_steps_pos : 0 < num_steps.
Proof. unfold num_steps; lia. Qed.

(** A training batch on a well-formed net and batch: every step of the
    body succeeds, with these intermediate values. *)
Lemma train_batch_ok prev b w :
  Net_ok (w_net w) -> batch_fits (w_net w) b ->
  exists raw B spike_data outputs mem_rec mems cs,
    spikegen_latency (fst b) num_steps = Ok raw
    /\ size0 (fst b) = Ok B
    /\ view3 raw num_steps B = Ok spike_data
    /\ forward (w_net w) spike_data = Ok (outputs, mem_rec)
    /\ stack0 mems = Ok mem_rec /\ length mems = num_steps /\ Forall wf mems
    /\ Forall2 (fun m c => CE_loss m (snd b) = Ok c) mems cs
    /\ train_batch prev b w
       = (Ok (Some (mkTensor [1] [fold_left add cs zero])),
          after_step (log (EvLatency (fst b) num_steps) w) spike_data (snd b)
            (fold_left add cs zero) (mkTensor [1] [fold_left add cs zero])).
Proof.
  intros Hnet (Wd & Wt & B & rest & HB & Sd & Hrest & St & Hlab).
  destruct b as [dat targets]; simpl in *.
  destruct (latency_contract num_steps Wd) as (raw & Eraw & Wraw & Sraw).
  rewrite Sd in Sraw.
  destruct (view3_ok num_steps_pos HB Wraw Sraw) as (Eview & Wview).
  set (spike_data := mkTensor [num_steps; B; numel rest] (data raw)) in *.
  assert (Ssd : shape spike_data = num_steps :: [B] ++ [in_features (fc1 (w_net w))]).
  { simpl. rewrite Hrest. reflexivity. }
  destruct (Net_forward_ok [B] num_steps_pos (le_n _) Hnet Wview Ssd)
    as (st & spk & mem & _ & _ & Lm & Rm & _ & Em & Efw & _ & _ & _ & _).
  destruct (accumulate_loss_ok (steps := num_steps) Wt St Hlab Rm Lm Em) as (cs & Hcs & Eacc).
  exists raw, B, spike_data, spk, mem, (mem3_rec st), cs.
  assert (Esz : size0 dat = Ok B) by (unfold size0; rewrite Sd; reflexivity).
  repeat split; auto.
  - eapply Forall_impl; [|exact Rm]. simpl; intros u [Hu _]; exact Hu.
  - apply (train_batch_run prev targets w Eraw Esz Eview Efw Eacc). reflexivity.
Qed.

(** *** Summing over time and taking the arg-max *)

Lemma vadd_length a b : length a = length b -> length (vadd a b) = length a.
Proof.
  intros H; unfold vadd. rewrite length_map, length_combine. lia.
Qed.

Lemma nth_vadd a b i :
  length a = length b -> i < length a ->
  nth i (vadd a b) zero = add (nth i a zero) (nth i b zero).
Proof.
  intros Hlen Hi; unfold vadd.
  rewrite (nth_indep _ zero (add (fst (zero, zero)) (snd (zero, zero))))
    by (rewrite length_map, length_combine; lia).
  rewrite (map_nth (fun p => add (fst p) (snd p)) (combine a b) (zero, zero)).
  rewrite combine_nth by assumption. reflexivity.
Qed.

Lemma fold_vadd_nth k cks : 
  Forall (fun ck : list R => length ck = k) cks ->
  forall acc i, length acc = k -> i < k ->
  length (fold_left vadd cks acc) = k
  /\ nth i (fold_left vadd cks acc) zero
     = fold_left add (map (fun ck => nth i ck zero) cks) (nth i acc zero).
Proof.
  induction 1 as [|ck cks Hck _ IH]; intros acc i Hacc Hi; simpl; [auto|].
  destruct (IH (vadd acc ck) i) as [Hl Hn]; [rewrite vadd_length; lia | exact Hi |].
  split; [exact Hl|]. rewrite Hn, nth_vadd by lia. reflexivity.
Qed.

Lemma nth_chunk {A} k t (l : list A) i d :
  i < k -> nth i (chunk k t l) d = nth (t * k + i) l d.
Proof.
  intros Hi; unfold chunk. rewrite nth_firstn.
  apply Nat.ltb_lt in Hi; rewrite Hi. apply nth_skipn.
Qed.

Lemma sum0_ok (t : tensor) n s :
  wf t -> shape t = n :: s ->
  exists d,
    sum0 t = Ok (mkTensor s d) /\ length d = numel s
    /\ forall i, i < numel s ->
         nth i d zero
         = fold_left add
             (map (fun j => nth (j * numel s + i) (data t) zero) (seq 0 n)) zero.
Proof.
  intros Hwf Hsh. unfold sum0; rewrite Hsh.
  eexists; split; [reflexivity|].
  assert (Hall : Forall (fun ck : list R => length ck = numel s)
                   (map (fun i => chunk (numel s) i (data t)) (seq 0 n))).
  { apply Forall_forall; intros ck Hck.
    apply in_map_iff in Hck as (j & <- & Hj). apply in_seq in Hj.
    apply chunk_length. unfold wf in Hwf; rewrite Hwf, Hsh; simpl. nia. }
  split.
  - destruct (Nat.eq_dec (numel s) 0) as [E0|Hne].
    + clear Hall. rewrite E0; simpl.
      induction (seq 0 n) as [|j l IH]; simpl; auto.
    + apply (fold_vadd_nth Hall (repeat zero (numel s)) (i := 0)).
      * apply repeat_length.
      * lia.
  - intros i Hi.
    destruct (fold_vadd_nth Hall (repeat zero (numel s)) (repeat_length _ _) Hi) as [_ ->].
    rewrite nth_repeat, map_map. f_equal.
    apply map_ext; intros j. apply nth_chunk; exact Hi.
Qed.

Lemma flat_map_singleton {A B} (f : A -> B) l : flat_map (fun a => [f a]) l = map f l.
Proof. induction l; simpl; congruence. Qed.

(** [outputs.sum(dim=0).max(1)] computes the predicted classes. *)
Lemma prediction_refines (outputs : tensor) n B C :
  wf outputs -> shape outputs = [n; B; C] -> 0 < C ->
  exists s,
    sum0 outputs = Ok s
    /\ max1_indices s
       = Ok (mkTensor [B] (map (predicted_class outputs n B C) (seq 0 B))).
Proof.
  intros Hwf Hsh HC.
  destruct (sum0_ok Hwf Hsh) as (d & Es & Hlen & Hnth).
  eexists; split; [exact Es|].
  unfold max1_indices; cbn [shape numel fold_right].
  assert (HC' : (C =? 0) = false) by (apply Nat.eqb_neq; lia).
  rewrite HC'. f_equal. f_equal.
  change (seq 0 1) with [0]. cbn [map].
  rewrite (flat_map_singleton
    (fun i => argmax (map (fun j => nth ((i * C + j) * 1 + 0) d zero) (seq 0 C)))).
  apply map_ext_in; intros b Hb. apply in_seq in Hb.
  unfold predicted_class. f_equal.
  apply map_ext_in; intros c Hc. apply in_seq in Hc.
  cbn [data]. rewrite Hnth by (cbn [numel fold_right]; nia).
  unfold spike_count. f_equal.
  apply map_ext; intros t. f_equal. cbn [numel fold_right]. ring.
Qed.

Lemma count_eq_le l1 l2 : count_eq l1 l2 <= length l2.
Proof.
  unfold count_eq.
  eapply Nat.le_trans; [apply filter_length_le|].
  rewrite length_combine. lia.
Qed.

(** *** Broadcasting *)

Lemma chunk_succ {A} k i (l : list A) : chunk k (S i) l = chunk k i (skipn k l).
Proof.
  unfold chunk. rewrite skipn_skipn. f_equal. f_equal. lia.
Qed.

Lemma chunks_concat {A} k d : forall l : list A,
  length l = d * k ->
  concat (map (fun i => chunk k i l) (seq 0 d)) = l.
Proof.
  induction d as [|d IH]; intros l Hl.
  - destruct l; [reflexivity | discriminate].
  - cbn [seq map concat]. rewrite <- seq_shift, map_map.
    rewrite (map_ext _ (fun i => chunk k i (skipn k l)))
      by (intros i; apply chunk_succ).
    rewrite IH by (rewrite length_skipn; lia).
    unfold chunk. cbn [Nat.mul skipn]. apply firstn_skipn.
Qed.

Lemma expand_same {A} s : forall l : list A,
  length l = numel s -> expand s s l = l.
Proof.
  induction s as [|d s IH]; intros l Hl; [reflexivity|].
  cbn [expand]. rewrite Nat.eqb_refl.
  cbn [numel fold_right] in Hl. fold (numel s) in Hl.
  rewrite (map_ext_in _ (fun i => chunk (numel s) i l)).
  - apply chunks_concat. exact Hl.
  - intros i Hi. apply in_seq in Hi. apply IH.
    apply chunk_length. nia.
Qed.

Lemma broadcast_rev_same s : broadcast_rev s s = Some s.
Proof.
  induction s as [|a s IH]; [reflexivity|].
  cbn [broadcast_rev]. rewrite IH, Nat.eqb_refl. reflexivity.
Qed.

Lemma broadcast_shapes_same s : broadcast_shapes s s = Some s.
Proof.
  unfold broadcast_shapes. rewrite broadcast_rev_same. cbn [option_map].
  rewrite rev_involutive. reflexivity.
Qed.

Lemma broadcast_to_same {A} (t : Tensor A) : wf t -> broadcast_to t (shape t) = data t.
Proof.
  intros H. unfold broadcast_to. rewrite Nat.sub_diag. cbn [repeat app].
  apply expand_same. exact H.
Qed.

(** Two tensors of one shape are compared element by element. *)
Lemma eq_sum_same (a b : labels) :
  wf a -> wf b -> shape a = shape b ->
  eq_sum a b = Ok (count_eq (data a) (data b)).
Proof.
  intros Wa Wb H; unfold eq_sum. rewrite H, broadcast_shapes_same.
  rewrite <- H at 1. rewrite !broadcast_to_same by assumption. reflexivity.
Qed.

(** *** The arg-max, for a comparison that is a strict weak order *)

Section ArgMax.

Hypothesis ltb_irrefl : forall a, ltb a a = false.
Hypothesis ltb_trans : forall a b c, ltb a b = true -> ltb b c = true -> ltb a c = true.
Hypothesis ltb_cotrans : forall a b c,
  ltb a b = true -> ltb a c = true \/ ltb c b = true.

Lemma argmax_from_spec l : forall pre bi best i,
  length pre = i -> bi < i -> nth bi pre zero = best ->
  (forall j, j < i -> ltb best (nth j pre zero) = false) ->
  (forall j, j < bi -> ltb (nth j pre zero) best = true) ->
  let r := argmax_from bi best i l in
  r < i + length l
  /\ (forall j, j < i + length l ->
        ltb (nth r (pre ++ l) zero) (nth j (pre ++ l) zero) = false)
  /\ (forall j, j < r -> ltb (nth j (pre ++ l) zero) (nth r (pre ++ l) zero) = true).
Proof.
  induction l as [|v l IH]; intros pre bi best i Hlen Hbi Hbest Hmax Hfirst; simpl.
  - rewrite app_nil_r, Nat.add_0_r, Hbest. repeat split; auto.
  - replace (pre ++ v :: l) with ((pre ++ [v]) ++ l) by (rewrite <- app_assoc; reflexivity).
    replace (i + S (length l)) with (S i + length l) by lia.
    assert (Hv : nth i (pre ++ [v]) zero = v).
    { rewrite app_nth2 by lia. rewrite Hlen, Nat.sub_diag. reflexivity. }
    assert (Hpre : forall j, j < i -> nth j (pre ++ [v]) zero = nth j pre zero).
    { intros j Hj. apply app_nth1. lia. }
    assert (Hlen' : length (pre ++ [v]) = S i) by (rewrite length_app; simpl; lia).
    destruct (ltb best v) eqn:Hlt.
    + apply IH; auto.
      * intros j Hj. destruct (Nat.eq_dec j i) as [->|Hne].
        { rewrite Hv. apply ltb_irrefl. }
        rewrite Hpre by lia.
        destruct (ltb v (nth j pre zero)) eqn:E; [|reflexivity].
        rewrite <- (Hmax j) by lia. symmetry. eapply ltb_trans; eauto.
      * intros j Hj. rewrite Hpre by lia.
        destruct (ltb_cotrans (nth j pre zero) Hlt) as [H|H]; [|exact H].
        rewrite Hmax in H by lia. discriminate.
    + apply IH; auto.
      * rewrite Hpre by lia. exact Hbest.
      * intros j Hj. destruct (Nat.eq_dec j i) as [->|Hne].
        { rewrite Hv. exact Hlt. }
        rewrite Hpre by lia. apply Hmax; lia.
      * intros j Hj. rewrite Hpre by lia. apply Hfirst; exact Hj.
Qed.

(** [argmax l] is the first index of a maximal element of [l]. *)
Lemma argmax_spec l :
  0 < length l ->
  argmax l < length l
  /\ (forall j, j < length l -> ltb (nth (argmax l) l zero) (nth j l zero) = false)
  /\ (forall j, j < argmax l -> ltb (nth j l zero) (nth (argmax l) l zero) = true).
Proof.
  destruct l as [|v l]; simpl; [lia|]. intros _.
  apply (argmax_from_spec l [v] (bi := 0) (best := v) (i := 1)); auto.
  - intros j Hj. replace j with 0 by lia. apply ltb_irrefl.
  - intros j Hj; lia.
Qed.

End ArgMax.

(** *** A test batch *)

Lemma test_batch_run acc dat targets w raw g n spike_data outputs mem s pred c m :
  spikegen_rate (w_rng w) dat num_steps = (Ok raw, g) ->
  size0 dat = Ok n ->
  view3 raw num_steps n = Ok spike_data ->
  forward (w_net w) spike_data = Ok (outputs, mem) ->
  sum0 outputs = Ok s ->
  max1_indices s = Ok pred ->
  eq_sum pred targets = Ok c ->
  size0 targets = Ok m ->
  test_batch acc (dat, targets) w
  = (Ok (fst acc + c, snd acc + m),
     log (EvForward spike_data) (set_rng g (log (EvRate dat num_steps) w))).
Proof.
  intros H1 H2 H3 H4 H5 H6 H7 H8. unfold test_batch. destruct acc as [correct total].
  erewrite bind_ok by (apply rate_run; exact H1).
  erewrite bind_ok by (apply lift_ok; exact H2).
  erewrite bind_ok by (apply lift_ok; exact H3).
  unfold call_net. unfold bind, modify, gets, lift, ret; simpl.
  unfold forward in H4 |- *. rewrite H4, H5, H6, H7, H8. reflexivity.
Qed.

Lemma test_batch_ok acc b w :
  Net_ok (w_net w) -> batch_fits (w_net w) b ->
  exists raw g spike_data outputs mem,
    spikegen_rate (w_rng w) (fst b) num_steps = (Ok raw, g)
    /\ view3 raw num_steps (batch_size b) = Ok spike_data
    /\ forward (w_net w) spike_data = Ok (outputs, mem)
    /\ wf outputs
    /\ shape outputs = [num_steps; batch_size b; out_features (fc3 (w_net w))]
    /\ shape (snd b) = [batch_size b]
    /\ test_batch acc b w
       = (Ok (fst acc
              + count_eq (map (predicted_class outputs num_steps (batch_size b)
                                 (out_features (fc3 (w_net w))))
                              (seq 0 (batch_size b)))
                         (data (snd b)),
              snd acc + batch_size b),
          log (EvForward spike_data)
            (set_rng g (log (EvRate (fst b) num_steps) w))).
Proof.
  intros Hnet (Wd & Wt & B & rest & HB & Sd & Hrest & St & Hlab).
  destruct b as [dat targets]; unfold batch_size; simpl in *. rewrite St.
  destruct (rate_contract (w_rng w) num_steps Wd) as (raw & g & Eraw & Wraw & Sraw).
  rewrite Sd in Sraw.
  destruct (view3_ok num_steps_pos HB Wraw Sraw) as (Eview & Wview).
  set (spike_data := mkTensor [num_steps; B; numel rest] (data raw)) in *.
  assert (Ssd : shape spike_data = num_steps :: [B] ++ [in_features (fc1 (w_net w))]).
  { simpl. rewrite Hrest. reflexivity. }
  destruct (Net_forward_ok [B] num_steps_pos (le_n _) Hnet Wview Ssd)
    as (st & spk & mem & _ & _ & _ & _ & _ & _ & Efw & Wspk & Sspk & _ & _).
  simpl in Sspk.
  assert (HC : 0 < out_features (fc3 (w_net w))).
  { unfold wf in Wt. rewrite St in Wt. simpl in Wt.
    destruct (data targets) as [|c0 cs]; [simpl in Wt; lia|].
    inversion Hlab; lia. }
  destruct (prediction_refines Wspk Sspk HC) as (s & Es & Emax).
  exists raw, g, spike_data, spk, mem.
  assert (Esz : size0 dat = Ok B) by (unfold size0; rewrite Sd; reflexivity).
  assert (Esz' : size0 targets = Ok B) by (unfold size0; rewrite St; reflexivity).
  repeat split; auto.
  apply (test_batch_run acc targets w Eraw Esz Eview Efw Es Emax); [|exact Esz'].
  apply eq_sum_same; [|exact Wt|simpl; congruence].
  unfold wf; cbn [data shape numel fold_right].
  rewrite length_map, length_seq. lia.
Qed.

Lemma test_batches_ok batches : forall acc w,
  Net_ok (w_net w) -> Forall (batch_fits (w_net w)) batches ->
  exists c t w' sds,
    mfold test_batch batches acc w = (Ok (c, t), w')
    /\ fst acc <= c /\ c + snd acc <= t + fst acc
    /\ t = snd acc + list_sum (map batch_size batches)
    /\ w_net w' = w_net w
    /\ length sds = length batches
    /\ w_trace w' = w_trace w ++ concat (map test_events (combine batches sds)).
Proof.
  induction batches as [|b bs IH]; intros acc w Hnet Hall.
  - exists (fst acc), (snd acc), w, []; simpl. destruct acc; simpl.
    rewrite app_nil_r. repeat split; auto; lia.
  - inversion Hall as [|? ? Hb Hbs]; subst.
    destruct (@test_batch_ok acc b w Hnet Hb)
      as (raw & g & sd & outputs & mem & _ & _ & _ & _ & _ & St & Erun).
    set (c1 := count_eq _ _) in Erun.
    assert (Hc1 : c1 <= batch_size b).
    { unfold c1. eapply Nat.le_trans; [apply count_eq_le|].
      destruct Hb as (_ & Wt & _). unfold wf in Wt. rewrite St in Wt.
      simpl in Wt. lia. }
    set (w1 := log _ _) in Erun.
    destruct (IH (fst acc + c1, snd acc + batch_size b) w1)
      as (c & t & w' & sds & E & L1 & L2 & L3 & Hn & Hlen & Htr);
      [exact Hnet | exact Hbs |].
    exists c, t, w', (sd :: sds). cbn [mfold]. erewrite bind_ok by exact Erun.
    simpl in *. repeat split; auto; try lia.
    rewrite Htr, <- !app_assoc. reflexivity.
Qed.

(** *** Parameters: initialisation and the optimizer step

    A parameter is created with the shape asked for, and the optimizer
    updates each parameter tensor in place: it keeps its shape. *)

Hypothesis init_param_contract : forall g s,
  wf (fst (init_param g s)) /\ shape (fst (init_param g s)) = s.

Hypothesis adam_contract : forall cfg o ps gs,
  Forall2 (fun p p' : tensor => wf p -> wf p' /\ shape p' = shape p)
    ps (fst (adam_step cfg o ps gs)).

Lemma same_layout_refl self : same_layout self self.
Proof. unfold same_layout; repeat split. Qed.

Lemma same_layout_trans a b c : same_layout a b -> same_layout b c -> same_layout a c.
Proof.
  unfold same_layout; intros H1 H2.
  decompose [and] H1; decompose [and] H2; repeat split; congruence.
Qed.

Lemma load_parameters_layout self ps : same_layout self (load_parameters self ps).
Proof.
  unfold load_parameters.
  destruct ps as [|w1 [|b1 [|w2 [|b2 [|w3 [|b3 [|? ?]]]]]]];
    try apply same_layout_refl.
  unfold same_layout; simpl; repeat split.
Qed.

Lemma load_parameters_ok self ps :
  Net_ok self ->
  Forall2 (fun p p' : tensor => wf p -> wf p' /\ shape p' = shape p) (parameters self) ps ->
  Net_ok (load_parameters self ps).
Proof.
  intros ((W1 & S1 & Wb1 & Sb1) & (W2 & S2 & Wb2 & Sb2) & (W3 & S3 & Wb3 & Sb3) & E12 & E23) H.
  unfold parameters in H.
  inversion H as [|? w1 ? ps1 P1 H1]; subst. inversion H1 as [|? b1 ? ps2 P2 H2]; subst.
  inversion H2 as [|? w2 ? ps3 P3 H3]; subst. inversion H3 as [|? b2 ? ps4 P4 H4]; subst.
  inversion H4 as [|? w3 ? ps5 P5 H5]; subst. inversion H5 as [|? b3 ? ps6 P6 H6]; subst.
  inversion H6; subst.
  destruct (P1 W1), (P2 Wb1), (P3 W2), (P4 Wb2), (P5 W3), (P6 Wb3).
  unfold Net_ok, Linear_ok; simpl. repeat split; congruence.
Qed.

Lemma Net_init_ok g :
  Net_ok (fst (Net_init g))
  /\ children (fst (Net_init g))
     = [MLinear (fc1 (fst (Net_init g))); MLeaky (mkLeaky beta);
        MLinear (fc2 (fst (Net_init g))); MLeaky (mkLeaky beta);
        MLinear (fc3 (fst (Net_init g))); MLeaky (mkLeaky beta)]
  /\ in_features (fc1 (fst (Net_init g))) = num_inputs
  /\ out_features (fc1 (fst (Net_init g))) = num_hidden
  /\ in_features (fc2 (fst (Net_init g))) = num_hidden
  /\ out_features (fc2 (fst (Net_init g))) = 64
  /\ in_features (fc3 (fst (Net_init g))) = 64
  /\ out_features (fc3 (fst (Net_init g))) = num_outputs.
Proof.
  unfold Net_init, nn_Linear.
  destruct (init_param g [num_hidden; num_inputs]) as [w1 g1] eqn:E1.
  destruct (init_param g1 [num_hidden]) as [b1 g2] eqn:E2.
  destruct (init_param g2 [64; num_hidden]) as [w2 g3] eqn:E3.
  destruct (init_param g3 [64]) as [b2 g4] eqn:E4.
  destruct (init_param g4 [num_outputs; 64]) as [w3 g5] eqn:E5.
  destruct (init_param g5 [num_outputs]) as [b3 g6] eqn:E6.
  pose proof (init_param_contract g [num_hidden; num_inputs]) as [? ?].
  pose proof (init_param_contract g1 [num_hidden]) as [? ?].
  pose proof (init_param_contract g2 [64; num_hidden]) as [? ?].
  pose proof (init_param_contract g3 [64]) as [? ?].
  pose proof (init_param_contract g4 [num_outputs; 64]) as [? ?].
  pose proof (init_param_contract g5 [num_outputs]) as [? ?].
  rewrite E1, E2, E3, E4, E5, E6 in *; simpl in *.
  unfold Net_ok, Linear_ok; simpl. repeat split; auto.
Qed.

(** *** The training loop *)

Lemma train_batches_ok i o batches : forall prev w,
  Net_ok (w_net w) -> Forall (batch_ok i o) batches ->
  in_features (fc1 (w_net w)) = i -> out_features (fc3 (w_net w)) = o ->
  exists last w' infos,
    mfold train_batch batches prev w = (Ok last, w')
    /\ Net_ok (w_net w') /\ same_layout (w_net w) (w_net w')
    /\ w_rng w' = w_rng w /\ w_grad_enabled w' = w_grad_enabled w
    /\ length infos = length batches
    /\ w_trace w' = w_trace w ++ concat (map train_events (combine batches infos))
    /\ length (w_loss_hist w') = length (w_loss_hist w) + length batches
    /\ (batches = [] -> last = prev /\ w_loss_val w' = w_loss_val w)
    /\ (batches <> [] ->
        exists v, last = Some (mkTensor [1] [v]) /\ w_loss_val w' = last).
Proof.
  induction batches as [|b bs IH]; intros prev w Hnet Hall Hi Ho.
  - exists prev, w, []; simpl. rewrite app_nil_r.
    split; [reflexivity|]. split; [exact Hnet|]. split; [apply same_layout_refl|].
    do 4 (split; [reflexivity|]). split; [lia|].
    split; [split; reflexivity|]. intros H; exfalso; apply H; reflexivity.
  - inversion Hall as [|? ? Hb Hbs]; subst.
    assert (Hfit : batch_fits (w_net w) b) by exact Hb.
    destruct (@train_batch_ok prev b w Hnet Hfit)
      as (raw & B & sd & outputs & mem_rec & mems & cs & _ & _ & _ & _ & _ & _ & _ & _ & Erun).
    set (v := fold_left add cs zero) in *.
    set (w1 := after_step _ _ _ _ _) in Erun.
    assert (Hn1 : w_net w1 = load_parameters (w_net w)
              (fst (adam_step optimizer_cfg (w_opt w) (parameters (w_net w)) (w_grads w1)))).
    { unfold w1. rewrite after_step_net. reflexivity. }
    assert (Hok1 : Net_ok (w_net w1)).
    { rewrite Hn1. apply load_parameters_ok; [exact Hnet | apply adam_contract]. }
    assert (Hlay1 : same_layout (w_net w) (w_net w1)).
    { rewrite Hn1. apply load_parameters_layout. }
    pose proof Hlay1 as (F1 & _ & _ & _ & _ & F6 & _).
    destruct (IH (Some (mkTensor [1] [v])) w1 Hok1) as
      (last & w' & infos & E & Hok & Hlay & Hrng & Hge & Hlen & Htr & Hhist & Hnil & Hcons);
      [ exact Hbs | congruence | congruence | ].
    pose proof (after_step_rest (log (EvLatency (fst b) num_steps) w) sd (snd b) v
                  (mkTensor [1] [v])) as (R1 & R2 & R3).
    fold w1 in R1, R2, R3.
    exists last, w', ((sd, mkTensor [1] [v]) :: infos).
    cbn [mfold]. erewrite bind_ok by exact Erun.
    split; [exact E|]. split; [exact Hok|].
    split; [eapply same_layout_trans; eauto|].
    split; [rewrite Hrng, R1; reflexivity|].
    split; [rewrite Hge, R2; reflexivity|].
    split; [simpl; lia|].
    split.
    { rewrite Htr. unfold w1. rewrite after_step_trace; simpl.
      rewrite <- !app_assoc. reflexivity. }
    split; [rewrite Hhist, R3, length_app; simpl; lia|].
    split; [discriminate|]. intros _.
    destruct bs as [|b' bs'].
    + exists v. destruct (Hnil eq_refl) as [-> Hlv]. split; [reflexivity|].
      rewrite Hlv. unfold w1. apply after_step_loss_val.
    + apply Hcons; discriminate.
Qed.

(** *** What the test loop leaves as it was *)

Section Frames.

Variable P : World -> World -> Prop.
Hypothesis P_refl : forall w, P w w.
Hypothesis P_trans : forall w1 w2 w3, P w1 w2 -> P w2 w3 -> P w1 w3.

Lemma keeps_ret {A} (a : A) : keeps P (ret a).
Proof. intros w; apply P_refl. Qed.

Lemma keeps_lift {A} (r : Result A) : keeps P (lift r).
Proof. intros w; apply P_refl. Qed.

Lemma keeps_gets {A} (f : World -> A) : keeps P (gets f).
Proof. intros w; apply P_refl. Qed.

Lemma keeps_modify (f : World -> World) : (forall w, P w (f w)) -> keeps P (modify f).
Proof. intros H w; apply H. Qed.

Lemma keeps_bind {A B} (c : M A) (k : A -> M B) :
  keeps P c -> (forall a, keeps P (k a)) -> keeps P (bind c k).
Proof.
  intros Hc Hk w. unfold bind. specialize (Hc w).
  destruct (c w) as [[a|e] w1]; simpl in *; [|exact Hc].
  eapply P_trans; [exact Hc | apply Hk].
Qed.

Lemma keeps_mfold {A B} (f : A -> B -> M A) l :
  (forall a b, keeps P (f a b)) -> forall a, keeps P (mfold f l a).
Proof.
  intros Hf; induction l as [|b l IH]; intros a; simpl.
  - apply keeps_ret.
  - apply keeps_bind; [apply Hf | exact IH].
Qed.

End Frames.

Lemma frame_refl w : frame w w.
Proof.
  unfold frame; repeat split. exists []; rewrite app_nil_r; auto.
Qed.

Lemma frame_trans w1 w2 w3 : frame w1 w2 -> frame w2 w3 -> frame w1 w3.
Proof.
  intros (N1 & G1 & O1 & E1 & L1 & evs1 & T1 & P1) (N2 & G2 & O2 & E2 & L2 & evs2 & T2 & P2).
  unfold frame; repeat split; try congruence.
  exists (evs1 ++ evs2). rewrite T2, T1, app_assoc, forallb_app, P1, P2; auto.
Qed.

Lemma frame_log c w : passive c = true -> frame w (log c w).
Proof.
  intros H; unfold frame; simpl; repeat split.
  exists [c]; simpl; rewrite H; auto.
Qed.

Lemma frame_set_rng g w : frame w (set_rng g w).
Proof.
  unfold frame; simpl; repeat split. exists []; rewrite app_nil_r; auto.
Qed.

Lemma keeps_rate dat n : keeps frame (rate dat n).
Proof.
  intros w. unfold rate, bind, modify; simpl.
  destruct (spikegen_rate (w_rng w) dat n) as [r g]; simpl.
  eapply frame_trans; [apply (frame_log (EvRate dat n) w); reflexivity|].
  apply frame_set_rng.
Qed.

Lemma keeps_iterate l : keeps frame (iterate l).
Proof.
  intros w. unfold iterate, bind, modify; simpl.
  destruct (loader_iter l (w_rng w)) as [bs g]; simpl.
  eapply frame_trans; [apply (frame_log (EvIter l) w); reflexivity|].
  apply frame_set_rng.
Qed.

Lemma keeps_call_net x : keeps frame (call_net x).
Proof.
  intros w. rewrite call_net_run; simpl.
  apply (frame_log (EvForward x) w); reflexivity.
Qed.

Ltac keeps_step :=
  first
    [ apply keeps_ret; apply frame_refl
    | apply keeps_lift; apply frame_refl
    | apply keeps_gets; apply frame_refl
    | apply keeps_rate
    | apply keeps_iterate
    | apply keeps_call_net
    | apply (keeps_bind frame_trans); [| intros ]
    | match goal with |- keeps _ (let (_, _) := ?p in _) => destruct p end ].

Lemma keeps_test_batch acc b : keeps frame (test_batch acc b).
Proof.
  unfold test_batch. destruct acc as [correct total], b as [dat targets].
  repeat keeps_step.
Qed.

Lemma keeps_test_body l :
  keeps frame (bind (iterate l) (fun batches => mfold test_batch batches (0, 0))).
Proof.
  keeps_step; [apply keeps_iterate|].
  apply (keeps_mfold frame_refl frame_trans). intros; apply keeps_test_batch.
Qed.

(** *** The test loop and the test cell *)

Lemma Net_ok_set_training b self : Net_ok self -> Net_ok (set_training b self).
Proof. intros H; exact H. Qed.

Lemma batches_total i o (bs : list Batch) :
  Forall (batch_ok i o) bs -> bs <> [] -> 0 < list_sum (map batch_size bs).
Proof.
  intros H Hne. destruct bs as [|b bs]; [congruence|].
  inversion H as [|? ? (_ & _ & B & rest & HB & _ & _ & St & _) _]; subst.
  simpl. unfold batch_size at 1. rewrite St. lia.
Qed.

Lemma test_loop_ok l w i o :
  Net_ok (w_net w) ->
  in_features (fc1 (w_net w)) = i -> out_features (fc3 (w_net w)) = o ->
  Forall (batch_ok i o) (fst (loader_iter l (w_rng w))) ->
  exists c t w' sds,
    test_loop l w = (Ok (c, t), w')
    /\ c <= t
    /\ t = list_sum (map batch_size (fst (loader_iter l (w_rng w))))
    /\ w_net w' = set_training false (w_net w)
    /\ w_grad_enabled w' = w_grad_enabled w
    /\ length sds = length (fst (loader_iter l (w_rng w)))
    /\ w_trace w'
       = w_trace w ++ [EvEvalMode; EvIter l]
         ++ concat (map test_events (combine (fst (loader_iter l (w_rng w))) sds)).
Proof.
  intros Hnet Hi Ho Hall.
  unfold test_loop, with_no_grad, iterate, bind, modify; simpl.
  destruct (loader_iter l (w_rng w)) as [bs g] eqn:El; simpl in *.
  set (w4 := set_rng g _).
  destruct (@test_batches_ok bs (0, 0) w4) as (c & t & w5 & sds & E & L1 & L2 & L3 & Hn & Hlen & Htr).
  { exact Hnet. }
  { unfold batch_fits. simpl. rewrite Hi, Ho. exact Hall. }
  rewrite E; simpl in *.
  exists c, t, (set_grad_enabled (w_grad_enabled w) w5), sds.
  repeat split; auto; try lia.
  simpl. rewrite Htr; simpl. rewrite <- !app_assoc. reflexivity.
Qed.

Lemma truediv_ok a b : 0 < b -> truediv a b = Ok (Z.of_nat a # Pos.of_nat b)%Q.
Proof.
  intros H; unfold truediv. destruct (Nat.eqb_spec b 0); [lia | reflexivity].
Qed.

Lemma test_cell_ok l w i o :
  Net_ok (w_net w) ->
  in_features (fc1 (w_net w)) = i -> out_features (fc3 (w_net w)) = o ->
  Forall (batch_ok i o) (fst (loader_iter l (w_rng w))) ->
  fst (loader_iter l (w_rng w)) <> [] ->
  0 < dataset_len l ->
  exists c t printed accuracy w' sds,
    test_cell l w = (Ok (c, t, printed, accuracy), w')
    /\ c <= t /\ 0 < t
    /\ t = list_sum (map batch_size (fst (loader_iter l (w_rng w))))
    /\ truediv (100 * c) t = Ok printed
    /\ truediv (100 * c) (dataset_len l) = Ok accuracy
    /\ length sds = length (fst (loader_iter l (w_rng w)))
    /\ w_trace w'
       = w_trace w ++ [EvEvalMode; EvIter l]
         ++ concat (map test_events (combine (fst (loader_iter l (w_rng w))) sds))
         ++ [EvPrintAccuracy printed].
Proof.
  intros Hnet Hi Ho Hall Hne Hlen.
  destruct (@test_loop_ok l w i o Hnet Hi Ho Hall) as (c & t & w1 & sds & E & Hle & Ht & _ & _ & Hl & Htr).
  pose proof (batches_total Hall Hne) as Hpos. rewrite <- Ht in Hpos.
  exists c, t, (Z.of_nat (100 * c) # Pos.of_nat t)%Q,
    (Z.of_nat (100 * c) # Pos.of_nat (dataset_len l))%Q,
    (log (EvPrintAccuracy (Z.of_nat (100 * c) # Pos.of_nat t)%Q) w1), sds.
  unfold test_cell. erewrite bind_ok by exact E. cbv beta iota.
  erewrite bind_ok by (apply lift_ok, truediv_ok; exact Hpos).
  unfold bind, modify, lift, ret; simpl.
  rewrite (truediv_ok _ Hlen).
  repeat split; auto using truediv_ok.
  simpl. rewrite Htr, <- !app_assoc. reflexivity.
Qed.

(** Whatever the loader yields and whatever raises, the test cell
    changes no parameter. *)
Lemma test_loop_unfold l w :
  test_loop l w
  = let w0 := set_grad_enabled false
                (set_net (set_training false) (log EvEvalMode w)) in
    let body := bind (iterate l) (fun batches => mfold test_batch batches (0, 0)) in
    (fst (body w0), set_grad_enabled (w_grad_enabled w) (snd (body w0))).
Proof.
  unfold test_loop, with_no_grad. unfold bind at 1 2. unfold modify at 1 2.
  cbv zeta. cbn [fst snd w_grad_enabled set_net log].
  destruct (bind (iterate l) _ _) as [r w1]. reflexivity.
Qed.

Lemma test_loop_frame l w :
  parameters (w_net (snd (test_loop l w))) = parameters (w_net w)
  /\ training (w_net (snd (test_loop l w))) = false
  /\ w_grads (snd (test_loop l w)) = w_grads w
  /\ w_opt (snd (test_loop l w)) = w_opt w
  /\ w_grad_enabled (snd (test_loop l w)) = w_grad_enabled w
  /\ exists evs, w_trace (snd (test_loop l w)) = w_trace w ++ evs
                 /\ forallb passive evs = true.
Proof.
  rewrite test_loop_unfold. cbv zeta.
  set (w0 := set_grad_enabled false _).
  pose proof (keeps_test_body l w0) as (N & G & O & E & _ & evs & T & Pv).
  destruct (bind (iterate l) _ w0) as [r w1]; simpl in *.
  split; [rewrite N; reflexivity|]. split; [rewrite N; reflexivity|].
  split; [rewrite G; reflexivity|]. split; [rewrite O; reflexivity|].
  split; [reflexivity|].
  exists (EvEvalMode :: evs). rewrite T; simpl. rewrite <- app_assoc. auto.
Qed.

Lemma test_cell_frame l w :
  parameters (w_net (snd (test_cell l w))) = parameters (w_net w)
  /\ training (w_net (snd (test_cell l w))) = false
  /\ w_grads (snd (test_cell l w)) = w_grads w
  /\ w_opt (snd (test_cell l w)) = w_opt w
  /\ w_grad_enabled (snd (test_cell l w)) = w_grad_enabled w
  /\ exists evs, w_trace (snd (test_cell l w)) = w_trace w ++ evs
                 /\ forallb passive evs = true.
Proof.
  pose proof (test_loop_frame l w) as (N & Tr & G & O & E & evs & T & Pv).
  unfold test_cell. unfold bind, lift, modify, ret.
  destruct (test_loop l w) as [[[c t]|e] w1]; cbn [snd fst] in *.
  - destruct (truediv (100 * c) t) as [printed|e1]; cbn [snd fst].
    + destruct (truediv (100 * c) (dataset_len l)) as [acc|e2];
        cbn [snd fst w_net w_grads w_opt w_grad_enabled w_trace log];
        (do 5 (split; [assumption|]);
         exists (evs ++ [EvPrintAccuracy printed]);
         rewrite T, app_assoc, forallb_app, Pv; auto).
    + do 5 (split; [assumption|]). exists evs; auto.
  - do 5 (split; [assumption|]). exists evs; auto.
Qed.

(** *** The training cell *)

Lemma modify_run f w : modify f w = (Ok tt, f w).
Proof. reflexivity. Qed.

Lemma iterate_run l w :
  iterate l w
  = (Ok (fst (loader_iter l (w_rng w))),
     set_rng (snd (loader_iter l (w_rng w))) (log (EvIter l) w)).
Proof.
  unfold iterate, bind, modify; simpl.
  destruct (loader_iter l (w_rng w)); reflexivity.
Qed.

Lemma train_epoch_ok l prev epoch w i o :
  Net_ok (w_net w) ->
  in_features (fc1 (w_net w)) = i -> out_features (fc3 (w_net w)) = o ->
  Forall (batch_ok i o) (fst (loader_iter l (w_rng w))) ->
  fst (loader_iter l (w_rng w)) <> [] ->
  exists v w' infos,
    train_epoch l prev epoch w = (Ok (Some (mkTensor [1] [v])), w')
    /\ Net_ok (w_net w')
    /\ in_features (fc1 (w_net w')) = i /\ out_features (fc3 (w_net w')) = o
    /\ w_rng w' = snd (loader_iter l (w_rng w))
    /\ length infos = length (fst (loader_iter l (w_rng w)))
    /\ w_trace w'
       = w_trace w ++ [EvTrainMode; EvIter l]
         ++ concat (map train_events (combine (fst (loader_iter l (w_rng w))) infos))
         ++ [EvPrintEpoch (epoch + 1) num_epochs v].
Proof.
  intros Hnet Hi Ho Hall Hne.
  unfold train_epoch.
  erewrite bind_ok by apply modify_run.
  erewrite bind_ok by apply modify_run.
  erewrite bind_ok by apply iterate_run.
  cbn [w_rng log set_net].
  set (bs := fst (loader_iter l (w_rng w))) in *.
  set (w3 := set_rng _ _).
  destruct (@train_batches_ok i o bs prev w3 Hnet Hall Hi Ho)
    as (last & w4 & infos & E & Hok & Hlay & Hrng & _ & Hlen & Htr & _ & _ & Hcons).
  destruct (Hcons Hne) as (v & -> & Hlv).
  exists v, (log (EvPrintEpoch (epoch + 1) num_epochs v) w4), infos.
  erewrite bind_ok by exact E.
  unfold bind, gets, lift, modify, ret. rewrite Hlv. cbn [item data fst snd].
  destruct Hlay as (F1 & _ & _ & _ & _ & F6 & _).
  split; [reflexivity|]. split; [exact Hok|].
  split; [simpl; rewrite F1; exact Hi|]. split; [simpl; rewrite F6; exact Ho|].
  split; [simpl; rewrite Hrng; reflexivity|]. split; [exact Hlen|].
  simpl. rewrite Htr; simpl. rewrite <- !app_assoc. reflexivity.
Qed.

Lemma training_cell_ok l w i o :
  Net_ok (w_net w) ->
  in_features (fc1 (w_net w)) = i -> out_features (fc3 (w_net w)) = o ->
  Forall (batch_ok i o) (fst (loader_iter l (w_rng w))) ->
  fst (loader_iter l (w_rng w)) <> [] ->
  exists v w' infos,
    training_cell l w = (Ok tt, w')
    /\ Net_ok (w_net w')
    /\ in_features (fc1 (w_net w')) = i /\ out_features (fc3 (w_net w')) = o
    /\ w_rng w' = snd (loader_iter l (w_rng w))
    /\ length infos = length (fst (loader_iter l (w_rng w)))
    /\ w_trace w'
       = w_trace w ++ [EvTrainMode; EvIter l]
         ++ concat (map train_events (combine (fst (loader_iter l (w_rng w))) infos))
         ++ [EvPrintEpoch 1 1 v].
Proof.
  intros Hnet Hi Ho Hall Hne.
  destruct (@train_epoch_ok l None 0 (set_loss_hist [] w) i o Hnet Hi Ho Hall Hne)
    as (v & w' & infos & E & H).
  exists v, w', infos. split; [|exact H].
  unfold training_cell. change (seq 0 num_epochs) with [0]. cbn [mfold].
  erewrite bind_ok by apply modify_run.
  unfold bind at 1. unfold bind at 1. rewrite E. reflexivity.
Qed.

Lemma count_app p l1 l2 : count p (l1 ++ l2) = count p l1 + count p l2.
Proof. unfold count. rewrite filter_app, length_app. reflexivity. Qed.

Lemma count_concat_map {A} p (f : A -> list Call) k l :
  (forall x, count p (f x) = k) -> count p (concat (map f l)) = k * length l.
Proof.
  intros H; induction l as [|x l IH]; cbn [map concat length].
  - unfold count; simpl; lia.
  - rewrite count_app, H, IH. lia.
Qed.

(** *** The chain of the net *)

Lemma Net_init_topology g :
  topology (fst (Net_init g))
  = [SLinear 784 64; SLeaky 0.95; SLinear 64 64; SLeaky 0.95;
     SLinear 64 10; SLeaky 0.95].
Proof.
  unfold Net_init, nn_Linear.
  repeat match goal with |- context [init_param ?g ?s] =>
    destruct (init_param g s) end.
  reflexivity.
Qed.

Lemma Net_init_chain g :
  chain (fst (Net_init g))
  = [Units 784; Units 64; Lif; Units 64; Lif; Units 10; Lif].
Proof.
  unfold chain. rewrite Net_init_topology.
  unfold Net_init, nn_Linear.
  repeat match goal with |- context [init_param ?g ?s] =>
    destruct (init_param g s) end.
  reflexivity.
Qed.

Lemma forward_step_chain self x st step :
  forward_step self x st step
  = (xs <- select0 x step ;;
     '(spk3, ms) <- run_chain (children self) xs [mem1 st; mem2 st; mem3 st] ;;
     match ms with
     | [m1; m2; m3] =>
         Ok (mkLoopState m1 m2 m3 (spk3_rec st ++ [spk3]) (mem3_rec st ++ [m3]))
     | _ => Raise RuntimeError
     end)%res.
Proof.
  unfold forward_step, children.
  destruct (select0 x step) as [xs|]; cbn [rbind run_chain]; [|reflexivity].
  destruct (linear_forward (fc1 self) xs) as [cur1|]; cbn [rbind]; [|reflexivity].
  destruct (leaky_forward (lif1 self) cur1 (mem1 st)) as [[spk1 m1]|]; cbn [rbind]; [|reflexivity].
  destruct (linear_forward (fc2 self) spk1) as [cur2|]; cbn [rbind]; [|reflexivity].
  destruct (leaky_forward (lif2 self) cur2 (mem2 st)) as [[spk2 m2]|]; cbn [rbind]; [|reflexivity].
  destruct (linear_forward (fc3 self) spk2) as [cur3|]; cbn [rbind]; [|reflexivity].
  destruct (leaky_forward (lif3 self) cur3 (mem3 st)) as [[spk3 m3]|]; cbn [rbind]; reflexivity.
Qed.

(** *** The output at a step depends on the input up to that step *)

Lemma forward_loop_grows self x steps : forall st st',
  rfold (forward_step self x) steps st = Ok st' ->
  exists s m,
    spk3_rec st' = spk3_rec st ++ s /\ mem3_rec st' = mem3_rec st ++ m
    /\ length s = length steps /\ length m = length steps.
Proof.
  induction steps as [|i steps IH]; intros st st' H.
  - injection H as <-. exists [], []. rewrite !app_nil_r. auto.
  - cbn [rfold] in H.
    destruct (forward_step self x st i) as [st1|] eqn:E1; [|discriminate].
    cbn [rbind] in H.
    destruct (forward_step_update _ _ _ _ E1) as (xs & spk3 & _ & _ & Es & Em).
    destruct (IH _ _ H) as (s & m & Hs & Hm & Ls & Lm).
    exists (spk3 :: s), (mem3 st1 :: m).
    rewrite Hs, Hm, Es, Em, <- !app_assoc. simpl. auto.
Qed.

Lemma forward_loop_cut self x n t st :
  t < n ->
  rfold (forward_step self x) (seq 0 n) (forward_init self) = Ok st ->
  exists a,
    rfold (forward_step self x) (seq 0 (S t)) (forward_init self) = Ok a
    /\ nth_error (spk3_rec st) t = nth_error (spk3_rec a) t
    /\ nth_error (mem3_rec st) t = nth_error (mem3_rec a) t.
Proof.
  intros Ht H.
  replace n with (S t + (n - S t)) in H by lia.
  rewrite seq_app, rfold_app in H.
  destruct (rfold (forward_step self x) (seq 0 (S t)) (forward_init self))
    as [a|] eqn:Ea; [|discriminate].
  cbn [rbind] in H. exists a. split; [reflexivity|].
  destruct (forward_loop_membranes _ _ _ Ea) as (_ & Lm & Ls & _).
  destruct (forward_loop_grows _ _ _ _ H) as (s & m & Hs & Hm & _).
  rewrite Hs, Hm. split; rewrite nth_error_app1 by lia; reflexivity.
Qed.

Lemma Net_forward_records steps self x T pre :
  0 < steps -> steps <= T ->
  Net_ok self -> wf x -> shape x = T :: pre ++ [in_features (fc1 self)] ->
  exists st spk mem,
    rfold (forward_step self x) (seq 0 steps) (forward_init self) = Ok st
    /\ Net_forward steps self x = Ok (spk, mem)
    /\ forall t, t < steps ->
         exists s m,
           nth_error (spk3_rec st) t = Some s /\ nth_error (mem3_rec st) t = Some m
           /\ select0 spk t = Ok s /\ select0 mem t = Ok m.
Proof.
  intros Hpos Hle Hnet Hwf Hsh.
  assert (Hall : Forall (fun i => i < T) (seq 0 steps)).
  { eapply Forall_impl; [|apply seq_below]. simpl; intros; lia. }
  destruct (forward_loop_ok Hnet Hwf Hsh Hall (forward_init_ok self pre))
    as (st & Est & (_ & _ & _ & Rs & Rm) & Ls & Lm).
  rewrite length_seq in Ls, Lm; simpl in Ls, Lm.
  destruct (rec_ok_stack Rs) as (spk & Es & _); [lia|].
  destruct (rec_ok_stack Rm) as (mem & Em & _); [lia|].
  exists st, spk, mem. split; [exact Est|]. split.
  { unfold Net_forward. rewrite Est; cbn [rbind]. rewrite Es, Em. reflexivity. }
  intros t Ht.
  destruct (nth_error (spk3_rec st) t) as [s|] eqn:Ns;
    [|apply nth_error_None in Ns; lia].
  destruct (nth_error (mem3_rec st) t) as [m|] eqn:Nm;
    [|apply nth_error_None in Nm; lia].
  exists s, m. split; [reflexivity|]. split; [reflexivity|]. split.
  - apply (@select0_stack0 R (spk3_rec st) spk t s); [|exact Es|exact Ns].
    eapply Forall_impl; [|exact Rs]. simpl; intros u [Hu _]; exact Hu.
  - apply (@select0_stack0 R (mem3_rec st) mem t m); [|exact Em|exact Nm].
    eapply Forall_impl; [|exact Rm]. simpl; intros u [Hu _]; exact Hu.
Qed.

Lemma forward_step_inv self x st step st' :
  forward_step self x st step = Ok st' ->
  exists xs cur1 spk1 cur2 spk2 cur3 spk3,
    select0 x step = Ok xs
    /\ linear_forward (fc1 self) xs = Ok cur1
    /\ leaky_forward (lif1 self) cur1 (mem1 st) = Ok (spk1, mem1 st')
    /\ linear_forward (fc2 self) spk1 = Ok cur2
    /\ leaky_forward (lif2 self) cur2 (mem2 st) = Ok (spk2, mem2 st')
    /\ linear_forward (fc3 self) spk2 = Ok cur3
    /\ leaky_forward (lif3 self) cur3 (mem3 st) = Ok (spk3, mem3 st')
    /\ spk3_rec st' = spk3_rec st ++ [spk3]
    /\ mem3_rec st' = mem3_rec st ++ [mem3 st'].
Proof.
  unfold forward_step.
  destruct (select0 x step) as [xs|]; simpl; [|discriminate].
  destruct (linear_forward (fc1 self) xs) as [cur1|] eqn:E1; simpl; [|discriminate].
  destruct (leaky_forward (lif1 self) cur1 (mem1 st)) as [[spk1 m1]|] eqn:F1; simpl; [|discriminate].
  destruct (linear_forward (fc2 self) spk1) as [cur2|] eqn:E2; simpl; [|discriminate].
  destruct (leaky_forward (lif2 self) cur2 (mem2 st)) as [[spk2 m2]|] eqn:F2; simpl; [|discriminate].
  destruct (linear_forward (fc3 self) spk2) as [cur3|] eqn:E3; simpl; [|discriminate].
  destruct (leaky_forward (lif3 self) cur3 (mem3 st)) as [[spk3 m3]|] eqn:F3; simpl; [|discriminate].
  intros [= <-]; simpl.
  exists xs, cur1, spk1, cur2, spk2, cur3, spk3. repeat split; assumption.
Qed.

(** Step [t] of a forward pass that runs to its end: the potentials
    before it, the values computed in it, and what it records. *)
Lemma Net_forward_step steps self x T pre :
  0 < steps -> steps <= T ->
  Net_ok self -> wf x -> shape x = T :: pre ++ [in_features (fc1 self)] ->
  exists spk mem,
    Net_forward steps self x = Ok (spk, mem)
    /\ forall t, t < steps ->
         exists p1 p2 p3 xs cur1 spk1 m1 cur2 spk2 m2 cur3 spk3 m3,
           membranes_at self x t = Ok (p1, p2, p3)
           /\ select0 x t = Ok xs
           /\ linear_forward (fc1 self) xs = Ok cur1
           /\ leaky_forward (lif1 self) cur1 p1 = Ok (spk1, m1)
           /\ linear_forward (fc2 self) spk1 = Ok cur2
           /\ leaky_forward (lif2 self) cur2 p2 = Ok (spk2, m2)
           /\ linear_forward (fc3 self) spk2 = Ok cur3
           /\ leaky_forward (lif3 self) cur3 p3 = Ok (spk3, m3)
           /\ membranes_at self x (S t) = Ok (m1, m2, m3)
           /\ select0 spk t = Ok spk3 /\ select0 mem t = Ok m3.
Proof.
  intros Hpos Hle Hnet Hwf Hsh.
  destruct (@Net_forward_records steps self x T pre Hpos Hle Hnet Hwf Hsh)
    as (st & spk & mem & Est & Efw & Hrec).
  exists spk, mem. split; [exact Efw|]. intros t Ht.
  destruct (Hrec t Ht) as (s & m & Ns & Nm & Ss & Sm).
  destruct (@forward_loop_cut self x steps t st Ht Est) as (a & Ea & Cs & Cm).
  rewrite seq_S in Ea. cbn [Nat.add] in Ea.
  destruct (rfold_snoc_inv _ _ _ _ Ea) as (st0 & E0 & Estep).
  destruct (forward_loop_membranes _ _ _ E0) as (M0 & L0 & L0' & _).
  destruct (forward_step_inv _ _ _ _ Estep)
    as (xs & cur1 & spk1 & cur2 & spk2 & cur3 & spk3
        & Exs & C1 & F1 & C2 & F2 & C3 & F3 & Rs & Rm).
  exists (mem1 st0), (mem2 st0), (mem3 st0), xs, cur1, spk1, (mem1 a),
         cur2, spk2, (mem2 a), cur3, spk3, (mem3 a).
  do 8 (split; [assumption|]).
  split.
  { cbn [membranes_at]. rewrite M0; cbn [rbind]. rewrite Exs; cbn [rbind].
    unfold lif_update. rewrite C1; cbn [rbind]. rewrite F1; cbn [rbind].
    rewrite C2; cbn [rbind]. rewrite F2; cbn [rbind].
    rewrite C3; cbn [rbind]. rewrite F3; reflexivity. }
  assert (Es : s = spk3).
  { rewrite Cs, Rs, nth_error_app2, L0', Nat.sub_diag in Ns by lia.
    injection Ns as <-. reflexivity. }
  assert (Em : m = mem3 a).
  { rewrite Cm, Rm, nth_error_app2, L0, Nat.sub_diag in Nm by lia.
    injection Nm as <-. reflexivity. }
  subst s m. split; assumption.
Qed.

(** ** The claims *)

(** C1, as amended.  The net built by [Net.__init__] is three fully
    connected layers, 784 to 64, 64 to 64 and 64 to 10, each followed by
    a LIF stage with decay 0.95: three LIF stages, on 64, 64 and 10
    units.  The 784 input units feed the first linear layer directly.
    Every time step of [forward] applies these six modules in this
    order. *)
Theorem Net_is_three_linear_lif_pairs :
  (forall g,
     topology (fst (Net_init g))
     = [SLinear 784 64; SLeaky 0.95; SLinear 64 64; SLeaky 0.95;
        SLinear 64 10; SLeaky 0.95]
     /\ chain (fst (Net_init g))
        = [Units 784; Units 64; Lif; Units 64; Lif; Units 10; Lif]
     /\ length (filter is_lif (chain (fst (Net_init g)))) = 3)
  /\ (forall self x st step,
        forward_step self x st step
        = (xs <- select0 x step ;;
           '(spk3, ms) <- run_chain (children self) xs [mem1 st; mem2 st; mem3 st] ;;
           match ms with
           | [m1; m2; m3] =>
               Ok (mkLoopState m1 m2 m3 (spk3_rec st ++ [spk3]) (mem3_rec st ++ [m3]))
           | _ => Raise RuntimeError
           end)%res).
Proof.
  split.
  - intros g. rewrite Net_init_chain. repeat split.
    apply Net_init_topology.
  - apply forward_step_chain.
Qed.

(** C5.  [num_steps] is 30.  For any positive number of steps, on a
    well-formed net and an input with at least that many time slices of
    the width the first layer takes, the time loop runs to its end with
    one record of each kind per step, and [forward] returns two tensors
    stacked along dimension 0 whose first dimension is the number of
    steps. *)
Theorem forward_unrolls_num_steps :
  num_steps = 30
  /\ (forall self x, forward self x = Net_forward num_steps self x)
  /\ forall steps self x T pre,
       0 < steps -> steps <= T ->
       Net_ok self -> wf x -> shape x = T :: pre ++ [in_features (fc1 self)] ->
       exists st spk mem,
         rfold (forward_step self x) (seq 0 steps) (forward_init self) = Ok st
         /\ length (spk3_rec st) = steps /\ length (mem3_rec st) = steps
         /\ Net_forward steps self x = Ok (spk, mem)
         /\ stack0 (spk3_rec st) = Ok spk /\ stack0 (mem3_rec st) = Ok mem
         /\ size0 spk = Ok steps /\ size0 mem = Ok steps
         /\ shape spk = steps :: pre ++ [out_features (fc3 self)]
         /\ shape mem = steps :: pre ++ [out_features (fc3 self)].
Proof.
  split; [reflexivity|]. split; [reflexivity|].
  intros steps self x T pre Hpos Hle Hnet Hwf Hsh.
  destruct (Net_forward_ok pre Hpos Hle Hnet Hwf Hsh)
    as (st & spk & mem & E & Ls & Lm & _ & Es & Em & Efw & _ & Ss & _ & Sm).
  exists st, spk, mem. unfold size0. rewrite Ss, Sm.
  repeat split; auto.
Qed.

(** C8.  [forward] reads its input through the slices [x[0]], ...,
    [x[num_steps - 1]] only: two inputs on which these slices agree
    give the same result, be it a pair of records or an exception. *)
Theorem forward_reads_first_num_steps_slices :
  forall steps self x x',
    (forall i, i < steps -> select0 x i = select0 x' i) ->
    Net_forward steps self x = Net_forward steps self x'.
Proof.
  intros steps self x x' H. unfold Net_forward.
  rewrite (@forward_loop_ext self x x' (seq 0 steps)); [reflexivity|].
  intros i Hi. apply in_seq in Hi. apply H. lia.
Qed.

(** C6.  The three LIF layers of the net are built with decay constant
    0.95, and neither loading parameters nor switching mode changes
    them.  A forward pass on a well-formed net and input returns its two
    records, and at every step [t] each LIF layer is applied to its
    current and to the potential it holds: at step 0 the initial
    potential [init_leaky], at a later step the potential it returned at
    the step before; the spikes and the potential the last layer returns
    at step [t] are slice [t] of the two records.  A call of the net
    starts again from the initial potentials, whatever call was made
    before it. *)
Theorem lif_state_is_reset_each_forward :
  beta = 0.95%Q
  /\ (forall g,
        lif_beta (lif1 (fst (Net_init g))) = beta
        /\ lif_beta (lif2 (fst (Net_init g))) = beta
        /\ lif_beta (lif3 (fst (Net_init g))) = beta)
  /\ (forall self ps b,
        lif1 (load_parameters self ps) = lif1 self
        /\ lif2 (load_parameters self ps) = lif2 self
        /\ lif3 (load_parameters self ps) = lif3 self
        /\ lif1 (set_training b self) = lif1 self
        /\ lif2 (set_training b self) = lif2 self
        /\ lif3 (set_training b self) = lif3 self)
  /\ (forall steps self x T pre,
        0 < steps -> steps <= T ->
        Net_ok self -> wf x -> shape x = T :: pre ++ [in_features (fc1 self)] ->
        exists spk mem,
          Net_forward steps self x = Ok (spk, mem)
          /\ forall t, t < steps ->
               exists p1 p2 p3 xs cur1 spk1 m1 cur2 spk2 m2 cur3 spk3 m3,
                 membranes_at self x t = Ok (p1, p2, p3)
                 /\ (t = 0 ->
                     p1 = init_leaky (lif1 self) /\ p2 = init_leaky (lif2 self)
                     /\ p3 = init_leaky (lif3 self))
                 /\ select0 x t = Ok xs
                 /\ linear_forward (fc1 self) xs = Ok cur1
                 /\ leaky_forward (lif1 self) cur1 p1 = Ok (spk1, m1)
                 /\ linear_forward (fc2 self) spk1 = Ok cur2
                 /\ leaky_forward (lif2 self) cur2 p2 = Ok (spk2, m2)
                 /\ linear_forward (fc3 self) spk2 = Ok cur3
                 /\ leaky_forward (lif3 self) cur3 p3 = Ok (spk3, m3)
                 /\ membranes_at self x (S t) = Ok (m1, m2, m3)
                 /\ select0 spk t = Ok spk3 /\ select0 mem t = Ok m3)
  /\ (forall w x1 x2 T pre,
        num_steps <= T ->
        Net_ok (w_net w) -> wf x2 ->
        shape x2 = T :: pre ++ [in_features (fc1 (w_net w))] ->
        exists spk mem w' xs cur1 spk1 m1 cur2 spk2 m2 cur3 spk3 m3,
          call_net x2 (snd (call_net x1 w)) = (Ok (spk, mem), w')
          /\ select0 x2 0 = Ok xs
          /\ linear_forward (fc1 (w_net w)) xs = Ok cur1
          /\ leaky_forward (lif1 (w_net w)) cur1 (init_leaky (lif1 (w_net w)))
             = Ok (spk1, m1)
          /\ linear_forward (fc2 (w_net w)) spk1 = Ok cur2
          /\ leaky_forward (lif2 (w_net w)) cur2 (init_leaky (lif2 (w_net w)))
             = Ok (spk2, m2)
          /\ linear_forward (fc3 (w_net w)) spk2 = Ok cur3
          /\ leaky_forward (lif3 (w_net w)) cur3 (init_leaky (lif3 (w_net w)))
             = Ok (spk3, m3)
          /\ select0 spk 0 = Ok spk3 /\ select0 mem 0 = Ok m3).
Proof.
  split; [reflexivity|]. split.
  { intros g. unfold Net_init, nn_Linear.
    repeat match goal with |- context [init_param ?g ?s] =>
      destruct (init_param g s) end.
    repeat split. }
  split.
  { intros self ps b. pose proof (load_parameters_layout self ps) as H.
    unfold same_layout in H. decompose [and] H. repeat split; assumption. }
  split.
  { intros steps self x T pre Hpos Hle Hnet Hwf Hsh.
    destruct (@Net_forward_step steps self x T pre Hpos Hle Hnet Hwf Hsh)
      as (spk & mem & Efw & Hstep).
    exists spk, mem. split; [exact Efw|]. intros t Ht.
    destruct (Hstep t Ht)
      as (p1 & p2 & p3 & xs & cur1 & spk1 & m1 & cur2 & spk2 & m2 & cur3 & spk3 & m3
          & M & Rest).
    exists p1, p2, p3, xs, cur1, spk1, m1, cur2, spk2, m2, cur3, spk3, m3.
    split; [exact M|]. split; [|exact Rest].
    intros ->. cbn [membranes_at] in M. injection M as <- <- <-. auto. }
  intros w x1 x2 T pre Hle Hnet Hwf Hsh.
  destruct (@Net_forward_step num_steps (w_net w) x2 T pre num_steps_pos Hle
              Hnet Hwf Hsh) as (spk & mem & Efw & Hstep).
  destruct (Hstep 0 num_steps_pos)
    as (p1 & p2 & p3 & xs & cur1 & spk1 & m1 & cur2 & spk2 & m2 & cur3 & spk3 & m3
        & M & Exs & C1 & F1 & C2 & F2 & C3 & F3 & _ & Ss & Sm).
  cbn [membranes_at] in M. injection M as <- <- <-.
  exists spk, mem. eexists.
  exists xs, cur1, spk1, m1, cur2, spk2, m2, cur3, spk3, m3.
  split.
  { rewrite !call_net_run. cbn [snd w_net log]. unfold forward. rewrite Efw.
    reflexivity. }
  repeat split; assumption.
Qed.

(** C2.  For a training batch on a well-formed net, the body of the
    training loop runs to its end; the tensor it passes to [backward] is
    the one-element tensor holding [((0 + c_0) + c_1) + ... ], where
    [c_step] is the cross-entropy of [mem_rec[step]] and the targets,
    for the [num_steps] steps in order; it is the value at the current
    parameters of the function that is differentiated; and the calls of
    the batch are one encoding, one [zero_grad], one forward pass, one
    [backward] and one optimizer step, in this order. *)
Theorem train_batch_backpropagates_summed_loss :
  forall prev b w,
    Net_ok (w_net w) -> batch_fits (w_net w) b ->
    exists spike_data outputs mem_rec cs loss_val w',
      train_batch prev b w = (Ok (Some loss_val), w')
      /\ forward (w_net w) spike_data = Ok (outputs, mem_rec)
      /\ length cs = num_steps
      /\ (forall step, step < num_steps ->
            exists m c, select0 mem_rec step = Ok m
                        /\ CE_loss m (snd b) = Ok c
                        /\ nth_error cs step = Some c)
      /\ loss_val = mkTensor [1] [fold_left add cs zero]
      /\ loss_fn (w_net w) spike_data (snd b) (parameters (w_net w)) = Ok loss_val
      /\ w_trace w'
         = w_trace w ++ [EvLatency (fst b) num_steps; EvZeroGrad;
                         EvForward spike_data; EvBackward loss_val;
                         EvStep optimizer_cfg]
      /\ w_grads w'
         = accumulate_all (map (fun _ => None) (w_grads w))
             (autograd (loss_fn (w_net w) spike_data (snd b))
                (parameters (w_net w)))
      /\ count is_backward (skipn (length (w_trace w)) (w_trace w')) = 1.
Proof.
  intros prev b w Hnet Hb.
  destruct (@train_batch_ok prev b w Hnet Hb)
    as (raw & B & sd & outputs & mem_rec & mems & cs & _ & _ & _ & Efw & Est & Hlen
        & Hwf & Hcs & Erun).
  set (v := fold_left add cs zero) in *.
  set (w' := after_step _ _ _ _ _) in Erun.
  assert (Hcslen : length cs = num_steps).
  { rewrite <- Hlen. symmetry. eapply Forall2_length; exact Hcs. }
  assert (Hsteps : forall step, step < num_steps ->
            exists m c, select0 mem_rec step = Ok m
                        /\ CE_loss m (snd b) = Ok c /\ nth_error cs step = Some c).
  { intros step Hstep.
    destruct (nth_error mems step) as [m|] eqn:Em;
      [|apply nth_error_None in Em; lia].
    destruct (nth_error cs step) as [c|] eqn:Ec;
      [|apply nth_error_None in Ec; lia].
    exists m, c. split; [eapply select0_stack0; eauto|]. split; [|reflexivity].
    clear - Hcs Em Ec. revert step Em Ec.
    induction Hcs as [|m0 c0 ms cs0 H0 _ IH]; intros [|step] Em Ec;
      simpl in *; try discriminate.
    - congruence.
    - eapply IH; eauto. }
  assert (Etrace : w_trace w' = w_trace w ++
            [EvLatency (fst b) num_steps; EvZeroGrad; EvForward sd;
             EvBackward (mkTensor [1] [v]); EvStep optimizer_cfg]).
  { unfold w'. rewrite after_step_trace. simpl. rewrite <- app_assoc. reflexivity. }
  exists sd, outputs, mem_rec, cs, (mkTensor [1] [v]), w'.
  split; [exact Erun|]. split; [exact Efw|]. split; [exact Hcslen|].
  split; [exact Hsteps|]. split; [reflexivity|].
  split.
  { unfold loss_fn. rewrite load_parameters_same, Efw. cbn [rbind].
    unfold accumulate_loss.
    assert (Hgen : forall l k (acc : tensor),
              (forall j c, nth_error l j = Some c ->
                 exists m, select0 mem_rec (k + j) = Ok m /\ CE_loss m (snd b) = Ok c) ->
              rfold (loss_step mem_rec (snd b)) (seq k (length l)) acc
              = Ok (fold_left iadd_scalar l acc)).
    { induction l as [|c l IH]; intros k acc H; [reflexivity|].
      cbn [length seq rfold fold_left].
      destruct (H 0 c eq_refl) as (m & Em & Ec).
      rewrite Nat.add_0_r in Em. unfold loss_step at 1. rewrite Em; cbn [rbind].
      rewrite Ec; cbn [rbind]. apply IH.
      intros j c' Hj. replace (S k + j) with (k + S j) by lia. apply H. exact Hj. }
    rewrite <- Hcslen. rewrite Hgen.
    - unfold zeros1. apply f_equal. apply iadd_scalar_fold.
    - intros j c Hj.
      assert (Hjlt : j < num_steps).
      { rewrite <- Hcslen. apply nth_error_Some. congruence. }
      destruct (Hsteps j Hjlt) as (m & c' & Em & Ec & Ec').
      exists m. split; [exact Em|]. congruence. }
  split; [exact Etrace|].
  split; [unfold w'; rewrite after_step_grads; reflexivity|].
  rewrite Etrace, skipn_app, Nat.sub_diag, skipn_all. reflexivity.
Qed.

Lemma count_eq_seq (f : nat -> nat) n : forall k l2,
  length l2 = n ->
  count_eq (map f (seq k n)) l2
  = length (filter (fun e => f e =? nth (e - k) l2 0) (seq k n)).
Proof.
  unfold count_eq.
  induction n as [|n IH]; intros k l2 Hlen; [reflexivity|].
  destruct l2 as [|c l2]; [discriminate|]. injection Hlen as Hlen.
  cbn [seq map combine filter fst snd]. rewrite Nat.sub_diag.
  change (nth 0 (c :: l2) 0) with c.
  assert (E : filter (fun e => f e =? nth (e - k) (c :: l2) 0) (seq (S k) n)
              = filter (fun e => f e =? nth (e - S k) l2 0) (seq (S k) n)).
  { apply filter_ext_in. intros e He. apply in_seq in He.
    replace (e - k) with (S (e - S k)) by lia. reflexivity. }
  rewrite E. destruct (f k =? c); cbn [length]; rewrite IH by exact Hlen; reflexivity.
Qed.

Lemma accuracy_bounds c t :
  c <= t -> 0 < t -> (0 <= (Z.of_nat (100 * c) # Pos.of_nat t) <= 100)%Q.
Proof.
  intros Hle Hpos. unfold Qle; cbn [Qnum Qden].
  assert (E : Z.pos (Pos.of_nat t) = Z.of_nat t).
  { rewrite <- positive_nat_Z, Nat2Pos.id by lia. reflexivity. }
  change (Qnum 100) with 100%Z. change (Qden 100) with 1%positive.
  change (Qnum 0) with 0%Z. change (Qden 0) with 1%positive.
  rewrite E. split; lia.
Qed.

(** The test loop on well-formed batches, in the words of a test pass. *)
Lemma test_batches_scored batches : forall acc w,
  Net_ok (w_net w) -> Forall (batch_fits (w_net w)) batches ->
  exists outs w',
    test_outputs (w_net w) (w_rng w) batches = Ok outs
    /\ length outs = length batches
    /\ mfold test_batch batches acc w
       = (Ok (fst acc + all_hits (w_net w) batches outs,
              snd acc + list_sum (map batch_size batches)), w').
Proof.
  induction batches as [|b bs IH]; intros acc w Hnet Hall.
  - exists [], w. unfold all_hits; simpl. rewrite !Nat.add_0_r.
    destruct acc; auto.
  - inversion Hall as [|? ? Hb Hbs]; subst.
    destruct (@test_batch_ok acc b w Hnet Hb)
      as (raw & g & sd & outputs & mem & Eraw & Eview & Efw & _ & _ & St & Erun).
    set (w1 := log _ _) in Erun.
    destruct (IH (fst acc
                  + count_eq (map (predicted_class outputs num_steps (batch_size b)
                                     (out_features (fc3 (w_net w))))
                                (seq 0 (batch_size b))) (data (snd b)),
                  snd acc + batch_size b) w1 Hnet Hbs)
      as (outs & w' & Eouts & Hlen & E).
    exists (outputs :: outs), w'.
    assert (Esz : size0 (fst b) = Ok (batch_size b)).
    { destruct Hb as (_ & _ & B & rest & _ & Sd & _ & St' & _).
      unfold size0, batch_size. rewrite Sd, St'. reflexivity. }
    assert (Hhits : count_eq (map (predicted_class outputs num_steps (batch_size b)
                                     (out_features (fc3 (w_net w))))
                                (seq 0 (batch_size b))) (data (snd b))
                    = hits (w_net w) b outputs).
    { unfold hits. rewrite (@count_eq_seq _ (batch_size b) 0).
      - apply f_equal. apply filter_ext. intros e. rewrite Nat.sub_0_r. reflexivity.
      - destruct Hb as (_ & Wt & _). unfold wf in Wt. rewrite Wt, St. simpl. lia. }
    split.
    { cbn [test_outputs]. rewrite Eraw. cbn [rbind]. rewrite Esz. cbn [rbind].
      rewrite Eview. cbn [rbind]. rewrite Efw. cbn [rbind].
      change (w_rng w1) with g in Eouts. change (w_net w1) with (w_net w) in Eouts.
      rewrite Eouts. reflexivity. }
    split; [simpl; lia|].
    cbn [mfold]. erewrite bind_ok by exact Erun. rewrite E.
    change (w_net w1) with (w_net w). cbn [fst snd].
    unfold all_hits. cbn [combine map fst snd].
    assert (Hs : forall x l, list_sum (x :: l) = x + list_sum l) by reflexivity.
    rewrite !Hs, Hhits. f_equal. f_equal. f_equal; lia.
Qed.

Lemma test_loop_scored l w :
  Net_ok (w_net w) ->
  Forall (batch_fits (w_net w)) (fst (loader_iter l (w_rng w))) ->
  exists outs w',
    test_outputs (set_training false (w_net w)) (snd (loader_iter l (w_rng w)))
      (fst (loader_iter l (w_rng w))) = Ok outs
    /\ length outs = length (fst (loader_iter l (w_rng w)))
    /\ test_loop l w
       = (Ok (all_hits (w_net w) (fst (loader_iter l (w_rng w))) outs,
              list_sum (map batch_size (fst (loader_iter l (w_rng w))))), w').
Proof.
  intros Hnet Hall. rewrite test_loop_unfold. cbv zeta.
  unfold bind at 1 2. rewrite iterate_run.
  cbn [fst snd w_rng set_grad_enabled set_net log].
  set (w3 := set_rng _ _).
  destruct (@test_batches_scored (fst (loader_iter l (w_rng w))) (0, 0) w3)
    as (outs & w' & Eouts & Hlen & E).
  { exact Hnet. }
  { exact Hall. }
  exists outs. eexists. split; [exact Eouts|]. split; [exact Hlen|].
  rewrite E. reflexivity.
Qed.

(** C3.  With a comparison that is a strict weak order: on a test batch
    the loop body runs to its end; [total] grows by the number of
    examples and [correct] by the number of examples whose predicted
    class is their label, where the predicted class of example [e] is
    the first class whose spike count, summed over the time steps of the
    net's output, no other class exceeds; the net of the notebook has 10
    classes.  Over a test pass on well-formed batches, the net in
    evaluation mode is applied to the rate encoding of every batch the
    loader yields; [correct] is the number of examples of all batches
    whose predicted class is their label and [total] the number of
    examples; the cell prints [100 * correct / total], which lies
    between 0 and 100. *)
Theorem test_predicts_argmax_of_summed_spikes :
  (forall a, ltb a a = false) ->
  (forall a b c, ltb a b = true -> ltb b c = true -> ltb a c = true) ->
  (forall a b c, ltb a b = true -> ltb a c = true \/ ltb c b = true) ->
  (forall g, out_features (fc3 (fst (Net_init g))) = 10)
  /\ (forall acc b w,
     Net_ok (w_net w) -> batch_fits (w_net w) b ->
     exists spike_data outputs mem w',
       forward (w_net w) spike_data = Ok (outputs, mem)
       /\ test_batch acc b w
          = (Ok (fst acc
                 + length (filter
                     (fun e => predicted_class outputs num_steps (batch_size b)
                                 (out_features (fc3 (w_net w))) e
                               =? nth e (data (snd b)) 0)
                     (seq 0 (batch_size b))),
                 snd acc + batch_size b), w')
       /\ forall e, e < batch_size b ->
            let count := spike_count outputs num_steps (batch_size b)
                           (out_features (fc3 (w_net w))) e in
            let pred := predicted_class outputs num_steps (batch_size b)
                          (out_features (fc3 (w_net w))) e in
            pred < out_features (fc3 (w_net w))
            /\ (forall c, c < out_features (fc3 (w_net w)) ->
                  ltb (count pred) (count c) = false)
            /\ (forall c, c < pred -> ltb (count c) (count pred) = true))
  /\ (forall l w correct total w1,
        test_loop l w = (Ok (correct, total), w1) ->
        0 < total -> 0 < dataset_len l ->
        exists accuracy,
          test_cell l w
          = (Ok (correct, total, (Z.of_nat (100 * correct) # Pos.of_nat total)%Q,
                 accuracy),
             log (EvPrintAccuracy (Z.of_nat (100 * correct) # Pos.of_nat total)%Q) w1))
  /\ (forall l w,
        let batches := fst (loader_iter l (w_rng w)) in
        Net_ok (w_net w) ->
        Forall (batch_fits (w_net w)) batches ->
        batches <> [] -> 0 < dataset_len l ->
        exists outs accuracy w1,
          let correct := all_hits (w_net w) batches outs in
          let total := list_sum (map batch_size batches) in
          let printed := (Z.of_nat (100 * correct) # Pos.of_nat total)%Q in
          test_outputs (set_training false (w_net w))
            (snd (loader_iter l (w_rng w))) batches = Ok outs
          /\ length outs = length batches
          /\ test_loop l w = (Ok (correct, total), w1)
          /\ test_cell l w
             = (Ok (correct, total, printed, accuracy),
                log (EvPrintAccuracy printed) w1)
          /\ correct <= total /\ 0 < total
          /\ (0 <= printed <= 100)%Q).
Proof.
  intros Hirr Htr Hco.
  assert (Hcell : forall l w correct total w1,
            test_loop l w = (Ok (correct, total), w1) ->
            0 < total -> 0 < dataset_len l ->
            exists accuracy,
              test_cell l w
              = (Ok (correct, total,
                     (Z.of_nat (100 * correct) # Pos.of_nat total)%Q, accuracy),
                 log (EvPrintAccuracy
                        (Z.of_nat (100 * correct) # Pos.of_nat total)%Q) w1)).
  { intros l w correct total w1 E Hpos Hlen.
    exists (Z.of_nat (100 * correct) # Pos.of_nat (dataset_len l))%Q.
    unfold test_cell. erewrite bind_ok by exact E. cbv beta iota.
    erewrite bind_ok by (apply lift_ok, truediv_ok; exact Hpos).
    erewrite bind_ok by apply modify_run.
    erewrite bind_ok by (apply lift_ok, truediv_ok; exact Hlen).
    reflexivity. }
  split; [|split; [|split; [exact Hcell|]]].
  - intros g. unfold Net_init, nn_Linear.
    repeat match goal with |- context [init_param ?g ?s] =>
      destruct (init_param g s) end.
    reflexivity.
  - intros acc b w Hnet Hb.
    destruct (@test_batch_ok acc b w Hnet Hb)
      as (raw & g & sd & outputs & mem & _ & _ & Efw & _ & _ & St & Erun).
    exists sd, outputs, mem. eexists. split; [exact Efw|]. split.
    + rewrite Erun.
      rewrite (@count_eq_seq _ (batch_size b) 0).
      * erewrite filter_ext; [reflexivity|].
        intros e. rewrite Nat.sub_0_r. reflexivity.
      * destruct Hb as (_ & Wt & _). unfold wf in Wt. rewrite Wt, St. simpl. lia.
    + intros e He count0 pred.
      assert (HC : 0 < out_features (fc3 (w_net w))).
      { destruct Hb as (_ & Wt & B & rest & HB & _ & _ & St' & Hlab).
        unfold wf in Wt. rewrite St' in Wt. simpl in Wt.
        destruct (data (snd b)) as [|c0 cs]; [simpl in Wt; lia|].
        inversion Hlab; lia. }
      set (C := out_features (fc3 (w_net w))) in *.
      assert (Hlen : length (map count0 (seq 0 C)) = C)
        by (rewrite length_map, length_seq; reflexivity).
      destruct (@argmax_spec Hirr Htr Hco (map count0 (seq 0 C))) as (H1 & H2 & H3);
        [rewrite Hlen; exact HC|].
      change (argmax (map count0 (seq 0 C))) with pred in H1, H2, H3.
      rewrite Hlen in H1, H2.
      assert (Hnth : forall c, c < C -> nth c (map count0 (seq 0 C)) zero = count0 c).
      { intros c Hc. rewrite (nth_indep _ zero (count0 0)) by (rewrite Hlen; exact Hc).
        rewrite (map_nth count0 (seq 0 C) 0), seq_nth by exact Hc. reflexivity. }
      split; [exact H1|]. split.
      * intros c Hc. rewrite <- (Hnth pred H1), <- (Hnth c Hc). apply H2; exact Hc.
      * intros c Hc. rewrite <- (Hnth pred H1), <- (Hnth c) by lia. apply H3; exact Hc.
  - intros l w batches Hnet Hall Hne Hlen.
    destruct (@test_loop_scored l w Hnet Hall) as (outs & w1 & Eouts & Hl & E).
    fold batches in Eouts, Hl, E.
    destruct (@test_loop_ok l w _ _ Hnet eq_refl eq_refl Hall)
      as (c & t & w1' & sds & E' & Hle & Ht & _).
    rewrite E in E'. injection E' as Hc Htot _.
    assert (Hpos : 0 < list_sum (map batch_size batches))
      by (apply (batches_total Hall Hne)).
    destruct (Hcell l w _ _ w1 E Hpos Hlen) as (accuracy & Ecell).
    exists outs, accuracy, w1. cbv zeta.
    split; [exact Eouts|]. split; [exact Hl|]. split; [exact E|].
    split; [exact Ecell|].
    assert (Hle' : all_hits (w_net w) batches outs
                   <= list_sum (map batch_size batches)).
    { rewrite Hc. fold batches in Ht. rewrite <- Ht. exact Hle. }
    split; [exact Hle'|]. split; [exact Hpos|].
    apply accuracy_bounds; assumption.
Qed.

(** C4.  On a well-formed net and batch, a training batch is encoded by
    [spikegen.latency] and a test batch by [spikegen.rate], each over
    [num_steps] steps and each once; the net is applied to the encoder's
    output, reshaped to [num_steps] by batch by features.  No training
    batch calls the rate encoder and no test batch the latency one. *)
Theorem encoding_is_latency_in_training_rate_in_test :
  forall prev acc b w,
    Net_ok (w_net w) -> batch_fits (w_net w) b ->
    (exists raw n spike_data loss_val w',
       spikegen_latency (fst b) num_steps = Ok raw
       /\ size0 (fst b) = Ok n
       /\ view3 raw num_steps n = Ok spike_data
       /\ train_batch prev b w = (Ok (Some loss_val), w')
       /\ w_trace w' = w_trace w ++ train_events (b, (spike_data, loss_val))
       /\ count is_latency (train_events (b, (spike_data, loss_val))) = 1
       /\ count is_rate (train_events (b, (spike_data, loss_val))) = 0)
    /\ (exists raw g spike_data r w',
          spikegen_rate (w_rng w) (fst b) num_steps = (Ok raw, g)
          /\ view3 raw num_steps (batch_size b) = Ok spike_data
          /\ test_batch acc b w = (Ok r, w')
          /\ w_trace w' = w_trace w ++ test_events (b, spike_data)
          /\ count is_rate (test_events (b, spike_data)) = 1
          /\ count is_latency (test_events (b, spike_data)) = 0).
Proof.
  intros prev acc b w Hnet Hb. split.
  - destruct (@train_batch_ok prev b w Hnet Hb)
      as (raw & B & sd & outputs & mem_rec & mems & cs & Eraw & Esz & Eview & _ & _ & _
          & _ & _ & Erun).
    exists raw, B, sd. eexists. eexists.
    split; [exact Eraw|]. split; [exact Esz|]. split; [exact Eview|].
    split; [exact Erun|]. split; [|split; reflexivity].
    rewrite after_step_trace. unfold train_events; simpl.
    rewrite <- app_assoc. reflexivity.
  - destruct (@test_batch_ok acc b w Hnet Hb)
      as (raw & g & sd & outputs & mem & Eraw & Eview & _ & _ & _ & _ & Erun).
    exists raw, g, sd. eexists. eexists.
    split; [exact Eraw|]. split; [exact Eview|]. split; [exact Erun|].
    split; [|split; reflexivity].
    unfold test_events; simpl. rewrite <- app_assoc. reflexivity.
Qed.

(** C9.  Whatever the test loader yields and whether or not the cell
    raises, the test cell leaves every weight and bias as it was, and
    the gradients and the optimizer state too; it makes no [zero_grad],
    [backward] or optimizer call; the net ends in evaluation mode and
    gradient recording is as before the cell.  Within the loop nothing
    changes the net or switches gradient recording back on. *)
Theorem test_cell_leaves_parameters :
  (forall l w,
     parameters (w_net (snd (test_cell l w))) = parameters (w_net w)
     /\ training (w_net (snd (test_cell l w))) = false
     /\ w_grads (snd (test_cell l w)) = w_grads w
     /\ w_opt (snd (test_cell l w)) = w_opt w
     /\ w_grad_enabled (snd (test_cell l w)) = w_grad_enabled w
     /\ exists evs,
          w_trace (snd (test_cell l w)) = w_trace w ++ evs
          /\ forallb passive evs = true
          /\ count is_step evs = 0 /\ count is_backward evs = 0)
  /\ (forall l w,
        test_loop l w
        = let w0 := set_grad_enabled false
                      (set_net (set_training false) (log EvEvalMode w)) in
          let body := bind (iterate l) (fun batches => mfold test_batch batches (0, 0)) in
          (fst (body w0), set_grad_enabled (w_grad_enabled w) (snd (body w0))))
  /\ (forall batches acc w,
        w_net (snd (mfold test_batch batches acc w)) = w_net w
        /\ w_grad_enabled (snd (mfold test_batch batches acc w)) = w_grad_enabled w).
Proof.
  split; [|split].
  - intros l w.
    destruct (test_cell_frame l w) as (N & Tr & G & O & E & evs & T & Pv).
    do 5 (split; [assumption|]). exists evs.
    split; [exact T|]. split; [exact Pv|].
    clear T. unfold count.
    induction evs as [|c evs IH]; [split; reflexivity|].
    simpl in Pv. apply andb_true_iff in Pv as [Pc Pv].
    destruct (IH Pv) as [I1 I2].
    destruct c; simpl in *; try discriminate; auto.
  - apply test_loop_unfold.
  - intros batches acc w.
    pose proof (keeps_mfold frame_refl frame_trans test_batch batches keeps_test_batch acc w)
      as (N & _ & _ & E & _).
    split; assumption.
Qed.

(** C10.  On a well-formed net and batches, after any number of batches
    of the test loop the counters satisfy [correct <= total], with
    [total] the sum of the sizes of the batches processed; the rest of
    the loop continues from these counters; and with [total > 0] the
    accuracy [100 * correct / total] is defined and lies between 0 and
    100. *)
Theorem test_counters_invariant :
  forall done todo w,
    Net_ok (w_net w) -> Forall (batch_fits (w_net w)) (done ++ todo) ->
    exists correct total w',
      mfold test_batch done (0, 0) w = (Ok (correct, total), w')
      /\ mfold test_batch (done ++ todo) (0, 0) w
         = mfold test_batch todo (correct, total) w'
      /\ 0 <= correct /\ correct <= total
      /\ total = list_sum (map batch_size done)
      /\ (0 < total ->
          exists acc, truediv (100 * correct) total = Ok acc
                      /\ (0 <= acc <= 100)%Q).
Proof.
  intros done todo w Hnet Hall.
  apply Forall_app in Hall as [Hdone _].
  destruct (@test_batches_ok done (0, 0) w Hnet Hdone)
    as (c & t & w' & sds & E & _ & L2 & L3 & _).
  simpl in L2, L3.
  exists c, t, w'. split; [exact E|]. split.
  { clear - E. revert E. generalize (0, 0). revert w.
    induction done as [|b bs IH]; intros w acc E; simpl in *.
    - unfold ret in E. injection E as <- <-. reflexivity.
    - unfold bind in *. destruct (test_batch acc b w) as [[a|e] w1]; [|discriminate].
      apply IH; exact E. }
  split; [lia|]. split; [lia|]. split; [exact L3|].
  intros Hpos. eexists. split; [apply truediv_ok; exact Hpos|].
  apply accuracy_bounds; lia.
Qed.

Lemma initial_world_eq g :
  initial_world g
  = mkWorld (fst (Net_init g))
      (map (fun _ => None) (parameters (fst (Net_init g))))
      (adam_init (parameters (fst (Net_init g)))) (snd (Net_init g)) true [] None [].
Proof. unfold initial_world. destruct (Net_init g); reflexivity. Qed.

Lemma notebook_ok train_loader test_loader g :
  (forall g', Forall (batch_ok num_inputs num_outputs) (fst (loader_iter train_loader g'))
              /\ fst (loader_iter train_loader g') <> []) ->
  (forall g', Forall (batch_ok num_inputs num_outputs) (fst (loader_iter test_loader g'))
              /\ fst (loader_iter test_loader g') <> []) ->
  0 < dataset_len test_loader ->
  let w0 := initial_world g in
  let train_batches := fst (loader_iter train_loader (w_rng w0)) in
  let test_batches :=
    fst (loader_iter test_loader (snd (loader_iter train_loader (w_rng w0)))) in
  exists correct total printed accuracy w' infos v sds,
    notebook train_loader test_loader w0 = (Ok (correct, total, printed, accuracy), w')
    /\ length infos = length train_batches /\ length sds = length test_batches
    /\ w_trace w'
       = [EvTrainMode; EvIter train_loader]
         ++ concat (map train_events (combine train_batches infos))
         ++ [EvPrintEpoch 1 1 v; EvEvalMode; EvIter test_loader]
         ++ concat (map test_events (combine test_batches sds))
         ++ [EvPrintAccuracy printed]
    /\ truediv (100 * correct) total = Ok printed
    /\ truediv (100 * correct) (dataset_len test_loader) = Ok accuracy.
Proof.
  intros Htrain Htest Hlen w0 train_batches test_batches.
  destruct (Net_init_ok g) as (Hnet & _ & Hi & _ & _ & _ & _ & Ho).
  assert (Hn0 : w_net w0 = fst (Net_init g)) by (unfold w0; rewrite initial_world_eq; reflexivity).
  assert (Ht0 : w_trace w0 = []) by (unfold w0; rewrite initial_world_eq; reflexivity).
  rewrite <- Hn0 in Hnet, Hi, Ho.
  destruct (Htrain (w_rng w0)) as (Hall & Hne).
  destruct (@training_cell_ok train_loader w0 _ _ Hnet Hi Ho Hall Hne)
    as (v & w1 & infos & E1 & Hnet1 & Hi1 & Ho1 & Hrng1 & Hlen1 & Htr1).
  destruct (Htest (w_rng w1)) as (Hall2 & Hne2).
  destruct (@test_cell_ok test_loader w1 _ _ Hnet1 Hi1 Ho1 Hall2 Hne2 Hlen)
    as (c & t & printed & accuracy & w2 & sds & E2 & _ & _ & _ & Ep & Ea & Hlen2 & Htr2).
  exists c, t, printed, accuracy, w2, infos, v, sds.
  unfold notebook. erewrite bind_ok by exact E1.
  unfold test_batches, train_batches. rewrite <- Hrng1.
  split; [exact E2|]. split; [exact Hlen1|]. split; [exact Hlen2|].
  split; [|split; assumption].
  rewrite Htr2, Htr1, Ht0. cbn [app]. rewrite <- !app_assoc. reflexivity.
Qed.

Lemma accumulate_all_length olds : forall gs,
  length (accumulate_all olds gs) = length olds.
Proof.
  induction olds as [|o olds IH]; intros [|g gs]; simpl; auto.
Qed.

(** The training loop on well-formed batches is gradient descent with
    Adam from the net and the optimizer state it starts with. *)
Lemma train_batches_descent i o batches : forall prev w,
  Net_ok (w_net w) -> Forall (batch_ok i o) batches ->
  in_features (fc1 (w_net w)) = i -> out_features (fc3 (w_net w)) = o ->
  length (w_grads w) = length (parameters (w_net w)) ->
  exists last w' trained o',
    mfold train_batch batches prev w = (Ok last, w')
    /\ rfold descent_step batches (w_net w, w_opt w) = Ok (trained, o')
    /\ w_net w' = trained /\ w_opt w' = o'.
Proof.
  induction batches as [|b bs IH]; intros prev w Hnet Hall Hi Ho Hg.
  - exists prev, w, (w_net w), (w_opt w). repeat split.
  - inversion Hall as [|? ? Hb Hbs]; subst.
    assert (Hfit : batch_fits (w_net w) b) by exact Hb.
    destruct (@train_batch_ok prev b w Hnet Hfit)
      as (raw & B & sd & outputs & mem_rec & mems & cs & Eraw & Esz & Eview
          & _ & _ & _ & _ & _ & Erun).
    set (v := fold_left add cs zero) in *.
    set (w1 := after_step _ _ _ _ _) in Erun.
    pose proof (after_step_grads (log (EvLatency (fst b) num_steps) w) sd (snd b) v
                  (mkTensor [1] [v])) as G1.
    pose proof (after_step_net (log (EvLatency (fst b) num_steps) w) sd (snd b) v
                  (mkTensor [1] [v])) as N1.
    pose proof (after_step_loss_val (log (EvLatency (fst b) num_steps) w) sd (snd b) v
                  (mkTensor [1] [v])) as (_ & O1).
    fold w1 in G1, N1, O1. cbn [w_net w_opt w_grads log] in G1, N1, O1.
    rewrite (map_const_length (@None tensor) _ _ Hg) in G1.
    assert (Hok1 : Net_ok (w_net w1)).
    { rewrite N1. apply load_parameters_ok; [exact Hnet | apply adam_contract]. }
    assert (Hlay1 : same_layout (w_net w) (w_net w1)).
    { rewrite N1. apply load_parameters_layout. }
    pose proof Hlay1 as (F1 & _ & _ & _ & _ & F6 & _).
    destruct (IH (Some (mkTensor [1] [v])) w1 Hok1 Hbs) as
      (last & w' & trained & o' & E & D & En & Eo).
    { congruence. }
    { congruence. }
    { rewrite G1, accumulate_all_length, length_map. reflexivity. }
    exists last, w', trained, o'.
    cbn [mfold]. erewrite bind_ok by exact Erun.
    split; [exact E|]. split; [|split; assumption].
    cbn [rfold]. unfold descent_step at 1.
    rewrite Eraw; cbn [rbind]. rewrite Esz; cbn [rbind]. rewrite Eview; cbn [rbind].
    rewrite <- G1.
    destruct (adam_step optimizer_cfg (w_opt w) (parameters (w_net w)) (w_grads w1))
      as [ps' o1] eqn:Ea.
    cbn [fst snd] in N1, O1. cbn [rbind]. rewrite <- N1, <- O1. exact D.
Qed.

(** The training cell as one epoch: the calls before the batches, the
    batches, and the print, which reads the name [loss_val]. *)
Lemma training_cell_unfold l w :
  training_cell l w
  = let w3 := set_rng (snd (loader_iter l (w_rng w)))
                (log (EvIter l)
                   (set_net (set_training true)
                      (log EvTrainMode (set_loss_hist [] w)))) in
    match mfold train_batch (fst (loader_iter l (w_rng w))) None w3 with
    | (Ok _, w4) =>
        match w_loss_val w4 with
        | Some lv =>
            match item lv with
            | Ok v => (Ok tt, log (EvPrintEpoch 1 num_epochs v) w4)
            | Raise e => (Raise e, w4)
            end
        | None => (Raise NameError, w4)
        end
    | (Raise e, w4) => (Raise e, w4)
    end.
Proof.
  unfold training_cell. change (seq 0 num_epochs) with [0].
  cbn [mfold]. unfold train_epoch.
  erewrite bind_ok by apply modify_run.
  unfold bind at 1. unfold bind at 1.
  erewrite bind_ok by apply modify_run.
  erewrite bind_ok by apply modify_run.
  erewrite bind_ok by apply iterate_run.
  cbn [w_rng log set_net set_loss_hist]. cbv zeta.
  unfold bind, gets, lift, modify, ret.
  destruct (mfold train_batch _ None _) as [[last|e] w4]; [|reflexivity].
  destruct (w_loss_val w4) as [lv|]; [|reflexivity].
  destruct (item lv) as [v|e]; reflexivity.
Qed.

(** The net and the optimizer state the training cell leaves are those
    its batches leave. *)
Lemma training_cell_leaves l w :
  let w3 := set_rng (snd (loader_iter l (w_rng w)))
              (log (EvIter l)
                 (set_net (set_training true)
                    (log EvTrainMode (set_loss_hist [] w)))) in
  let r := mfold train_batch (fst (loader_iter l (w_rng w))) None w3 in
  w_net (snd (training_cell l w)) = w_net (snd r)
  /\ w_opt (snd (training_cell l w)) = w_opt (snd r)
  /\ w_grads (snd (training_cell l w)) = w_grads (snd r)
  /\ w_loss_hist (snd (training_cell l w)) = w_loss_hist (snd r)
  /\ w_loss_val (snd (training_cell l w)) = w_loss_val (snd r)
  /\ w_rng (snd (training_cell l w)) = w_rng (snd r)
  /\ w_grad_enabled (snd (training_cell l w)) = w_grad_enabled (snd r).
Proof.
  intros w3 r. rewrite training_cell_unfold. cbv zeta. fold w3. fold r.
  destruct r as [[last|e] w4]; cbn [fst snd]; [|repeat split].
  destruct (w_loss_val w4) as [lv|] eqn:Elv;
    [|cbn [snd]; rewrite ?Elv; repeat split].
  destruct (item lv) as [v|e];
    cbn [snd w_net w_opt w_grads w_loss_hist w_loss_val w_rng w_grad_enabled log];
    rewrite ?Elv; repeat split.
Qed.

Lemma test_loop_hist l w :
  w_loss_hist (snd (test_loop l w)) = w_loss_hist w.
Proof.
  rewrite test_loop_unfold. cbv zeta.
  set (w0 := set_grad_enabled false _).
  pose proof (keeps_test_body l w0) as (_ & _ & _ & _ & H & _).
  destruct (bind (iterate l) _ w0) as [r w1]; simpl in *. exact H.
Qed.

Lemma set_training_same b self : training self = b -> set_training b self = self.
Proof. intros <-. destruct self; reflexivity. Qed.

Lemma Net_init_training g : training (fst (Net_init g)) = true.
Proof.
  unfold Net_init, nn_Linear.
  repeat match goal with |- context [init_param ?g ?s] =>
    destruct (init_param g s) end.
  reflexivity.
Qed.

(** The notebook on well-formed loaders: the net it leaves is the net of
    [Net.__init__] after gradient descent over the training batches, in
    evaluation mode, and the counters are those of a test pass of that
    net. *)
Lemma notebook_trains train_loader test_loader g :
  (forall g', Forall (batch_ok num_inputs num_outputs) (fst (loader_iter train_loader g'))
              /\ fst (loader_iter train_loader g') <> []) ->
  (forall g', Forall (batch_ok num_inputs num_outputs) (fst (loader_iter test_loader g'))
              /\ fst (loader_iter test_loader g') <> []) ->
  0 < dataset_len test_loader ->
  let w0 := initial_world g in
  let g1 := snd (loader_iter train_loader (w_rng w0)) in
  let train_batches := fst (loader_iter train_loader (w_rng w0)) in
  let test_batches := fst (loader_iter test_loader g1) in
  exists correct total printed accuracy w' trained o' outs,
    notebook train_loader test_loader w0 = (Ok (correct, total, printed, accuracy), w')
    /\ rfold descent_step train_batches (w_net w0, w_opt w0) = Ok (trained, o')
    /\ w_net w' = set_training false trained /\ w_opt w' = o'
    /\ test_outputs (set_training false trained) (snd (loader_iter test_loader g1))
         test_batches = Ok outs
    /\ length outs = length test_batches
    /\ correct = all_hits trained test_batches outs
    /\ total = list_sum (map batch_size test_batches)
    /\ length (w_loss_hist w') = length train_batches.
Proof.
  intros Htrain Htest Hlen w0 g1 train_batches test_batches.
  destruct (Net_init_ok g) as (Hnet & _ & Hi & _ & _ & _ & _ & Ho).
  assert (Hn0 : w_net w0 = fst (Net_init g)) by (unfold w0; rewrite initial_world_eq; reflexivity).
  assert (Hg0 : length (w_grads w0) = length (parameters (w_net w0))).
  { unfold w0; rewrite initial_world_eq. cbn [w_grads w_net]. apply length_map. }
  assert (Hh0 : w_loss_hist w0 = []) by (unfold w0; rewrite initial_world_eq; reflexivity).
  assert (Htr0 : set_training true (w_net w0) = w_net w0).
  { apply set_training_same. rewrite Hn0. apply Net_init_training. }
  rewrite <- Hn0 in Hnet, Hi, Ho.
  destruct (Htrain (w_rng w0)) as (Hall & Hne).
  destruct (@training_cell_ok train_loader w0 _ _ Hnet Hi Ho Hall Hne)
    as (v & w1 & infos & E1 & Hnet1 & Hi1 & Ho1 & Hrng1 & _ & _).
  pose proof (training_cell_leaves train_loader w0) as L. cbv zeta in L.
  rewrite E1 in L. cbn [snd] in L. fold train_batches g1 in L.
  set (w3 := set_rng g1 _) in L.
  destruct (@train_batches_descent _ _ train_batches None w3 Hnet Hall Hi Ho Hg0)
    as (last & w4 & trained & o' & E4 & D & N4 & O4).
  destruct (@train_batches_ok _ _ train_batches None w3 Hnet Hall Hi Ho)
    as (last' & w4' & infos' & E4' & _ & _ & _ & _ & _ & _ & Hhist & _).
  rewrite E4 in E4'. injection E4' as _ <-.
  rewrite E4 in L. cbn [snd] in L.
  destruct L as (Ln & Lo & _ & Lh & _).
  change (w_net w3) with (set_training true (w_net w0)) in D.
  change (w_opt w3) with (w_opt w0) in D.
  change (w_loss_hist w3) with (@nil R) in Hhist.
  rewrite Htr0 in D.
  destruct (Htest (w_rng w1)) as (Hall2 & Hne2).
  assert (Hfit2 : Forall (batch_fits (w_net w1)) (fst (loader_iter test_loader (w_rng w1)))).
  { unfold batch_fits. rewrite Hi1, Ho1. exact Hall2. }
  destruct (@test_loop_scored test_loader w1 Hnet1 Hfit2) as (outs & wl & Eouts & Hl & El).
  destruct (@test_loop_ok test_loader w1 _ _ Hnet1 Hi1 Ho1 Hall2)
    as (c & t & wl' & sds & El' & _ & _ & Hnl & _).
  rewrite El in El'. injection El' as _ _ <-.
  pose proof (test_loop_frame test_loader w1) as (_ & _ & _ & Ol & _).
  rewrite El in Ol. cbn [snd] in Ol.
  assert (Hpos : 0 < list_sum (map batch_size (fst (loader_iter test_loader (w_rng w1)))))
    by (apply (batches_total Hall2 Hne2)).
  rewrite Hrng1 in Eouts, Hl, El, Hpos. fold g1 in Eouts, Hl, El, Hpos.
  fold test_batches in Eouts, Hl, El, Hpos.
  eexists. eexists. eexists. eexists. eexists. exists trained, o', outs.
  split.
  { unfold notebook. erewrite bind_ok by exact E1.
    unfold test_cell. erewrite bind_ok by exact El. cbv beta iota.
    erewrite bind_ok by (apply lift_ok, truediv_ok; exact Hpos).
    erewrite bind_ok by apply modify_run.
    erewrite bind_ok by (apply lift_ok, truediv_ok; exact Hlen).
    reflexivity. }
  split; [exact D|].
  split; [cbn [w_net log]; rewrite Hnl, Ln, N4; reflexivity|].
  split; [cbn [w_opt log]; rewrite Ol, Lo, O4; reflexivity|].
  split; [rewrite <- N4, <- Ln; exact Eouts|].
  split; [exact Hl|].
  split; [rewrite <- N4, <- Ln; reflexivity|].
  split; [reflexivity|].
  cbn [w_loss_hist log].
  pose proof (test_loop_hist test_loader w1) as K.
  rewrite El in K. cbn [snd] in K.
  rewrite K, Lh, Hhist. reflexivity.
Qed.

(** C7.  With loaders that yield at least one well-formed batch each:
    [num_epochs] is 1 and the optimizer is Adam with learning rate 5e-4
    and betas (0.9, 0.999), created over the parameters of the new net.
    The notebook runs to its end, and its calls are, in order: one
    switch to training mode and one iteration of the training loader,
    with one encoding, [zero_grad], forward pass, [backward] and
    optimizer step per training batch; the epoch's print; then one
    switch to evaluation mode and one iteration of the test loader, with
    one encoding and forward pass per test batch; and the print of the
    accuracy [100 * correct / total].  The net the notebook leaves is
    the new net after one Adam step per training batch, in order, each
    on the gradient of that batch's summed loss at the parameters the
    step before left; the test pass is made on that net, and [correct]
    and [total] are its hits and its examples; [loss_hist] holds one
    loss per training batch. *)
Theorem notebook_trains_one_epoch_then_tests_once :
  forall train_loader test_loader g,
    (forall g', Forall (batch_ok num_inputs num_outputs) (fst (loader_iter train_loader g'))
                /\ fst (loader_iter train_loader g') <> []) ->
    (forall g', Forall (batch_ok num_inputs num_outputs) (fst (loader_iter test_loader g'))
                /\ fst (loader_iter test_loader g') <> []) ->
    0 < dataset_len test_loader ->
    num_epochs = 1
    /\ optimizer_cfg = mkAdamCfg 5e-4 (0.9%Q, 0.999%Q)
    /\ let w0 := initial_world g in
       let train_batches := fst (loader_iter train_loader (w_rng w0)) in
       let g1 := snd (loader_iter train_loader (w_rng w0)) in
       let test_batches := fst (loader_iter test_loader g1) in
       exists correct total printed accuracy w' infos v sds,
         notebook train_loader test_loader w0
         = (Ok (correct, total, printed, accuracy), w')
         /\ length infos = length train_batches /\ length sds = length test_batches
         /\ w_trace w'
            = [EvTrainMode; EvIter train_loader]
              ++ concat (map train_events (combine train_batches infos))
              ++ [EvPrintEpoch 1 1 v; EvEvalMode; EvIter test_loader]
              ++ concat (map test_events (combine test_batches sds))
              ++ [EvPrintAccuracy printed]
         /\ count is_train_mode (w_trace w') = 1
         /\ count is_iter (w_trace w') = 2
         /\ count is_step (w_trace w') = length train_batches
         /\ count is_backward (w_trace w') = length train_batches
         /\ count is_zero_grad (w_trace w') = length train_batches
         /\ count is_forward (w_trace w') = length train_batches + length test_batches
         /\ truediv (100 * correct) total = Ok printed
         /\ w_net w0 = fst (Net_init g)
         /\ w_opt w0 = adam_init (parameters (fst (Net_init g)))
         /\ exists trained o' outs,
              rfold descent_step train_batches (w_net w0, w_opt w0)
              = Ok (trained, o')
              /\ w_net w' = set_training false trained /\ w_opt w' = o'
              /\ test_outputs (set_training false trained)
                   (snd (loader_iter test_loader g1)) test_batches = Ok outs
              /\ length outs = length test_batches
              /\ correct = all_hits trained test_batches outs
              /\ total = list_sum (map batch_size test_batches)
              /\ length (w_loss_hist w') = length train_batches.
Proof.
  intros train_loader test_loader g Htrain Htest Hlen.
  split; [reflexivity|]. split; [reflexivity|].
  intros w0 train_batches g1 test_batches.
  destruct (@notebook_ok train_loader test_loader g Htrain Htest Hlen)
    as (c & t & printed & accuracy & w' & infos & v & sds & E & L1 & L2 & Htr & Ep & _).
  destruct (@notebook_trains train_loader test_loader g Htrain Htest Hlen)
    as (c' & t' & printed' & accuracy' & w'' & trained & o' & outs & E' & D & Hn & Ho
        & Eouts & Hlo & Hc & Ht & Hh).
  fold w0 in E, L1, L2, Htr, E', D, Eouts, Hlo, Hc, Ht, Hh.
  fold train_batches in L1, L2, Htr, D, Hh. fold g1 in L2, Htr, Eouts, Hlo, Hc, Ht.
  fold test_batches in L2, Htr, Eouts, Hlo, Hc, Ht.
  rewrite E in E'. injection E' as <- <- <- <- <-.
  exists c, t, printed, accuracy, w', infos, v, sds.
  split; [exact E|]. split; [exact L1|]. split; [exact L2|]. split; [exact Htr|].
  assert (C1 : length (combine train_batches infos) = length train_batches)
    by (rewrite length_combine; lia).
  assert (C2 : length (combine test_batches sds) = length test_batches)
    by (rewrite length_combine; lia).
  assert (Hcounts :
            count is_train_mode (w_trace w') = 1
            /\ count is_iter (w_trace w') = 2
            /\ count is_step (w_trace w') = length train_batches
            /\ count is_backward (w_trace w') = length train_batches
            /\ count is_zero_grad (w_trace w') = length train_batches
            /\ count is_forward (w_trace w')
               = length train_batches + length test_batches).
  { rewrite Htr, !count_app.
    rewrite !(@count_concat_map _ is_train_mode train_events 0) by reflexivity.
    rewrite !(@count_concat_map _ is_train_mode test_events 0) by reflexivity.
    rewrite !(@count_concat_map _ is_iter train_events 0) by reflexivity.
    rewrite !(@count_concat_map _ is_iter test_events 0) by reflexivity.
    rewrite !(@count_concat_map _ is_step train_events 1) by reflexivity.
    rewrite !(@count_concat_map _ is_step test_events 0) by reflexivity.
    rewrite !(@count_concat_map _ is_backward train_events 1) by reflexivity.
    rewrite !(@count_concat_map _ is_backward test_events 0) by reflexivity.
    rewrite !(@count_concat_map _ is_zero_grad train_events 1) by reflexivity.
    rewrite !(@count_concat_map _ is_zero_grad test_events 0) by reflexivity.
    rewrite !(@count_concat_map _ is_forward train_events 1) by reflexivity.
    rewrite !(@count_concat_map _ is_forward test_events 1) by reflexivity.
    rewrite C1, C2. unfold count; cbn [filter length is_train_mode is_iter is_step
      is_backward is_zero_grad is_forward].
    repeat split; lia. }
  destruct Hcounts as (K1 & K2 & K3 & K4 & K5 & K6).
  do 6 (split; [assumption|]).
  split; [exact Ep|].
  split; [unfold w0; rewrite initial_world_eq; reflexivity|].
  split; [unfold w0; rewrite initial_world_eq; reflexivity|].
  exists trained, o', outs.
  split; [exact D|]. split; [exact Hn|]. split; [exact Ho|].
  split; [exact Eouts|]. split; [exact Hlo|]. split; [exact Hc|].
  split; [exact Ht | exact Hh].
Qed.

(** ** Further properties of the cells *)

(** *** Errors of [forward] *)

(** X1.  [forward] raises when it cannot read a slice or has nothing to
    stack: with zero steps [torch.stack] gets an empty list
    (RuntimeError); on a zero-dimensional input, and on a well-formed
    input with fewer time slices than steps, [x[step]] is out of range
    (IndexError). *)
Theorem forward_raises_without_enough_slices :
  (forall self x, Net_forward 0 self x = Raise RuntimeError)
  /\ (forall steps self x,
        0 < steps -> shape x = [] -> Net_forward steps self x = Raise IndexError)
  /\ (forall steps self x T pre,
        T < steps -> Net_ok self -> wf x ->
        shape x = T :: pre ++ [in_features (fc1 self)] ->
        Net_forward steps self x = Raise IndexError).
Proof.
  split; [reflexivity|]. split.
  - intros steps self x Hpos Hsh. destruct steps as [|n]; [lia|].
    unfold Net_forward. cbn [seq rfold]. unfold forward_step at 1.
    unfold select0. rewrite Hsh. reflexivity.
  - intros steps self x T pre Hlt Hnet Hwf Hsh.
    unfold Net_forward.
    replace steps with (T + S (steps - S T)) by lia.
    rewrite seq_app, rfold_app.
    destruct (forward_loop_ok Hnet Hwf Hsh (seq_below 0 T) (forward_init_ok self pre))
      as (st & E & _).
    rewrite E. cbn [rbind seq rfold Nat.add]. unfold forward_step at 1.
    unfold select0. rewrite Hsh, Nat.ltb_irrefl. reflexivity.
Qed.

(** X2.  The spikes and the potential recorded at step [t] depend on the
    input slices [x[0]], ..., [x[t]] alone: two runs of a well-formed
    net, on inputs that agree up to slice [t] and for any numbers of
    steps above [t], return the same slice [t] of both records. *)
Theorem forward_is_causal :
  forall steps steps' self x x' T T' pre t,
    steps <= T -> steps' <= T' -> t < steps -> t < steps' ->
    Net_ok self ->
    wf x -> shape x = T :: pre ++ [in_features (fc1 self)] ->
    wf x' -> shape x' = T' :: pre ++ [in_features (fc1 self)] ->
    (forall i, i <= t -> select0 x i = select0 x' i) ->
    exists spk mem spk' mem' s m,
      Net_forward steps self x = Ok (spk, mem)
      /\ Net_forward steps' self x' = Ok (spk', mem')
      /\ select0 spk t = Ok s /\ select0 spk' t = Ok s
      /\ select0 mem t = Ok m /\ select0 mem' t = Ok m.
Proof.
  intros steps steps' self x x' T T' pre t Hle Hle' Ht Ht' Hnet Hwf Hsh Hwf' Hsh' Hag.
  assert (Hpos : 0 < steps) by lia. assert (Hpos' : 0 < steps') by lia.
  destruct (@Net_forward_records steps self x T pre Hpos Hle Hnet Hwf Hsh)
    as (st & spk & mem & Est & Efw & Hrec).
  destruct (@Net_forward_records steps' self x' T' pre Hpos' Hle' Hnet Hwf' Hsh')
    as (st' & spk' & mem' & Est' & Efw' & Hrec').
  destruct (Hrec t Ht) as (s & m & Ns & Nm & Ss & Sm).
  destruct (Hrec' t Ht') as (s' & m' & Ns' & Nm' & Ss' & Sm').
  destruct (@forward_loop_cut self x steps t st Ht Est) as (a & Ea & As & Am).
  destruct (@forward_loop_cut self x' steps' t st' Ht' Est') as (a' & Ea' & As' & Am').
  assert (Eaa : a = a').
  { rewrite (@forward_loop_ext self x x' (seq 0 (S t))) in Ea.
    - congruence.
    - intros i Hi. apply in_seq in Hi. apply Hag. lia. }
  subst a'.
  assert (s' = s) by congruence. assert (m' = m) by congruence. subst s' m'.
  exists spk, mem, spk', mem', s, m. auto 10.
Qed.

(** *** Loaders that yield nothing *)

(** X3.  When the training loader yields no batch, the training cell
    empties the loss history, switches the net to training mode,
    iterates the loader once and reaches the epoch's print, which reads
    a [loss_val] that no batch of this run has bound.  If the name is
    unbound the cell raises NameError there; if an earlier run left a
    one-element tensor in it, the cell prints that stale loss and ends.
    Either way no parameter changes and [loss_val] stays as it was. *)
Theorem training_cell_without_batches :
  forall l w,
    fst (loader_iter l (w_rng w)) = [] ->
    (w_loss_val w = None ->
     exists w',
       training_cell l w = (Raise NameError, w')
       /\ w_trace w' = w_trace w ++ [EvTrainMode; EvIter l]
       /\ parameters (w_net w') = parameters (w_net w)
       /\ training (w_net w') = true
       /\ w_loss_hist w' = [] /\ w_loss_val w' = None)
    /\ (forall lv v,
          w_loss_val w = Some lv -> item lv = Ok v ->
          exists w',
            training_cell l w = (Ok tt, w')
            /\ w_trace w'
               = w_trace w ++ [EvTrainMode; EvIter l; EvPrintEpoch 1 num_epochs v]
            /\ parameters (w_net w') = parameters (w_net w)
            /\ training (w_net w') = true
            /\ w_loss_hist w' = [] /\ w_loss_val w' = Some lv).
Proof.
  intros l w Hnil. split.
  - intros Hlv. eexists. split.
    + rewrite training_cell_unfold. cbv zeta. rewrite Hnil. cbn [mfold].
      unfold ret. cbn [w_loss_val set_rng log set_net set_loss_hist].
      rewrite Hlv. reflexivity.
    + cbn [w_net w_loss_hist w_loss_val w_trace set_rng log set_net set_training
           set_loss_hist parameters training fc1 fc2 fc3].
      rewrite <- app_assoc. repeat split. exact Hlv.
  - intros lv v Hlv Hv. eexists. split.
    + rewrite training_cell_unfold. cbv zeta. rewrite Hnil. cbn [mfold].
      unfold ret. cbn [w_loss_val set_rng log set_net set_loss_hist].
      rewrite Hlv, Hv. reflexivity.
    + cbn [w_net w_loss_hist w_loss_val w_trace set_rng log set_net set_training
           set_loss_hist parameters training fc1 fc2 fc3].
      rewrite <- !app_assoc. repeat split. exact Hlv.
Qed.

(** X4.  When the test loader yields no batch, [total] is 0 and the test
    cell raises ZeroDivisionError at the accuracy; it prints nothing and
    its only calls are the switch to evaluation mode and the iteration
    of the loader. *)
Theorem test_cell_without_batches_raises :
  forall l w,
    fst (loader_iter l (w_rng w)) = [] ->
    exists w',
      test_cell l w = (Raise ZeroDivisionError, w')
      /\ test_loop l w = (Ok (0, 0), w')
      /\ w_trace w' = w_trace w ++ [EvEvalMode; EvIter l].
Proof.
  intros l w Hnil.
  assert (E : test_loop l w
              = (Ok (0, 0),
                 set_grad_enabled (w_grad_enabled w)
                   (set_rng (snd (loader_iter l (w_rng w)))
                      (log (EvIter l)
                         (set_grad_enabled false
                            (set_net (set_training false) (log EvEvalMode w))))))).
  { rewrite test_loop_unfold. cbv zeta.
    erewrite bind_ok by apply iterate_run.
    cbn [w_rng log set_net set_grad_enabled]. rewrite Hnil. reflexivity. }
  eexists. split; [|split; [exact E|]].
  - unfold test_cell. erewrite bind_ok by exact E. cbv beta iota.
    unfold bind, lift. reflexivity.
  - cbn [w_trace set_grad_enabled set_rng log set_net].
    rewrite <- app_assoc. reflexivity.
Qed.

(** *** Gradients do not pass from one batch to the next *)

(** X5.  With gradient recording on, a training batch that runs to its
    end does so in the same way, with the same loss, gradients and new
    parameters, whatever gradients were stored before it: [zero_grad]
    discards them before the backward pass. *)
Theorem train_batch_ignores_stale_gradients :
  forall prev b w gs r w',
    w_grad_enabled w = true ->
    length gs = length (w_grads w) ->
    train_batch prev b w = (Ok r, w') ->
    train_batch prev b (set_grads gs w) = (Ok r, w').
Proof.
  intros prev [dat targets] w gs r w' _ Hlen H.
  unfold train_batch in *. unfold latency, zero_grad in *.
  unfold bind, modify, lift, gets, ret in *.
  cbn [fst snd] in *.
  destruct (spikegen_latency dat num_steps) as [raw|]; [|discriminate].
  destruct (size0 dat) as [n|]; [|discriminate].
  destruct (view3 raw num_steps n) as [sd|]; [|discriminate].
  cbn [w_grads log set_grads] in *.
  rewrite (map_const_length None gs (w_grads w) Hlen).
  exact H.
Qed.

(** *** What training keeps, and what it prints *)

Lemma train_batches_hist i o batches : forall prev w,
  Net_ok (w_net w) -> Forall (batch_ok i o) batches ->
  in_features (fc1 (w_net w)) = i -> out_features (fc3 (w_net w)) = o ->
  exists last w' vs,
    mfold train_batch batches prev w = (Ok last, w')
    /\ w_loss_hist w' = w_loss_hist w ++ vs
    /\ length vs = length batches
    /\ last = match rev vs with
              | [] => prev
              | v :: _ => Some (mkTensor [1] [v])
              end.
Proof.
  induction batches as [|b bs IH]; intros prev w Hnet Hall Hi Ho.
  - exists prev, w, []. rewrite app_nil_r. repeat split.
  - inversion Hall as [|? ? Hb Hbs]; subst.
    assert (Hfit : batch_fits (w_net w) b) by exact Hb.
    destruct (@train_batch_ok prev b w Hnet Hfit)
      as (raw & B & sd & outputs & mem_rec & mems & cs & _ & _ & _ & _ & _ & _ & _ & _ & Erun).
    set (v := fold_left add cs zero) in *.
    set (w1 := after_step _ _ _ _ _) in Erun.
    assert (Hn1 : w_net w1 = load_parameters (w_net w)
              (fst (adam_step optimizer_cfg (w_opt w) (parameters (w_net w)) (w_grads w1)))).
    { unfold w1. rewrite after_step_net. reflexivity. }
    assert (Hok1 : Net_ok (w_net w1)).
    { rewrite Hn1. apply load_parameters_ok; [exact Hnet | apply adam_contract]. }
    assert (Hlay1 : same_layout (w_net w) (w_net w1)).
    { rewrite Hn1. apply load_parameters_layout. }
    pose proof Hlay1 as (F1 & _ & _ & _ & _ & F6 & _).
    destruct (IH (Some (mkTensor [1] [v])) w1 Hok1) as (last & w' & vs & E & Hh & Hl & Hlast);
      [ exact Hbs | congruence | congruence | ].
    pose proof (after_step_rest (log (EvLatency (fst b) num_steps) w) sd (snd b) v
                  (mkTensor [1] [v])) as (_ & _ & R3).
    fold w1 in R3.
    exists last, w', (v :: vs).
    cbn [mfold]. erewrite bind_ok by exact Erun.
    split; [exact E|]. split.
    { rewrite Hh, R3. cbn [w_loss_hist log]. rewrite <- app_assoc. reflexivity. }
    split; [simpl; lia|].
    rewrite Hlast. cbn [rev].
    destruct (rev vs) as [|v' vs']; reflexivity.
Qed.

Lemma training_cell_full l w i o :
  Net_ok (w_net w) ->
  in_features (fc1 (w_net w)) = i -> out_features (fc3 (w_net w)) = o ->
  Forall (batch_ok i o) (fst (loader_iter l (w_rng w))) ->
  fst (loader_iter l (w_rng w)) <> [] ->
  exists w' vs v evs,
    training_cell l w = (Ok tt, w')
    /\ Net_ok (w_net w')
    /\ same_layout (set_training true (w_net w)) (w_net w')
    /\ w_rng w' = snd (loader_iter l (w_rng w))
    /\ w_grad_enabled w' = w_grad_enabled w
    /\ w_loss_hist w' = vs ++ [v]
    /\ S (length vs) = length (fst (loader_iter l (w_rng w)))
    /\ w_loss_val w' = Some (mkTensor [1] [v])
    /\ w_trace w' = w_trace w ++ evs ++ [EvPrintEpoch 1 1 v].
Proof.
  intros Hnet Hi Ho Hall Hne.
  rewrite training_cell_unfold. cbv zeta.
  set (bs := fst (loader_iter l (w_rng w))) in *.
  set (w3 := set_rng (snd (loader_iter l (w_rng w)))
               (log (EvIter l)
                  (set_net (set_training true)
                     (log EvTrainMode (set_loss_hist [] w))))).
  destruct (@train_batches_ok i o bs None w3 Hnet Hall Hi Ho)
    as (last & w4 & infos & E & Hok & Hlay & Hrng & Hge & _ & Htr & _ & _ & Hcons).
  destruct (@train_batches_hist i o bs None w3 Hnet Hall Hi Ho)
    as (last' & w4' & vs & E' & Hh & Hl & Hlast).
  rewrite E in E'. injection E' as <- <-.
  destruct (Hcons Hne) as (v0 & Elast & Hlv).
  destruct (rev vs) as [|v rvs] eqn:Erev.
  { apply (f_equal (@length R)) in Erev. rewrite length_rev, Hl in Erev.
    destruct bs; [congruence | discriminate]. }
  assert (Evs : vs = rev rvs ++ [v]).
  { rewrite <- (rev_involutive vs), Erev. reflexivity. }
  rewrite Hlast in Hlv.
  exists (log (EvPrintEpoch 1 num_epochs v) w4), (rev rvs), v.
  exists ([EvTrainMode; EvIter l] ++ concat (map train_events (combine bs infos))).
  split.
  { rewrite E, Hlv. reflexivity. }
  split; [exact Hok|]. split; [exact Hlay|].
  split; [exact Hrng|]. split; [exact Hge|].
  split; [cbn [w_loss_hist log]; rewrite Hh, Evs; reflexivity|].
  split; [rewrite <- Hl, Evs, length_app, length_rev; simpl; lia|].
  split; [exact Hlv|].
  cbn [w_trace log]. rewrite Htr.
  unfold w3; cbn [w_trace set_rng log set_net set_loss_hist].
  rewrite <- !app_assoc. reflexivity.
Qed.

(** X6.  Training changes parameter values only: after the training
    cell, run with gradient recording on, the three linear layers have
    the sizes they had, the LIF layers are the same, every parameter tensor is well-formed with the shape
    its layer prescribes, and the net is in training mode.  Gradient
    recording is as before, and the generator has advanced by the one
    shuffle of the loader: latency coding draws nothing. *)
Theorem training_keeps_the_architecture :
  forall l w,
    w_grad_enabled w = true ->
    Net_ok (w_net w) ->
    Forall (batch_fits (w_net w)) (fst (loader_iter l (w_rng w))) ->
    fst (loader_iter l (w_rng w)) <> [] ->
    exists w',
      training_cell l w = (Ok tt, w')
      /\ Net_ok (w_net w')
      /\ topology (w_net w') = topology (w_net w)
      /\ chain (w_net w') = chain (w_net w)
      /\ training (w_net w') = true
      /\ w_grad_enabled w' = w_grad_enabled w
      /\ w_rng w' = snd (loader_iter l (w_rng w)).
Proof.
  intros l w _ Hnet Hall Hne.
  destruct (@training_cell_full l w _ _ Hnet eq_refl eq_refl Hall Hne)
    as (w' & vs & v & evs & E & Hok & Hlay & Hrng & Hge & _).
  exists w'. split; [exact E|]. split; [exact Hok|].
  destruct Hlay as (F1 & F2 & F3 & F4 & F5 & F6 & L1 & L2 & L3 & Tr).
  cbn [set_training fc1 fc2 fc3 lif1 lif2 lif3 training
       in_features out_features] in *.
  assert (Htop : topology (w_net w') = topology (w_net w)).
  { unfold topology, children; cbn [map stage_of].
    rewrite F1, F2, F3, F4, F5, F6, L1, L2, L3. reflexivity. }
  split; [exact Htop|].
  split; [unfold chain; rewrite Htop, F1; reflexivity|].
  split; [exact Tr|]. split; [exact Hge | exact Hrng].
Qed.

(** X7.  The training cell, run with gradient recording on, starts from
    an empty [loss_hist], whatever an earlier run left in it, and
    appends one loss per batch; the loss it prints for the epoch is the
    last of them, the loss of the last batch, which is also what
    [loss_val] is left bound to; the print is the last call of the
    cell. *)
Theorem epoch_prints_the_last_batch_loss :
  forall l w,
    w_grad_enabled w = true ->
    Net_ok (w_net w) ->
    Forall (batch_fits (w_net w)) (fst (loader_iter l (w_rng w))) ->
    fst (loader_iter l (w_rng w)) <> [] ->
    exists w' v evs,
      training_cell l w = (Ok tt, w')
      /\ length (w_loss_hist w') = length (fst (loader_iter l (w_rng w)))
      /\ last (w_loss_hist w') v = v
      /\ nth_error (w_loss_hist w') (length (w_loss_hist w') - 1) = Some v
      /\ w_loss_val w' = Some (mkTensor [1] [v])
      /\ w_trace w' = w_trace w ++ evs ++ [EvPrintEpoch 1 num_epochs v].
Proof.
  intros l w _ Hnet Hall Hne.
  destruct (@training_cell_full l w _ _ Hnet eq_refl eq_refl Hall Hne)
    as (w' & vs & v & evs & E & _ & _ & _ & _ & Hh & Hl & Hlv & Htr).
  exists w', v, evs.
  split; [exact E|]. rewrite Hh.
  split; [rewrite length_app; simpl; lia|].
  split; [apply last_last|].
  split; [|split; [exact Hlv | exact Htr]].
  rewrite length_app; simpl.
  rewrite nth_error_app2 by lia.
  replace (length vs + 1 - 1 - length vs) with 0 by lia. reflexivity.
Qed.

(** *** The two accuracies of the test cell *)

Lemma accuracy_eq_iff c t n :
  0 < c -> 0 < t -> 0 < n ->
  ((Z.of_nat (100 * c) # Pos.of_nat n) == (Z.of_nat (100 * c) # Pos.of_nat t))%Q
  -> n = t.
Proof.
  intros Hc Ht Hn. unfold Qeq; cbn [Qnum Qden].
  assert (En : Z.pos (Pos.of_nat n) = Z.of_nat n)
    by (rewrite <- positive_nat_Z, Nat2Pos.id by lia; reflexivity).
  assert (Et : Z.pos (Pos.of_nat t) = Z.of_nat t)
    by (rewrite <- positive_nat_Z, Nat2Pos.id by lia; reflexivity).
  rewrite En, Et. intros H.
  apply Z.mul_reg_l in H; lia.
Qed.

(** X8.  The test cell computes the accuracy twice, over the examples
    counted in the loop for the print and over the length of the
    dataset for the variable [accuracy].  The two are the same number
    when the batches processed add up to the dataset; and when at least
    one prediction is correct they are equal only then. *)
Theorem accuracy_variable_agrees_with_print :
  forall l w,
    Net_ok (w_net w) ->
    Forall (batch_fits (w_net w)) (fst (loader_iter l (w_rng w))) ->
    fst (loader_iter l (w_rng w)) <> [] ->
    0 < dataset_len l ->
    exists correct total printed accuracy w',
      test_cell l w = (Ok (correct, total, printed, accuracy), w')
      /\ total = list_sum (map batch_size (fst (loader_iter l (w_rng w))))
      /\ (dataset_len l = total -> accuracy = printed)
      /\ (0 < correct -> (accuracy == printed)%Q -> dataset_len l = total).
Proof.
  intros l w Hnet Hall Hne Hlen.
  destruct (@test_cell_ok l w _ _ Hnet eq_refl eq_refl Hall Hne Hlen)
    as (c & t & printed & accuracy & w' & sds & E & _ & Hpos & Ht & Ep & Ea & _).
  rewrite (truediv_ok _ Hpos) in Ep. rewrite (truediv_ok _ Hlen) in Ea.
  injection Ep as <-. injection Ea as <-.
  exists c, t. eexists. eexists. exists w'.
  split; [exact E|]. split; [exact Ht|]. split.
  - intros ->. reflexivity.
  - intros Hc Heq. eapply accuracy_eq_iff; eauto.
Qed.

(** *** The predicted class is the first maximum *)

Lemma predicted_class_spec :
  (forall a, ltb a a = false) ->
  (forall a b c, ltb a b = true -> ltb b c = true -> ltb a c = true) ->
  (forall a b c, ltb a b = true -> ltb a c = true \/ ltb c b = true) ->
  forall outputs steps B C b,
    0 < C ->
    predicted_class outputs steps B C b < C
    /\ (forall c, c < C ->
          ltb (spike_count outputs steps B C b (predicted_class outputs steps B C b))
              (spike_count outputs steps B C b c) = false)
    /\ (forall c, c < predicted_class outputs steps B C b ->
          ltb (spike_count outputs steps B C b c)
              (spike_count outputs steps B C b (predicted_class outputs steps B C b))
          = true).
Proof.
  intros Hirr Htr Hco outputs steps B C b HC.
  set (cnt := spike_count outputs steps B C b).
  set (p := predicted_class outputs steps B C b).
  assert (Hlen : length (map cnt (seq 0 C)) = C)
    by (rewrite length_map, length_seq; reflexivity).
  destruct (@argmax_spec Hirr Htr Hco (map cnt (seq 0 C))) as (H1 & H2 & H3);
    [rewrite Hlen; exact HC|].
  change (argmax (map cnt (seq 0 C))) with p in H1, H2, H3.
  rewrite Hlen in H1, H2.
  assert (Hnth : forall c, c < C -> nth c (map cnt (seq 0 C)) zero = cnt c).
  { intros c Hc. rewrite (nth_indep _ zero (cnt 0)) by (rewrite Hlen; exact Hc).
    rewrite (map_nth cnt (seq 0 C) 0), seq_nth by exact Hc. reflexivity. }
  split; [exact H1|]. split.
  - intros c Hc. rewrite <- (Hnth p H1), <- (Hnth c Hc). apply H2; exact Hc.
  - intros c Hc. assert (c < C) by lia.
    rewrite <- (Hnth p H1), <- (Hnth c) by assumption. apply H3; exact Hc.
Qed.

(** X9.  With a comparison that is a strict weak order, the predicted
    class of an example is determined by its spike counts: it is the one
    class that no class exceeds and that exceeds every class before it.
    In particular ties go to the lower class, and an example on which
    all classes have the same count, such as one with no output spike at
    all, is predicted as class 0. *)
Theorem predicted_class_is_the_first_maximum :
  (forall a, ltb a a = false) ->
  (forall a b c, ltb a b = true -> ltb b c = true -> ltb a c = true) ->
  (forall a b c, ltb a b = true -> ltb a c = true \/ ltb c b = true) ->
  (forall outputs steps B C b i,
     i < C ->
     (forall c, c < C ->
        ltb (spike_count outputs steps B C b i) (spike_count outputs steps B C b c)
        = false) ->
     (forall c, c < i ->
        ltb (spike_count outputs steps B C b c) (spike_count outputs steps B C b i)
        = true) ->
     predicted_class outputs steps B C b = i)
  /\ (forall outputs steps B C b,
        0 < C ->
        (forall c, c < C ->
           spike_count outputs steps B C b c = spike_count outputs steps B C b 0) ->
        predicted_class outputs steps B C b = 0).
Proof.
  intros Hirr Htr Hco.
  assert (Huniq : forall outputs steps B C b i,
     i < C ->
     (forall c, c < C ->
        ltb (spike_count outputs steps B C b i) (spike_count outputs steps B C b c)
        = false) ->
     (forall c, c < i ->
        ltb (spike_count outputs steps B C b c) (spike_count outputs steps B C b i)
        = true) ->
     predicted_class outputs steps B C b = i).
  { intros outputs steps B C b i Hi Hmax Hfirst.
    destruct (@predicted_class_spec Hirr Htr Hco outputs steps B C b) as (P1 & P2 & P3);
      [lia|].
    set (p := predicted_class outputs steps B C b) in *.
    destruct (Nat.lt_trichotomy p i) as [Hlt|[Heq|Hgt]]; [|exact Heq|].
    - pose proof (Hfirst p Hlt) as A. rewrite (P2 i Hi) in A. discriminate.
    - pose proof (P3 i Hgt) as A. rewrite (Hmax p P1) in A. discriminate. }
  split; [exact Huniq|].
  intros outputs steps B C b HC Hall.
  apply Huniq; [exact HC | | intros c Hc; lia].
  intros c Hc. rewrite (Hall c Hc). apply Hirr.
Qed.

(** *** The test depends on the parameters and the generator only *)

Section Respects.

Variable P : World -> World -> Prop.

Lemma respects_ret {A} (a : A) : respects P (ret a).
Proof. intros w w2 H; split; [reflexivity | exact H]. Qed.

Lemma respects_lift {A} (r : Result A) : respects P (lift r).
Proof. intros w w2 H; split; [reflexivity | exact H]. Qed.

Lemma respects_modify (f : World -> World) :
  (forall w w2, P w w2 -> P (f w) (f w2)) -> respects P (modify f).
Proof. intros Hf w w2 H; split; [reflexivity | apply Hf; exact H]. Qed.

Lemma respects_bind {A B} (c : M A) (k : A -> M B) :
  respects P c -> (forall a, respects P (k a)) -> respects P (bind c k).
Proof.
  intros Hc Hk w w2 H. unfold bind.
  destruct (Hc w w2 H) as [E S].
  destruct (c w) as [[a|e] w1], (c w2) as [[a2|e2] w3]; simpl in *;
    try discriminate.
  - injection E as <-. apply Hk; exact S.
  - injection E as <-. split; [reflexivity | exact S].
Qed.

Lemma respects_mfold {A B} (f : A -> B -> M A) l :
  (forall a b, respects P (f a b)) -> forall a, respects P (mfold f l a).
Proof.
  intros Hf; induction l as [|b l IH]; intros a; simpl.
  - apply respects_ret.
  - apply respects_bind; [apply Hf | exact IH].
Qed.

End Respects.

Lemma seeded_log c : respects same_seed (modify (log c)).
Proof. apply respects_modify. intros w w2 H; exact H. Qed.

Lemma seeded_rate dat n : respects same_seed (rate dat n).
Proof.
  intros w w2 [Hn Hr]. unfold rate, bind, modify; simpl. rewrite Hr.
  destruct (spikegen_rate (w_rng w2) dat n) as [r g]; simpl.
  split; [reflexivity|]. split; [exact Hn | reflexivity].
Qed.

Lemma seeded_iterate l : respects same_seed (iterate l).
Proof.
  intros w w2 [Hn Hr]. rewrite !iterate_run. simpl. rewrite Hr.
  split; [reflexivity|]. split; [exact Hn | reflexivity].
Qed.

Lemma seeded_call_net x : respects same_seed (call_net x).
Proof.
  intros w w2 [Hn Hr]. rewrite !call_net_run. simpl. rewrite Hn.
  split; [reflexivity|]. split; [exact Hn | exact Hr].
Qed.

Ltac seeded_step :=
  first
    [ apply respects_ret
    | apply respects_lift
    | apply seeded_log
    | apply seeded_rate
    | apply seeded_iterate
    | apply seeded_call_net
    | apply respects_bind; [| intros ]
    | match goal with |- respects _ (let (_, _) := ?p in _) => destruct p end ].

Lemma seeded_test_batch acc b : respects same_seed (test_batch acc b).
Proof.
  unfold test_batch. destruct acc as [correct total], b as [dat targets].
  repeat seeded_step.
Qed.

Lemma seeded_test_loop l : respects same_seed (test_loop l).
Proof.
  intros w w2 H. rewrite !test_loop_unfold. cbv zeta.
  set (w0 := set_grad_enabled false (set_net (set_training false) (log EvEvalMode w))).
  set (w02 := set_grad_enabled false (set_net (set_training false) (log EvEvalMode w2))).
  assert (H0 : same_seed w0 w02).
  { destruct H as [Hn Hr]. split; simpl; congruence. }
  assert (Hbody : respects same_seed
                    (bind (iterate l)
                       (fun batches => mfold test_batch batches (0, 0)))).
  { apply respects_bind; [apply seeded_iterate|]. intros batches.
    apply respects_mfold. intros; apply seeded_test_batch. }
  destruct (Hbody w0 w02 H0) as [E [Sn Sr]].
  cbn [fst snd]. split; [exact E|]. split; simpl; assumption.
Qed.

(** X10.  What the test cell returns (the counters and both accuracies,
    or the exception) depends on the state it starts from through the
    net and the random generator only: not on the gradients, the
    optimizer state, the loss history, the gradient mode or the calls
    made before. *)
Theorem test_result_depends_on_net_and_generator :
  forall l w w2,
    w_net w = w_net w2 -> w_rng w = w_rng w2 ->
    fst (test_cell l w) = fst (test_cell l w2).
Proof.
  intros l w w2 Hn Hr.
  assert (Hcell : respects same_seed (test_cell l)).
  { unfold test_cell. apply respects_bind; [apply seeded_test_loop|].
    intros [correct total]. repeat seeded_step. }
  apply Hcell. split; assumption.
Qed.

Lemma test_batch_counts acc b w r w' :
  test_batch acc b w = (Ok r, w') ->
  fst acc <= fst r /\ snd r = snd acc + batch_size b.
Proof.
  destruct acc as [correct total], b as [dat targets].
  unfold test_batch, rate, call_net.
  unfold bind, modify, lift, gets, ret. cbn [fst snd].
  destruct (spikegen_rate _ dat num_steps) as [[raw|e] g]; [|discriminate].
  destruct (size0 dat) as [n|e]; [|discriminate].
  destruct (view3 raw num_steps n) as [sd|e]; [|discriminate].
  destruct (forward _ sd) as [[o m]|e]; [|discriminate].
  destruct (sum0 o) as [sm|e]; [|discriminate].
  destruct (max1_indices sm) as [pred|e]; [|discriminate].
  destruct (eq_sum pred targets) as [c|e]; [|discriminate].
  unfold size0, batch_size. cbn [snd].
  destruct (shape targets) as [|k sh]; [discriminate|].
  intros H; injection H as <- _. cbn [fst snd]. split; [lia | reflexivity].
Qed.

Lemma test_batches_count batches :
  forall acc w r w',
    mfold test_batch batches acc w = (Ok r, w') ->
    fst acc <= fst r /\ snd r = snd acc + list_sum (map batch_size batches).
Proof.
  induction batches as [|b batches IH]; intros acc w r w' H.
  - injection H as <- _. simpl. split; lia.
  - cbn [mfold] in H. unfold bind in H.
    destruct (test_batch acc b w) as [[a1|e] w1] eqn:E; [|discriminate].
    destruct (test_batch_counts _ _ _ E) as [H1 H2].
    destruct (IH _ _ _ _ H) as [H3 H4].
    change (list_sum (map batch_size (b :: batches)))
      with (batch_size b + list_sum (map batch_size batches)).
    split; lia.
Qed.

(** X11.  Whenever the test loop runs to its end, [total] is the number
    of labels the loader yielded, the sum of [targets.size(0)] over the
    batches, whatever the batches hold and whatever the layers and the
    encoder compute. *)
Theorem total_counts_every_label :
  forall l w correct total w',
    test_loop l w = (Ok (correct, total), w') ->
    total = list_sum (map batch_size (fst (loader_iter l (w_rng w)))).
Proof.
  intros l w correct total w' H. rewrite test_loop_unfold in H. cbv zeta in H.
  unfold bind at 1 2 in H. rewrite iterate_run in H.
  cbn [fst snd w_rng set_grad_enabled set_net log] in H.
  match type of H with
  | context [mfold test_batch ?bs ?a ?w1] =>
      destruct (mfold test_batch bs a w1) as [[r|e] w2] eqn:E
  end; cbn [fst snd] in H; [|discriminate].
  injection H as -> _.
  destruct (test_batches_count _ _ _ E) as [_ Ht]. exact Ht.
Qed.

(** X12.  The reshape before the forward pass keeps the time axis and the
    examples apart: slice [t] of the reshaped tensor holds the values of
    time step [t] of the encoder's output, and within it row [b] holds
    the values of example [b], flattened. *)
Theorem reshape_keeps_time_slices :
  forall (raw : tensor) n B rest t b,
    0 < B -> wf raw -> shape raw = n :: B :: rest -> t < n -> b < B ->
    exists spike_data frame step img row,
      view3 raw n B = Ok spike_data
      /\ select0 raw t = Ok frame /\ select0 spike_data t = Ok step
      /\ shape step = [B; numel rest] /\ data step = data frame
      /\ select0 frame b = Ok img /\ select0 step b = Ok row
      /\ shape row = [numel rest] /\ data row = data img.
Proof.
  intros raw n B rest t b HB Hwf Hsh Ht Hb.
  assert (Hn : 0 < n) by lia.
  destruct (view3_ok Hn HB Hwf Hsh) as [Ev _].
  apply Nat.ltb_lt in Ht as Ht'. apply Nat.ltb_lt in Hb as Hb'.
  exists (mkTensor [n; B; numel rest] (data raw)),
         (mkTensor (B :: rest) (chunk (numel (B :: rest)) t (data raw))),
         (mkTensor [B; numel rest] (chunk (numel (B :: rest)) t (data raw))),
         (mkTensor rest
            (chunk (numel rest) b (chunk (numel (B :: rest)) t (data raw)))),
         (mkTensor [numel rest]
            (chunk (numel rest) b (chunk (numel (B :: rest)) t (data raw)))).
  assert (E1 : numel [B; numel rest] = numel (B :: rest)) by (simpl; lia).
  assert (E2 : numel [numel rest] = numel rest) by (simpl; lia).
  split; [exact Ev|].
  split; [unfold select0; rewrite Hsh, Ht'; reflexivity|].
  split; [unfold select0; cbn [shape data]; rewrite Ht', E1; reflexivity|].
  split; [reflexivity|]. split; [reflexivity|].
  split; [unfold select0; cbn [shape data]; rewrite Hb'; reflexivity|].
  split; [unfold select0; cbn [shape data]; rewrite Hb', E2; reflexivity|].
  split; reflexivity.
Qed.

Lemma same_start_log c w w2 : same_start w w2 -> same_start (log c w) (log c w2).
Proof. intros H; exact H. Qed.

Ltac world_fields :=
  cbn [fst snd w_net w_opt w_rng w_grads w_loss_val w_loss_hist w_grad_enabled
       log set_grads set_net set_opt set_rng push_loss set_loss_val set_loss_hist].

Ltac related_worlds Hn :=
  split; [reflexivity|];
  repeat split; world_fields; rewrite <- ?Hn; assumption || reflexivity.

Ltac related_train_batch Hn Ho Hl dat targets :=
  unfold train_batch, latency, zero_grad, call_net, backward, optimizer_step;
  unfold bind, modify, lift, gets, ret;
  world_fields;
  rewrite <- Hn, (map_const_length (@None tensor) _ _ Hl);
  destruct (spikegen_latency dat num_steps); [|related_worlds Hn];
  destruct (size0 dat); [|related_worlds Hn];
  match goal with
  | |- context [view3 ?r ?s ?n] => destruct (view3 r s n); [|related_worlds Hn]
  end;
  match goal with
  | |- context [forward ?net ?sd] =>
      destruct (forward net sd) as [[? ?]|]; [|related_worlds Hn]
  end;
  rewrite !loss_loop_run;
  match goal with
  | |- context [accumulate_loss ?s ?m ?t] =>
      destruct (accumulate_loss s m t); [|related_worlds Hn]
  end;
  match goal with
  | |- context [item ?lv] => destruct (item lv); [|related_worlds Hn]
  end;
  world_fields;
  rewrite <- Hn, <- Ho;
  destruct (adam_step _ _ _ _);
  related_worlds Hn.

Lemma started_train_batch prev b : respects same_start (train_batch prev b).
Proof.
  intros w w2 (Hn & Ho & Hr & Hl). destruct b as [dat targets].
  related_train_batch Hn Ho Hl dat targets.
Qed.

Lemma bound_train_batch prev b : respects same_bound (train_batch prev b).
Proof.
  intros w w2 ((Hn & Ho & Hr & Hl) & Hv). destruct b as [dat targets].
  related_train_batch Hn Ho Hl dat targets.
Qed.

(** A batch that runs to its end leaves [loss_val] bound to the loss it
    returns. *)
Lemma train_batch_binds prev b w r w' :
  train_batch prev b w = (Ok r, w') -> w_loss_val w' = r.
Proof.
  destruct b as [dat targets].
  unfold train_batch, latency, zero_grad, call_net, backward, optimizer_step.
  unfold bind, modify, lift, gets, ret. world_fields.
  destruct (spikegen_latency dat num_steps) as [raw|e]; [|discriminate].
  destruct (size0 dat) as [n|e]; [|discriminate].
  destruct (view3 raw num_steps n) as [sd|e]; [|discriminate].
  match goal with
  | |- context [forward ?net sd] =>
      destruct (forward net sd) as [[o m]|e]; [|discriminate]
  end.
  rewrite loss_loop_run.
  destruct (accumulate_loss num_steps m targets) as [lv|e] eqn:Eacc;
    [|discriminate].
  rewrite (loss_left_ok _ _ _ _ Eacc).
  destruct (item lv) as [v|e]; [|discriminate].
  world_fields.
  destruct (adam_step _ _ _ _) as [ps o'].
  intros H; injection H as <- <-. reflexivity.
Qed.

(** From two states that share the net, the optimizer state and the
    generator state, the batches of an epoch run alike; if there is a
    batch and they run to their end, or if [loss_val] was bound alike,
    they leave [loss_val] bound alike. *)
Lemma started_batches batches prev w w2 :
  same_start w w2 ->
  fst (mfold train_batch batches prev w) = fst (mfold train_batch batches prev w2)
  /\ same_start (snd (mfold train_batch batches prev w))
       (snd (mfold train_batch batches prev w2))
  /\ (w_loss_val w = w_loss_val w2 \/ batches <> [] ->
      forall a, fst (mfold train_batch batches prev w) = Ok a ->
        w_loss_val (snd (mfold train_batch batches prev w))
        = w_loss_val (snd (mfold train_batch batches prev w2))).
Proof.
  intros S.
  destruct (@respects_mfold same_start _ _ train_batch batches
              (fun a b => @started_train_batch a b) prev w w2 S) as [E S'].
  split; [exact E|]. split; [exact S'|].
  intros [Hv|Hne] a Ha.
  - destruct (@respects_mfold same_bound _ _ train_batch batches
                (fun a b => @bound_train_batch a b) prev w w2 (conj S Hv))
      as [_ [_ Hv']].
    exact Hv'.
  - destruct batches as [|b bs]; [congruence|].
    cbn [mfold] in *. unfold bind in *.
    destruct (@started_train_batch prev b w w2 S) as [E1 S1].
    destruct (train_batch prev b w) as [[r|e] w1] eqn:T1;
      destruct (train_batch prev b w2) as [[r2|e2] w12] eqn:T2;
      cbn [fst snd] in E1, S1; try discriminate.
    injection E1 as <-.
    pose proof (train_batch_binds _ _ _ T1) as B1.
    pose proof (train_batch_binds _ _ _ T2) as B2.
    destruct (@respects_mfold same_bound _ _ train_batch bs
                (fun a b => @bound_train_batch a b) r w1 w12) as [_ [_ Hv']].
    { split; [exact S1 | congruence]. }
    exact Hv'.
Qed.

(** X13.  The parameters, the optimizer state and the generator state
    the training cell leaves depend on the state it starts from through
    the net, the optimizer state, the generator state and the number of
    gradient slots only: not on the gradients stored before, the loss
    history or the calls made before.  So does what the cell returns or
    raises, if the loader yields a batch or if the name [loss_val] is
    bound alike in the two states: on a loader that yields nothing, the
    print reads what an earlier run left in [loss_val].  Both runs have
    gradient recording on. *)
Theorem trained_net_depends_on_net_optimizer_and_generator :
  forall l w w2,
    w_grad_enabled w = true -> w_grad_enabled w2 = true ->
    w_net w = w_net w2 -> w_opt w = w_opt w2 -> w_rng w = w_rng w2 ->
    length (w_grads w) = length (w_grads w2) ->
    (w_loss_val w = w_loss_val w2 \/ fst (loader_iter l (w_rng w)) <> [] ->
     fst (training_cell l w) = fst (training_cell l w2))
    /\ w_net (snd (training_cell l w)) = w_net (snd (training_cell l w2))
    /\ w_opt (snd (training_cell l w)) = w_opt (snd (training_cell l w2))
    /\ w_rng (snd (training_cell l w)) = w_rng (snd (training_cell l w2)).
Proof.
  intros l w w2 _ _ Hn Ho Hr Hl.
  rewrite !training_cell_unfold. cbv zeta. rewrite <- Hr.
  set (bs := fst (loader_iter l (w_rng w))).
  set (w3 := set_rng _ (log _ (set_net _ (log _ (set_loss_hist [] w))))).
  set (w3' := set_rng _ (log _ (set_net _ (log _ (set_loss_hist [] w2))))).
  assert (S3 : same_start w3 w3').
  { unfold w3, w3'. repeat split; world_fields; congruence. }
  destruct (@started_batches bs None w3 w3' S3) as (E & (Sn & So & Sr & _) & Hb).
  change (w_loss_val w3) with (w_loss_val w) in Hb.
  change (w_loss_val w3') with (w_loss_val w2) in Hb.
  destruct (mfold train_batch bs None w3) as [[a|e] w4];
    destruct (mfold train_batch bs None w3') as [[a2|e2] w4'];
    cbn [fst snd] in E, Sn, So, Sr, Hb; try discriminate.
  - split.
    + intros H. rewrite (Hb H a eq_refl).
      destruct (w_loss_val w4') as [lv|]; [|reflexivity].
      destruct (item lv); reflexivity.
    + destruct (w_loss_val w4) as [lv|], (w_loss_val w4') as [lv'|];
        try destruct (item lv); try destruct (item lv');
        world_fields; auto.
  - injection E as <-. world_fields. auto.
Qed.

End Notebook.

(** ** An exact-arithmetic instance of the framework interface

    Rational scalars, a linear layer computed as written, a LIF layer
    with threshold 1 and reset by subtraction, linear latency coding,
    rate coding by a congruential generator, a margin loss in the place
    of the cross-entropy, finite differences in the place of reverse
    differentiation and plain gradient descent in the place of Adam's
    update.  It stands for none of the framework's numerics: it shows
    that the contracts above can be met together, and it lets the model
    of the notebook run on small inputs. *)

Module Exact.

Local Open Scope Q_scope.

Definition zero : Q := 0.
Definition add (a b : Q) : Q := Qred (a + b).
Definition mul (a b : Q) : Q := Qred (a * b).
Definition ltb (a b : Q) : bool := negb (Qle_bool b a).

Definition zeros_like (t : Tensor Q) : Tensor Q :=
  mkTensor (shape t) (repeat 0 (length (data t))).

(** Parameters: small rationals drawn from a counter. *)
Definition init_param (g : Z) (s : list nat) : Tensor Q * Z :=
  (mkTensor s (map (fun k => Qred (((g + Z.of_nat k) mod 7 - 3) # 8))
                   (seq 0 (numel s))),
   (g + Z.of_nat (numel s))%Z).

Definition dot (a b : list Q) : Q :=
  fold_left add (map (fun p => mul (fst p) (snd p)) (combine a b)) 0.

(** [y = x W^T + b] over the last dimension. *)
Definition linear_forward (l : Linear Q) (x : Tensor Q) : Result (Tensor Q) :=
  match rev (shape x) with
  | [] => Raise RuntimeError
  | k :: rpre =>
      if (k =? in_features l)%nat then
        Ok (mkTensor (rev rpre ++ [out_features l])
              (flat_map (fun r =>
                 map (fun j =>
                   add (dot (chunk (in_features l) r (data x))
                            (chunk (in_features l) j (data (weight l))))
                       (nth j (data (bias l)) 0))
                     (seq 0 (out_features l)))
                 (seq 0 (numel (rev rpre)))))
      else Raise RuntimeError
  end.

Definition init_leaky (l : Leaky) : Tensor Q := mkTensor [0%nat] [].

(** One LIF update: a potential above the threshold 1 is reduced by it,
    the rest decays by [beta], the input current is added, and the unit
    spikes when the new potential is above the threshold. *)
Definition lif_unit (b cur mem : Q) : Q * Q :=
  let reset := if ltb 1 mem then 1 else 0 in
  let mem' := Qred (b * mem + cur - reset) in
  (if ltb 1 mem' then 1 else 0, mem').

Definition leaky_forward (l : Leaky) (cur mem : Tensor Q)
  : Result (Tensor Q * Tensor Q) :=
  let m0 := if shape_eqb (shape mem) (shape cur) then data mem else [] in
  let units := map (fun j => lif_unit (lif_beta l) (nth j (data cur) 0) (nth j m0 0))
                   (seq 0 (length (data cur))) in
  Ok (mkTensor (shape cur) (map fst units), mkTensor (shape cur) (map snd units)).

(** A margin loss: the mean over the examples of the largest output
    minus the output of the target class. *)
Definition row_max (row : list Q) : Q :=
  fold_left (fun m v => if ltb m v then v else m) row (hd 0 row).

Definition CE_loss (m : Tensor Q) (targets : Tensor nat) : Result Q :=
  match shape m, shape targets with
  | [B; C], [B'] =>
      if ((B =? B') && forallb (fun c => c <? C) (data targets))%nat then
        Ok (Qred
              (fold_left add
                 (map (fun e =>
                    let row := chunk C e (data m) in
                    row_max row - nth (nth e (data targets) 0%nat) row 0)
                    (seq 0 B)) 0
               / inject_Z (Z.of_nat B)))
      else Raise RuntimeError
  | _, _ => Raise RuntimeError
  end.

(** Plain gradient descent on each parameter that has a gradient. *)
Definition descend (rate : Q) (p : Tensor Q) (g : option (Tensor Q)) : Tensor Q :=
  match g with
  | None => p
  | Some g =>
      mkTensor (shape p)
        (map (fun j => Qred (nth j (data p) 0 - rate * nth j (data g) 0))
             (seq 0 (length (data p))))
  end.

Fixpoint descend_all (rate : Q) (ps : list (Tensor Q)) (gs : list (option (Tensor Q)))
  : list (Tensor Q) :=
  match ps with
  | [] => []
  | p :: ps' => descend rate p (hd None gs) :: descend_all rate ps' (tl gs)
  end.

Definition adam_init (ps : list (Tensor Q)) : nat := 0%nat.

Definition adam_step (cfg : AdamCfg) (o : nat) (ps : list (Tensor Q))
  (gs : list (option (Tensor Q))) : list (Tensor Q) * nat :=
  (descend_all (lr cfg) ps gs, S o).

(** Forward differences with step 1/64, one parameter at a time. *)
Definition bump (ps : list (Tensor Q)) (i j : nat) : list (Tensor Q) :=
  map (fun k =>
         let p := nth k ps (mkTensor [] []) in
         if (k =? i)%nat then
           mkTensor (shape p)
             (map (fun n => if (n =? j)%nat then Qred (nth n (data p) 0 + (1 # 64))
                            else nth n (data p) 0)
                  (seq 0 (length (data p))))
         else p)
      (seq 0 (length ps)).

Definition loss_value (r : Result (Tensor Q)) : Q :=
  match r with
  | Ok t => hd 0 (data t)
  | Raise _ => 0
  end.

Definition autograd (f : list (Tensor Q) -> Result (Tensor Q)) (ps : list (Tensor Q))
  : list (Tensor Q) :=
  map (fun i =>
         let p := nth i ps (mkTensor [] []) in
         mkTensor (shape p)
           (map (fun j => Qred ((loss_value (f (bump ps i j)) - loss_value (f ps)) * 64))
                (seq 0 (length (data p)))))
      (seq 0 (length ps)).

(** Linear latency coding: an element of intensity [v] in [0, 1] spikes
    once, at step [floor ((1 - v) * (n - 1))]. *)
Definition spike_time (n : nat) (v : Q) : nat :=
  Z.to_nat (Z.min (Z.of_nat (n - 1))
                  (Qfloor ((1 - v) * inject_Z (Z.of_nat (n - 1))))).

Definition spikegen_latency (dat : Tensor Q) (n : nat) : Result (Tensor Q) :=
  Ok (mkTensor (n :: shape dat)
        (flat_map (fun t =>
           map (fun v => if (spike_time n v =? t)%nat then 1 else 0) (data dat))
           (seq 0 n))).

(** Rate coding: at every step each element spikes when a draw from the
    generator, scaled to [0, 1), is below its intensity. *)
Definition next (g : Z) : Z := ((g * 75 + 74) mod 65537)%Z.

Fixpoint draw (g : Z) (vs : list Q) : list Q * Z :=
  match vs with
  | [] => ([], g)
  | v :: vs' =>
      let g1 := next g in
      let '(spikes, g2) := draw g1 vs' in
      ((if ltb (g1 # 65537) v then 1 else 0) :: spikes, g2)
  end.

Fixpoint draw_steps (g : Z) (vs : list Q) (n : nat) : list Q * Z :=
  match n with
  | O => ([], g)
  | S n' =>
      let '(s1, g1) := draw g vs in
      let '(rest, g2) := draw_steps g1 vs n' in
      (s1 ++ rest, g2)
  end.

Definition spikegen_rate (g : Z) (dat : Tensor Q) (n : nat)
  : Result (Tensor Q) * Z :=
  let '(spikes, g') := draw_steps g (data dat) n in
  (Ok (mkTensor (n :: shape dat) spikes), g').

(** A loader is the list of its batches; an iteration yields them in
    one of two orders. *)
Definition Loader : Type := list (Batch Q).

Definition loader_iter (l : Loader) (g : Z) : list (Batch Q) * Z :=
  (if Z.even g then l else rev l, next g).

Definition dataset_len (l : Loader) : nat := list_sum (map (@batch_size Q) l).

(** *** The instance meets the contracts *)

Lemma ltb_lt a b : ltb a b = true <-> a < b.
Proof.
  unfold ltb. rewrite negb_true_iff. split; intros H.
  - apply Qnot_le_lt. intros Hle. apply Qle_bool_iff in Hle. congruence.
  - destruct (Qle_bool b a) eqn:E; [|reflexivity].
    apply Qle_bool_iff in E. exfalso. exact (Qlt_not_le _ _ H E).
Qed.

Lemma ltb_irrefl a : ltb a a = false.
Proof.
  destruct (ltb a a) eqn:E; [|reflexivity].
  apply ltb_lt in E. exfalso. exact (Qlt_irrefl _ E).
Qed.

Lemma ltb_trans a b c : ltb a b = true -> ltb b c = true -> ltb a c = true.
Proof.
  rewrite !ltb_lt. apply Qlt_trans.
Qed.

Lemma ltb_cotrans a b c : ltb a b = true -> ltb a c = true \/ ltb c b = true.
Proof.
  rewrite !ltb_lt. intros H.
  destruct (Qlt_le_dec a c) as [Hac|Hca]; [left; exact Hac|].
  right. eapply Qle_lt_trans; eauto.
Qed.

Lemma numel_app s1 s2 : numel (s1 ++ s2) = (numel s1 * numel s2)%nat.
Proof.
  induction s1 as [|n s1 IH]; simpl; [lia|]. rewrite IH. lia.
Qed.

Lemma length_flat_map_const {A B} (f : A -> list B) k l :
  (forall x, length (f x) = k) -> length (flat_map f l) = (length l * k)%nat.
Proof.
  intros H; induction l as [|x l IH]; simpl; [reflexivity|].
  rewrite length_app, H, IH. reflexivity.
Qed.

Lemma linear_contract (l : Linear Q) (x : Tensor Q) pre :
  Linear_ok l -> wf x -> shape x = pre ++ [in_features l] ->
  exists y, linear_forward l x = Ok y /\ wf y /\ shape y = pre ++ [out_features l].
Proof.
  intros _ _ Hsh. unfold linear_forward.
  rewrite Hsh, rev_app_distr. cbn [rev app].
  rewrite Nat.eqb_refl, rev_involutive.
  eexists; split; [reflexivity|]. split; [|reflexivity].
  unfold wf; cbn [data shape].
  rewrite (@length_flat_map_const _ _ _ (out_features l))
    by (intros r; rewrite length_map, length_seq; reflexivity).
  rewrite length_seq, numel_app. simpl. lia.
Qed.

Lemma leaky_contract (l : Leaky) (cur mem : Tensor Q) :
  wf cur ->
  mem = init_leaky l \/ (wf mem /\ shape mem = shape cur) ->
  exists spk mem',
    leaky_forward l cur mem = Ok (spk, mem')
    /\ wf spk /\ shape spk = shape cur /\ wf mem' /\ shape mem' = shape cur.
Proof.
  intros Hwf _. unfold leaky_forward.
  eexists; eexists; split; [reflexivity|].
  unfold wf in *; cbn [data shape].
  rewrite !length_map, length_seq. auto.
Qed.

Lemma latency_contract (dat : Tensor Q) n :
  wf dat ->
  exists y, spikegen_latency dat n = Ok y /\ wf y /\ shape y = n :: shape dat.
Proof.
  intros Hwf. eexists; split; [reflexivity|]. split; [|reflexivity].
  unfold wf in *; cbn [data shape numel fold_right].
  rewrite (@length_flat_map_const _ _ _ (length (data dat)))
    by (intros t; apply length_map).
  rewrite length_seq, Hwf. reflexivity.
Qed.

Lemma draw_length vs : forall g, length (fst (draw g vs)) = length vs.
Proof.
  induction vs as [|v vs IH]; intros g; simpl; [reflexivity|].
  specialize (IH (next g)). destruct (draw (next g) vs); simpl in *. lia.
Qed.

Lemma draw_steps_length vs n : forall g,
  length (fst (draw_steps g vs n)) = (n * length vs)%nat.
Proof.
  induction n as [|n IH]; intros g; simpl; [reflexivity|].
  pose proof (draw_length vs g) as H1.
  destruct (draw g vs) as [s1 g1]; simpl in *.
  specialize (IH g1). destruct (draw_steps g1 vs n); simpl in *.
  rewrite length_app. lia.
Qed.

Lemma rate_contract g (dat : Tensor Q) n :
  wf dat ->
  exists y g', spikegen_rate g dat n = (Ok y, g') /\ wf y /\ shape y = n :: shape dat.
Proof.
  intros Hwf. unfold spikegen_rate.
  pose proof (draw_steps_length (data dat) n g) as H.
  destruct (draw_steps g (data dat) n) as [spikes g']; simpl in H.
  exists (mkTensor (n :: shape dat) spikes), g'.
  split; [reflexivity|]. split; [|reflexivity].
  unfold wf in *; cbn [data shape numel fold_right]. rewrite H, Hwf. reflexivity.
Qed.

Lemma CE_contract (m : Tensor Q) (targets : Tensor nat) B C :
  wf m -> shape m = [B; C] ->
  wf targets -> shape targets = [B] ->
  Forall (fun c => (c < C)%nat) (data targets) ->
  exists v, CE_loss m targets = Ok v.
Proof.
  intros _ Sm _ St Hlab. unfold CE_loss. rewrite Sm, St, Nat.eqb_refl.
  replace (forallb (fun c => (c <? C)%nat) (data targets)) with true.
  - eexists; reflexivity.
  - symmetry. apply forallb_forall. rewrite Forall_forall in Hlab.
    intros c Hc. apply Nat.ltb_lt. auto.
Qed.

Lemma init_param_contract g s :
  wf (fst (init_param g s)) /\ shape (fst (init_param g s)) = s.
Proof.
  unfold init_param, wf; simpl. rewrite length_map, length_seq. auto.
Qed.

Lemma descend_keeps rate (p : Tensor Q) g :
  wf p -> wf (descend rate p g) /\ shape (descend rate p g) = shape p.
Proof.
  intros Hwf. destruct g as [g|]; simpl; [|auto].
  unfold wf in *; simpl. rewrite length_map, length_seq. auto.
Qed.

Lemma adam_contract cfg o ps gs :
  Forall2 (fun p p' : Tensor Q => wf p -> wf p' /\ shape p' = shape p)
    ps (fst (adam_step cfg o ps gs)).
Proof.
  unfold adam_step; simpl. revert gs.
  induction ps as [|p ps IH]; intros gs; simpl; constructor.
  - apply descend_keeps.
  - apply IH.
Qed.

End Exact.

(** ** The claims on concrete inputs *)

Module Run.

Import Exact.
Local Open Scope Q_scope.

Definition W : Type := World Q Z nat Loader.

(** A net of two inputs, two hidden layers of three units and two
    classes, with parameters from the instance's initialiser. *)
Definition net0 : Net Q :=
  mkNet (fst (nn_Linear init_param 2 3 0%Z)) (snn_Leaky beta)
        (fst (nn_Linear init_param 3 3 5%Z)) (snn_Leaky beta)
        (fst (nn_Linear init_param 3 2 11%Z)) (snn_Leaky beta) true.

(** [T] time slices of one example of two features. *)
Definition x_in (T : nat) : Tensor Q :=
  mkTensor [T; 1%nat; 2%nat]
    (map (fun k => inject_Z (Z.of_nat (k mod 3))) (seq 0 (T * 2))).

(** A batch of two examples with labels 0 and 1. *)
Definition b0 : Batch Q :=
  (mkTensor [2%nat; 2%nat] [1; 0.5; 0; 0.25], mkTensor [2%nat] [0%nat; 1%nat]).

Definition w0 : W :=
  mkWorld net0 (map (fun _ => None) (parameters net0)) 0%nat 7%Z true [] None [].

(** Batches of one MNIST-sized example each. *)
Definition image (k : nat) : Tensor Q :=
  mkTensor [1%nat; 784%nat]
    (map (fun j => Qred (Z.of_nat ((j + k) mod 5) # 4)) (seq 0 784)).

Definition train_loader : Loader :=
  [(image 0, mkTensor [1%nat] [3%nat]); (image 1, mkTensor [1%nat] [7%nat])].

Definition test_loader : Loader :=
  [(image 2, mkTensor [1%nat] [3%nat])].

Lemma net0_ok : Net_ok net0.
Proof. repeat split. Qed.

Lemma b0_fits : batch_fits net0 b0.
Proof.
  split; [reflexivity|]. split; [reflexivity|].
  exists 2%nat, [2%nat]. repeat split; try lia.
  repeat constructor.
Qed.

Lemma image_ok k c :
  (c < 10)%nat -> batch_ok num_inputs num_outputs (image k, mkTensor [1%nat] [c]).
Proof.
  intros Hc. split; [|split; [reflexivity|]].
  - unfold wf, image; cbn [fst data shape]. rewrite length_map, length_seq. reflexivity.
  - exists 1%nat, [784%nat]. repeat split; try lia.
    constructor; [exact Hc | constructor].
Qed.

Lemma train_loader_ok g :
  Forall (batch_ok num_inputs num_outputs) (fst (loader_iter train_loader g))
  /\ fst (loader_iter train_loader g) <> [].
Proof.
  unfold loader_iter, train_loader. destruct (Z.even g); cbn [fst rev app];
    (split; [repeat constructor; apply image_ok; lia | discriminate]).
Qed.

Lemma test_loader_ok g :
  Forall (batch_ok num_inputs num_outputs) (fst (loader_iter test_loader g))
  /\ fst (loader_iter test_loader g) <> [].
Proof.
  unfold loader_iter, test_loader. destruct (Z.even g); cbn [fst rev app];
    (split; [repeat constructor; apply image_ok; lia | discriminate]).
Qed.

(** The model on small inputs. *)

Example forward_three_steps :
  Net_forward linear_forward init_leaky leaky_forward 3 net0 (x_in 3)
  = Ok (mkTensor [3%nat; 1%nat; 2%nat] [0; 0; 0; 0; 0; 0],
        mkTensor [3%nat; 1%nat; 2%nat] [0; 1 # 8; 0; 39 # 160; 0; 1141 # 3200]).
Proof. vm_compute. reflexivity. Qed.

Example forward_short_input_raises :
  Net_forward linear_forward init_leaky leaky_forward 4 net0 (x_in 3)
  = Raise IndexError.
Proof. vm_compute. reflexivity. Qed.

Example forward_zero_steps_raises :
  Net_forward linear_forward init_leaky leaky_forward 0 net0 (x_in 3)
  = Raise RuntimeError.
Proof. vm_compute. reflexivity. Qed.

Example latency_four_steps :
  spikegen_latency (mkTensor [1%nat; 3%nat] [1; 0.5; 0]) 4
  = Ok (mkTensor [4%nat; 1%nat; 3%nat] [1; 0; 0; 0; 1; 0; 0; 0; 0; 0; 0; 1]).
Proof. vm_compute. reflexivity. Qed.

Example test_cell_two_batches :
  fst (test_cell zero add ltb linear_forward init_leaky leaky_forward spikegen_rate
         loader_iter dataset_len [b0; b0] w0)
  = Ok (2%nat, 4%nat, 200 # 4, 200 # 4).
Proof. vm_compute. reflexivity. Qed.

(** A batch with two examples and a single label is not one a loader
    yields: the comparison broadcasts the label, and [correct] can pass
    [total]. *)
Example counters_need_one_label_per_example :
  fst (test_batch zero add ltb linear_forward init_leaky leaky_forward spikegen_rate
         (0%nat, 0%nat)
         (mkTensor [2%nat; 2%nat] [1; 0.5; 0; 0.25], mkTensor [1%nat] [1%nat]) w0)
  = Ok (2%nat, 1%nat).
Proof. vm_compute. reflexivity. Qed.

(** Labels that come as a column are broadcast against the predictions:
    every label is compared with every prediction, and [total] grows by
    the first dimension of the labels. *)
Example column_targets_are_broadcast :
  fst (test_batch zero add ltb linear_forward init_leaky leaky_forward spikegen_rate
         (0%nat, 0%nat)
         (mkTensor [2%nat; 2%nat] [1; 0.5; 0; 0.25],
          mkTensor [2%nat; 1%nat] [0%nat; 1%nat]) w0)
  = Ok (2%nat, 2%nat).
Proof. vm_compute. reflexivity. Qed.

(** A label without dimensions is compared with every prediction, and
    [targets.size(0)] then raises. *)
Example scalar_target_raises_at_size :
  eq_sum (mkTensor [2%nat] [1%nat; 1%nat]) (mkTensor [] [1%nat]) = Ok 2%nat
  /\ fst (test_batch zero add ltb linear_forward init_leaky leaky_forward
            spikegen_rate (0%nat, 0%nat)
            (mkTensor [2%nat; 2%nat] [1; 0.5; 0; 0.25], mkTensor [] [1%nat]) w0)
     = Raise IndexError.
Proof. split; vm_compute; reflexivity. Qed.

Example eq_sum_broadcasts :
  eq_sum (mkTensor [2%nat; 2%nat] [1%nat; 0%nat; 1%nat; 1%nat])
         (mkTensor [2%nat] [1%nat; 1%nat]) = Ok 3%nat
  /\ eq_sum (mkTensor [2%nat] [1%nat; 0%nat])
            (mkTensor [3%nat] [0%nat; 1%nat; 1%nat]) = Raise RuntimeError.
Proof. split; vm_compute; reflexivity. Qed.

(** The LIF layer of the instance: without input current a potential
    below the threshold decays by [beta]. *)
Example potential_decays_by_beta :
  leaky_forward (snn_Leaky beta) (mkTensor [2%nat] [0; 1])
    (mkTensor [2%nat] [1 # 2; 1 # 2])
  = Ok (mkTensor [2%nat] [0; 1], mkTensor [2%nat] [19 # 40; 59 # 40]).
Proof. vm_compute. reflexivity. Qed.

(** A training batch changes the parameters of [net0]. *)
Example train_batch_changes_parameters :
  parameters (w_net (snd (train_batch zero add linear_forward init_leaky
                            leaky_forward CE_loss adam_step autograd
                            spikegen_latency None b0 w0)))
  <> parameters net0.
Proof. intros H. vm_compute in H. discriminate H. Qed.

(** On a loader that yields nothing, what the training cell returns
    depends on what an earlier run left in [loss_val]. *)
Example stale_loss_val_changes_the_result :
  fst (training_cell zero add linear_forward init_leaky leaky_forward CE_loss
         adam_step autograd spikegen_latency loader_iter [] w0)
  = Raise NameError
  /\ fst (training_cell zero add linear_forward init_leaky leaky_forward CE_loss
            adam_step autograd spikegen_latency loader_iter []
            (set_loss_val (Some (mkTensor [1%nat] [3])) w0))
     = Ok tt.
Proof. split; vm_compute; reflexivity. Qed.

(** C1: the chain of the net differs from the chain the specification
    writes, which has a LIF stage after the 784 input units and four LIF
    stages in all. *)
Lemma spec_chain_is_not_the_chain :
  chain (fst (Net_init init_param 0%Z)) <> spec_chain
  /\ length (filter is_lif spec_chain) = 4%nat
  /\ length (filter is_lif (chain (fst (Net_init init_param 0%Z)))) = 3%nat.
Proof.
  rewrite Net_init_chain. split; [discriminate | split; reflexivity].
Qed.

(** C5 on [net0] and thirty slices: the forward pass returns two
    records of first dimension [num_steps]. *)
Lemma forward_unrolls_num_steps_witness :
  exists spk mem,
    forward linear_forward init_leaky leaky_forward net0 (x_in 30) = Ok (spk, mem)
    /\ size0 spk = Ok num_steps /\ size0 mem = Ok num_steps.
Proof.
  destruct (@forward_unrolls_num_steps Q linear_forward init_leaky leaky_forward
              linear_contract leaky_contract) as (_ & _ & H).
  destruct (H num_steps net0 (x_in 30) 30%nat [1%nat])
    as (st & spk & mem & _ & _ & _ & E & _ & _ & S1 & S2 & _).
  - unfold num_steps; lia.
  - unfold num_steps; lia.
  - exact net0_ok.
  - reflexivity.
  - reflexivity.
  - exists spk, mem. auto.
Defined.

(** C8 on two inputs that agree on the first thirty slices and differ
    after them. *)
Lemma forward_reads_first_num_steps_slices_witness :
  x_in 31 <> mkTensor [32%nat; 1%nat; 2%nat] (data (x_in 30) ++ [9; 9; 9; 9])
  /\ Net_forward linear_forward init_leaky leaky_forward num_steps net0 (x_in 31)
     = Net_forward linear_forward init_leaky leaky_forward num_steps net0
         (mkTensor [32%nat; 1%nat; 2%nat] (data (x_in 30) ++ [9; 9; 9; 9])).
Proof.
  split; [discriminate|].
  apply forward_reads_first_num_steps_slices.
  intros i Hi. unfold num_steps in Hi.
  do 30 (destruct i as [|i]; [reflexivity|]). lia.
Defined.

(** C6 on [net0] and two steps: the first step of a call made after
    another call starts from the initial potential. *)
Lemma lif_state_is_reset_each_forward_witness :
  exists spk mem (w' : W) cur3 spk3 m3,
    call_net linear_forward init_leaky leaky_forward (x_in 30)
      (snd (call_net linear_forward init_leaky leaky_forward (x_in 31) w0))
    = (Ok (spk, mem), w')
    /\ leaky_forward (lif3 net0) cur3 (init_leaky (lif3 net0)) = Ok (spk3, m3)
    /\ select0 spk 0 = Ok spk3 /\ select0 mem 0 = Ok m3.
Proof.
  destruct (@lif_state_is_reset_each_forward Q Z init_param linear_forward
              init_leaky leaky_forward nat Loader
              (@linear_contract) (@leaky_contract)) as (_ & _ & _ & _ & H).
  destruct (H w0 (x_in 31) (x_in 30) 30%nat [1%nat])
    as (spk & mem & w' & xs & cur1 & spk1 & m1 & cur2 & spk2 & m2 & cur3 & spk3 & m3
        & E & _ & _ & _ & _ & _ & _ & F3 & Ss & Sm).
  - unfold num_steps; lia.
  - exact net0_ok.
  - reflexivity.
  - reflexivity.
  - exists spk, mem, w', cur3, spk3, m3.
    split; [exact E|]. split; [exact F3|]. split; [exact Ss | exact Sm].
Defined.

(** C2 on [net0] and the batch [b0]. *)
Lemma train_batch_backpropagates_summed_loss_witness :
  exists loss_val w',
    train_batch zero add linear_forward init_leaky leaky_forward CE_loss
      adam_step autograd spikegen_latency None b0 w0
    = (Ok (Some loss_val), w')
    /\ count (@is_backward Q Loader) (w_trace w') = 1%nat.
Proof.
  destruct (train_batch_backpropagates_summed_loss zero add linear_forward
              init_leaky leaky_forward CE_loss adam_step autograd spikegen_latency
              (@linear_contract) (@leaky_contract) (@latency_contract) (@CE_contract)
              None w0 net0_ok b0_fits)
    as (sd & outputs & mem_rec & cs & loss & w' & E & _ & _ & _ & _ & _ & _ & _ & Hc).
  exists loss, w'. split; [exact E | exact Hc].
Defined.

(** C3 on [net0] and a loader of the batch [b0]: the counters and the
    accuracy of the pass. *)
Lemma test_predicts_argmax_of_summed_spikes_witness :
  exists outs accuracy (w' : W),
    test_outputs linear_forward init_leaky leaky_forward spikegen_rate
      (set_training false net0) (snd (loader_iter [b0] 7%Z)) [b0] = Ok outs
    /\ test_cell zero add ltb linear_forward init_leaky leaky_forward spikegen_rate
         loader_iter dataset_len [b0] w0
       = (Ok (all_hits zero add ltb net0 [b0] outs, 2%nat,
              (Z.of_nat (100 * all_hits zero add ltb net0 [b0] outs) # 2)%Q,
              accuracy), w')
    /\ (all_hits zero add ltb net0 [b0] outs <= 2)%nat.
Proof.
  destruct (@test_predicts_argmax_of_summed_spikes Q zero add ltb Z init_param
              linear_forward init_leaky leaky_forward nat spikegen_rate Loader
              loader_iter dataset_len
              (@linear_contract) (@leaky_contract) (@rate_contract)
              ltb_irrefl ltb_trans ltb_cotrans) as (_ & _ & _ & H).
  destruct (H [b0] w0) as (outs & accuracy & w1 & Eouts & _ & _ & Ecell & Hle & _).
  - exact net0_ok.
  - simpl. constructor; [exact b0_fits | constructor].
  - discriminate.
  - unfold dataset_len; simpl; lia.
  - exists outs, accuracy. eexists.
    split; [exact Eouts|]. split; [exact Ecell | exact Hle].
Defined.

(** C4 on [net0] and the batch [b0]. *)
Lemma encoding_is_latency_in_training_rate_in_test_witness :
  (exists sd loss,
     w_trace (snd (train_batch zero add linear_forward init_leaky leaky_forward CE_loss
                     adam_step autograd spikegen_latency None b0 w0))
     = [EvLatency Loader (fst b0) num_steps; EvZeroGrad Q Loader;
        EvForward Loader sd; EvBackward Loader loss; EvStep Q Loader optimizer_cfg])
  /\ (exists sd,
        w_trace (snd (test_batch zero add ltb linear_forward init_leaky leaky_forward
                        spikegen_rate (0%nat, 0%nat) b0 w0))
        = [EvRate Loader (fst b0) num_steps; EvForward Loader sd]).
Proof.
  destruct (encoding_is_latency_in_training_rate_in_test zero add ltb linear_forward
              init_leaky leaky_forward CE_loss adam_step autograd spikegen_latency
              spikegen_rate
              (@linear_contract) (@leaky_contract) (@latency_contract)
              (@rate_contract) (@CE_contract)
              None (0%nat, 0%nat) w0 net0_ok b0_fits)
    as ((raw & n & sd & loss & w' & _ & _ & _ & E & T & _)
        & (raw' & g & sd' & r & w'' & _ & _ & E' & T' & _)).
  split.
  - exists sd, loss. rewrite E. exact T.
  - exists sd'. rewrite E'. exact T'.
Defined.

(** C10 on [net0], after one batch of two. *)
Lemma test_counters_invariant_witness :
  exists correct total w',
    mfold (test_batch zero add ltb linear_forward init_leaky leaky_forward spikegen_rate
             (Loader := Loader))
      [b0] (0%nat, 0%nat) w0
    = (Ok (correct, total), w')
    /\ (correct <= total)%nat /\ total = 2%nat.
Proof.
  destruct (test_counters_invariant zero add ltb linear_forward init_leaky
              leaky_forward spikegen_rate
              (@linear_contract) (@leaky_contract) (@rate_contract)
              [b0] [b0] w0 net0_ok)
    as (c & t & w' & E & _ & _ & Hle & Ht & _).
  - simpl. constructor; [exact b0_fits | constructor; [exact b0_fits | constructor]].
  - exists c, t, w'. split; [exact E|]. split; [exact Hle | exact Ht].
Defined.

(** C7 on loaders of two training batches and one test batch. *)
Lemma notebook_trains_one_epoch_then_tests_once_witness :
  exists result w' trained o',
    notebook zero add ltb linear_forward init_leaky leaky_forward CE_loss adam_step
      autograd spikegen_latency spikegen_rate loader_iter dataset_len
      train_loader test_loader
      (initial_world init_param adam_init Loader 0%Z)
    = (Ok result, w')
    /\ count (@is_step Q Loader) (w_trace w') = 2%nat
    /\ count (@is_iter Q Loader) (w_trace w') = 2%nat
    /\ rfold (descent_step zero add linear_forward init_leaky leaky_forward
                CE_loss adam_step autograd spikegen_latency)
         (fst (loader_iter train_loader
                 (w_rng (initial_world init_param adam_init Loader 0%Z))))
         (fst (Net_init init_param 0%Z),
          adam_init (parameters (fst (Net_init init_param 0%Z))))
       = Ok (trained, o')
    /\ w_net w' = set_training false trained
    /\ length (w_loss_hist w') = 2%nat.
Proof.
  destruct (@notebook_trains_one_epoch_then_tests_once Q zero add ltb Z init_param
              linear_forward init_leaky leaky_forward CE_loss nat adam_init adam_step
              autograd spikegen_latency spikegen_rate Loader loader_iter dataset_len
              (@linear_contract) (@leaky_contract) (@latency_contract)
              (@rate_contract) (@CE_contract) (@init_param_contract) (@adam_contract)
              train_loader test_loader 0%Z
              train_loader_ok test_loader_ok)
    as (_ & _ & H).
  - unfold dataset_len, test_loader; simpl; lia.
  - destruct H as (c & t & p & a & w' & infos & v & sds & E & _ & _ & _ & _ & Hi & Hs
                   & _ & _ & _ & _ & Hn0 & Ho0 & trained & o' & outs & D & Hn & _ & _
                   & _ & _ & _ & Hh).
    exists (c, t, p, a), w', trained, o'. split; [exact E|].
    assert (L2 : length (fst (loader_iter train_loader
                    (w_rng (initial_world init_param adam_init Loader 0%Z)))) = 2%nat).
    { unfold loader_iter, train_loader. destruct (Z.even _); reflexivity. }
    split; [rewrite Hs; exact L2|]. split; [exact Hi|].
    split; [rewrite Hn0, Ho0 in D; exact D|].
    split; [exact Hn|]. rewrite Hh. exact L2.
Defined.

(** X1 on [net0]: four steps asked of an input of three slices. *)
Lemma forward_raises_without_enough_slices_witness :
  Net_forward linear_forward init_leaky leaky_forward 4 net0 (x_in 3)
  = Raise IndexError.
Proof.
  destruct (@forward_raises_without_enough_slices Q linear_forward init_leaky
              leaky_forward (@linear_contract) (@leaky_contract)) as (_ & _ & H).
  apply (H 4%nat net0 (x_in 3) 3%nat [1%nat]).
  - lia.
  - exact net0_ok.
  - reflexivity.
  - reflexivity.
Defined.

(** X2 on [net0]: two steps of an input of two slices and three steps of
    an input of three slices that starts with the same two. *)
Lemma forward_is_causal_witness :
  exists spk mem spk' mem' s m,
    Net_forward linear_forward init_leaky leaky_forward 2 net0 (x_in 2)
    = Ok (spk, mem)
    /\ Net_forward linear_forward init_leaky leaky_forward 3 net0 (x_in 3)
       = Ok (spk', mem')
    /\ select0 spk 1 = Ok s /\ select0 spk' 1 = Ok s
    /\ select0 mem 1 = Ok m /\ select0 mem' 1 = Ok m.
Proof.
  apply (@forward_is_causal Q linear_forward init_leaky leaky_forward
           (@linear_contract) (@leaky_contract)
           2%nat 3%nat net0 (x_in 2) (x_in 3) 2%nat 3%nat [1%nat] 1%nat).
  - lia.
  - lia.
  - lia.
  - lia.
  - exact net0_ok.
  - reflexivity.
  - reflexivity.
  - reflexivity.
  - reflexivity.
  - intros i Hi. do 2 (destruct i as [|i]; [reflexivity|]). lia.
Defined.

(** X3 on a loader without batches, in a state where [loss_val] is
    unbound and in one where an earlier run left a 3 in it. *)
Lemma training_cell_without_batches_witness :
  (exists w',
     training_cell zero add linear_forward init_leaky leaky_forward CE_loss
       adam_step autograd spikegen_latency loader_iter [] w0
     = (Raise NameError, w'))
  /\ (exists w',
        training_cell zero add linear_forward init_leaky leaky_forward CE_loss
          adam_step autograd spikegen_latency loader_iter []
          (set_loss_val (Some (mkTensor [1%nat] [3])) (push_loss 9 w0))
        = (Ok tt, w')
        /\ w_trace w'
           = [EvTrainMode Q Loader; EvIter Q ([] : Loader);
              EvPrintEpoch Loader 1 num_epochs 3]
        /\ w_loss_hist w' = []).
Proof.
  split.
  - destruct (@training_cell_without_batches Q zero add Z linear_forward
                init_leaky leaky_forward CE_loss nat adam_step autograd
                spikegen_latency Loader loader_iter [] w0 eq_refl) as [H _].
    destruct (H eq_refl) as (w' & E & _). exists w'. exact E.
  - destruct (@training_cell_without_batches Q zero add Z linear_forward
                init_leaky leaky_forward CE_loss nat adam_step autograd
                spikegen_latency Loader loader_iter []
                (set_loss_val (Some (mkTensor [1%nat] [3])) (push_loss 9 w0))
                eq_refl) as [_ H].
    destruct (H (mkTensor [1%nat] [3]) 3 eq_refl eq_refl)
      as (w' & E & T & _ & _ & Hh & _).
    exists w'. split; [exact E|]. split; [exact T | exact Hh].
Defined.

(** X4 on a loader without batches. *)
Lemma test_cell_without_batches_raises_witness :
  exists w',
    test_cell zero add ltb linear_forward init_leaky leaky_forward spikegen_rate
      loader_iter dataset_len [] w0
    = (Raise ZeroDivisionError, w')
    /\ w_trace w' = [EvEvalMode Q Loader; EvIter Q ([] : Loader)].
Proof.
  destruct (@test_cell_without_batches_raises Q zero add ltb Z linear_forward
              init_leaky leaky_forward nat spikegen_rate Loader loader_iter
              dataset_len [] w0)
    as (w' & E & _ & T).
  - reflexivity.
  - exists w'. split; [exact E | exact T].
Defined.

(** X5 on [net0] and the batch [b0], with the parameters as stale
    gradients. *)
Lemma train_batch_ignores_stale_gradients_witness :
  exists r w',
    train_batch zero add linear_forward init_leaky leaky_forward CE_loss
      adam_step autograd spikegen_latency None b0 w0
    = (Ok r, w')
    /\ train_batch zero add linear_forward init_leaky leaky_forward CE_loss
         adam_step autograd spikegen_latency None b0
         (set_grads (map Some (parameters net0)) w0)
       = (Ok r, w').
Proof.
  destruct (@train_batch_ok Q zero add Z linear_forward init_leaky leaky_forward
              CE_loss nat adam_step autograd spikegen_latency Loader
              (@linear_contract) (@leaky_contract) (@latency_contract)
              (@CE_contract) None b0 w0 net0_ok b0_fits)
    as (raw & B & sd & outputs & mem_rec & mems & cs & _ & _ & _ & _ & _ & _ & _ & _ & E).
  eexists. eexists. split; [exact E|].
  apply (@train_batch_ignores_stale_gradients Q zero add Z linear_forward
           init_leaky leaky_forward CE_loss nat adam_step autograd
           spikegen_latency Loader None b0 w0 (map Some (parameters net0))).
  - reflexivity.
  - reflexivity.
  - exact E.
Defined.

(** X6 on [net0] and a loader of the batch [b0]. *)
Lemma training_keeps_the_architecture_witness :
  exists w' : W,
    training_cell zero add linear_forward init_leaky leaky_forward CE_loss
      adam_step autograd spikegen_latency loader_iter [b0] w0
    = (Ok tt, w')
    /\ Net_ok (w_net w')
    /\ chain (w_net w') = chain net0
    /\ training (w_net w') = true.
Proof.
  destruct (@training_keeps_the_architecture Q zero add Z linear_forward
              init_leaky leaky_forward CE_loss nat adam_step autograd
              spikegen_latency Loader loader_iter
              (@linear_contract) (@leaky_contract) (@latency_contract)
              (@CE_contract) (@adam_contract) [b0] w0)
    as (w' & E & Hok & _ & Hc & Ht & _).
  - reflexivity.
  - exact net0_ok.
  - simpl. constructor; [exact b0_fits | constructor].
  - discriminate.
  - exists w'. split; [exact E|]. split; [exact Hok|]. split; [exact Hc | exact Ht].
Defined.

(** X7 on [net0] and a loader of the batch [b0], from a state whose
    loss history holds an entry of an earlier run. *)
Lemma epoch_prints_the_last_batch_loss_witness :
  exists (w' : W) v evs,
    training_cell zero add linear_forward init_leaky leaky_forward CE_loss
      adam_step autograd spikegen_latency loader_iter [b0] (push_loss 9 w0)
    = (Ok tt, w')
    /\ w_loss_hist w' = [v]
    /\ w_loss_val w' = Some (mkTensor [1%nat] [v])
    /\ w_trace w' = evs ++ [EvPrintEpoch Loader 1 num_epochs v].
Proof.
  destruct (@epoch_prints_the_last_batch_loss Q zero add Z linear_forward
              init_leaky leaky_forward CE_loss nat adam_step autograd
              spikegen_latency Loader loader_iter
              (@linear_contract) (@leaky_contract) (@latency_contract)
              (@CE_contract) (@adam_contract) [b0] (push_loss 9 w0))
    as (w' & v & evs & E & Hl & _ & Hn & Hlv & Htr).
  - reflexivity.
  - exact net0_ok.
  - simpl. constructor; [exact b0_fits | constructor].
  - discriminate.
  - exists w', v, evs. split; [exact E|].
    change (length (w_loss_hist w') = 1%nat) in Hl. clear E.
    destruct (w_loss_hist w') as [|a [|a' h]];
      [discriminate Hl | | discriminate Hl].
    cbn [length Nat.sub nth_error] in Hn. injection Hn as ->.
    split; [reflexivity|]. split; [exact Hlv | exact Htr].
Defined.

(** X8 on [net0] and a loader of the batch [b0], whose length is the
    number of its labels. *)
Lemma accuracy_variable_agrees_with_print_witness :
  exists correct printed accuracy (w' : W),
    test_cell zero add ltb linear_forward init_leaky leaky_forward spikegen_rate
      loader_iter dataset_len [b0] w0
    = (Ok (correct, 2%nat, printed, accuracy), w')
    /\ accuracy = printed.
Proof.
  destruct (@accuracy_variable_agrees_with_print Q zero add ltb Z linear_forward
              init_leaky leaky_forward nat spikegen_rate Loader loader_iter
              dataset_len
              (@linear_contract) (@leaky_contract) (@rate_contract) [b0] w0)
    as (c & t & p & a & w' & E & Ht & Hsame & _).
  - exact net0_ok.
  - simpl. constructor; [exact b0_fits | constructor].
  - discriminate.
  - unfold dataset_len; simpl; lia.
  - vm_compute in Ht. subst t.
    exists c, p, a, w'. split; [exact E|]. apply Hsame. reflexivity.
Defined.

(** X9 on one example whose second output unit spiked once. *)
Lemma predicted_class_is_the_first_maximum_witness :
  predicted_class zero add ltb (mkTensor [1%nat; 1%nat; 2%nat] [0; 1])
    1 1 2 0 = 1%nat.
Proof.
  destruct (@predicted_class_is_the_first_maximum Q zero add ltb
              ltb_irrefl ltb_trans ltb_cotrans) as [H _].
  apply H.
  - lia.
  - intros c Hc. do 2 (destruct c as [|c]; [reflexivity|]). lia.
  - intros c Hc. destruct c as [|c]; [reflexivity | lia].
Defined.

(** X10 on two states that share the net and the generator state and
    differ in everything else. *)
Lemma test_result_depends_on_net_and_generator_witness :
  fst (test_cell zero add ltb linear_forward init_leaky leaky_forward spikegen_rate
         loader_iter dataset_len [b0] w0)
  = fst (test_cell zero add ltb linear_forward init_leaky leaky_forward
           spikegen_rate loader_iter dataset_len [b0]
           (mkWorld net0 [] 5%nat 7%Z false [1] (Some (mkTensor [1%nat] [1]))
              [EvTrainMode Q Loader])).
Proof.
  apply (@test_result_depends_on_net_and_generator Q zero add ltb Z
           linear_forward init_leaky leaky_forward nat spikegen_rate Loader
           loader_iter dataset_len [b0] w0
           (mkWorld net0 [] 5%nat 7%Z false [1] (Some (mkTensor [1%nat] [1]))
              [EvTrainMode Q Loader])).
  - reflexivity.
  - reflexivity.
Defined.

(** X11 on [net0] and a batch whose two labels come as a column: the
    comparison broadcasts them against the two predictions, and [total]
    is the first dimension of the labels. *)
Lemma total_counts_every_label_witness :
  exists correct (w' : W),
    test_loop zero add ltb linear_forward init_leaky leaky_forward spikegen_rate
      loader_iter [(fst b0, mkTensor [2%nat; 1%nat] [0%nat; 1%nat])] w0
    = (Ok (correct, 2%nat), w').
Proof.
  assert (F : exists c t,
            fst (test_loop zero add ltb linear_forward init_leaky leaky_forward
                   spikegen_rate loader_iter
                   [(fst b0, mkTensor [2%nat; 1%nat] [0%nat; 1%nat])] w0)
            = Ok (c, t)).
  { eexists. eexists. vm_compute. reflexivity. }
  destruct F as (c & t & F).
  destruct (test_loop zero add ltb linear_forward init_leaky leaky_forward
              spikegen_rate loader_iter
              [(fst b0, mkTensor [2%nat; 1%nat] [0%nat; 1%nat])] w0)
    as [r w'] eqn:E.
  cbn [fst] in F. subst r.
  pose proof (@total_counts_every_label Q zero add ltb Z linear_forward
                init_leaky leaky_forward nat spikegen_rate Loader loader_iter
                [(fst b0, mkTensor [2%nat; 1%nat] [0%nat; 1%nat])] w0 c t w' E)
    as Ht.
  change (t = 2%nat) in Ht. subst t. exists c, w'. reflexivity.
Defined.

(** X12 on three time steps of one example of two features. *)
Lemma reshape_keeps_time_slices_witness :
  exists spike_data frame step img row : Tensor Q,
    view3 (x_in 3) 3 1 = Ok spike_data
    /\ select0 (x_in 3) 1 = Ok frame /\ select0 spike_data 1 = Ok step
    /\ shape step = [1%nat; numel [2%nat]] /\ data step = data frame
    /\ select0 frame 0 = Ok img /\ select0 step 0 = Ok row
    /\ shape row = [numel [2%nat]] /\ data row = data img.
Proof.
  apply (@reshape_keeps_time_slices Q (x_in 3) 3%nat 1%nat [2%nat] 1%nat 0%nat).
  - lia.
  - reflexivity.
  - reflexivity.
  - lia.
  - lia.
Defined.

(** X13 on two states that share the net, the optimizer state and the
    generator state and differ in the stored gradients, the loss
    history, the binding of [loss_val] and the calls made before. *)
Lemma trained_net_depends_on_net_optimizer_and_generator_witness :
  fst (training_cell zero add linear_forward init_leaky leaky_forward
         CE_loss adam_step autograd spikegen_latency loader_iter [b0] w0)
  = fst (training_cell zero add linear_forward init_leaky leaky_forward
           CE_loss adam_step autograd spikegen_latency loader_iter [b0]
           (mkWorld net0 (map Some (parameters net0)) 0%nat 7%Z true [1]
              (Some (mkTensor [1%nat] [3])) [EvEvalMode Q Loader]))
  /\ w_net (snd (training_cell zero add linear_forward init_leaky leaky_forward
                   CE_loss adam_step autograd spikegen_latency loader_iter [b0] w0))
     = w_net (snd (training_cell zero add linear_forward init_leaky leaky_forward
                     CE_loss adam_step autograd spikegen_latency loader_iter [b0]
                     (mkWorld net0 (map Some (parameters net0)) 0%nat 7%Z true [1]
                        (Some (mkTensor [1%nat] [3])) [EvEvalMode Q Loader]))).
Proof.
  destruct (@trained_net_depends_on_net_optimizer_and_generator Q zero add Z
              linear_forward init_leaky leaky_forward CE_loss nat adam_step
              autograd spikegen_latency Loader loader_iter [b0] w0
              (mkWorld net0 (map Some (parameters net0)) 0%nat 7%Z true [1]
                 (Some (mkTensor [1%nat] [3])) [EvEvalMode Q Loader]))
    as (F & H & _).
  - reflexivity.
  - reflexivity.
  - reflexivity.
  - reflexivity.
  - reflexivity.
  - reflexivity.
  - split; [|exact H]. apply F. right. discriminate.
Defined.

End Run.
